(** * Guest-physical-memory core of KVM (virt/kvm/kvm_main.c)

    A shallow embedding of the memory-slot table and its update protocol,
    the dirty log, the guest-frame translation pipeline, the MMU-notifier
    sequence/count pair and the I/O-bus dispatcher, together with the
    properties of these that the design document states.

    Conventions.  C integers are [Z] with the wrap-around of their type
    written out ([u64], [ulong], [slong]).  A pointer that may be NULL is an
    [option].  Calls into code outside kvm_main.c (architecture hooks, the
    host memory manager, the allocator, emulated devices) are oracles
    gathered in records; void hooks leave an [event] in a trace. *)

From Stdlib Require Import ZArith Lia.
From stdpp Require Import base gmap list sorting.

Local Open Scope Z_scope.

(** ** What the headers provide

    kvm_main.c is compiled against constants of the architecture and against
    lib/sort.c.  They are parameters of the development. *)
Class Platform := {
  BITS_PER_LONG : Z;           (* width of [unsigned long] *)
  PAGE_SHIFT : Z;
  PAGE_OFFSET : Z;             (* first kernel address *)
  KVM_USER_MEM_SLOTS : Z;
  KVM_PRIVATE_MEM_SLOTS : Z;
  KVM_CAP_READONLY_MEM : bool; (* is the macro defined *)
  (* lib/sort.c: sort(base, num, size, cmp, swap) on an array, as a list *)
  sort : ∀ A : Type, (A → A → Z) → list A → list A;
  BITS_PER_LONG_range : 0 < BITS_PER_LONG ≤ 64;
  BITS_PER_LONG_bytes : BITS_PER_LONG mod 8 = 0;
  PAGE_SHIFT_range : 0 ≤ PAGE_SHIFT < BITS_PER_LONG;
  PAGE_OFFSET_range : 0 ≤ PAGE_OFFSET ∧ PAGE_OFFSET + 2 ^ PAGE_SHIFT < 2 ^ BITS_PER_LONG;
  KVM_USER_MEM_SLOTS_nonneg : 0 ≤ KVM_USER_MEM_SLOTS;
  KVM_PRIVATE_MEM_SLOTS_nonneg : 0 ≤ KVM_PRIVATE_MEM_SLOTS;
}.
Arguments sort {_ _} _ _.

(** A stand-in for lib/sort.c used to run the model on concrete inputs:
    insertion sort with the comparator of the caller. *)
Fixpoint isort_insert {A} (cmp : A → A → Z) (x : A) (l : list A) : list A :=
  match l with
  | [] => [x]
  | y :: l' => if cmp x y <=? 0 then x :: l else y :: isort_insert cmp x l'
  end.

Definition isort {A} (cmp : A → A → Z) (l : list A) : list A :=
  foldr (isort_insert cmp) [] l.

(** A 32-bit ARM configuration with LPAE: 4 KiB pages, kernel at 3 GiB. *)
Definition arm_platform : Platform := {|
  BITS_PER_LONG := 32;
  PAGE_SHIFT := 12;
  PAGE_OFFSET := 0xC0000000;
  KVM_USER_MEM_SLOTS := 32;
  KVM_PRIVATE_MEM_SLOTS := 4;
  KVM_CAP_READONLY_MEM := false;
  sort := @isort;
  BITS_PER_LONG_range := ltac:(lia);
  BITS_PER_LONG_bytes := eq_refl;
  PAGE_SHIFT_range := ltac:(lia);
  PAGE_OFFSET_range := ltac:(lia);
  KVM_USER_MEM_SLOTS_nonneg := ltac:(lia);
  KVM_PRIVATE_MEM_SLOTS_nonneg := ltac:(lia);
|}.

(** A 64-bit configuration in which read-only slots exist. *)
Definition lp64_platform : Platform := {|
  BITS_PER_LONG := 64;
  PAGE_SHIFT := 12;
  PAGE_OFFSET := 0xffff880000000000;
  KVM_USER_MEM_SLOTS := 125;
  KVM_PRIVATE_MEM_SLOTS := 3;
  KVM_CAP_READONLY_MEM := true;
  sort := @isort;
  BITS_PER_LONG_range := ltac:(lia);
  BITS_PER_LONG_bytes := eq_refl;
  PAGE_SHIFT_range := ltac:(lia);
  PAGE_OFFSET_range := ltac:(lia);
  KVM_USER_MEM_SLOTS_nonneg := ltac:(lia);
  KVM_PRIVATE_MEM_SLOTS_nonneg := ltac:(lia);
|}.

(** ** Errno values and ABI constants

    Modelled from the spec: errno.h, the uapi header linux/kvm.h and
    include/linux/kvm_host.h are outside kvm_main.c.  The errors the design
    names (invalid request, region in use, out of memory, unhandled access)
    are the errno values below; the slot flags are single bits; the frame
    error values lie outside the range of frame numbers, and "a read-only
    slot rejects write-intent translations with a distinct error from no
    mapping".  The numbers are those of the headers. *)
Definition ENOENT : Z := 2.
Definition ENOMEM : Z := 12.
Definition EFAULT : Z := 14.
Definition EEXIST : Z := 17.
Definition EINVAL : Z := 22.
Definition ENOSPC : Z := 28.
Definition EOPNOTSUPP : Z := 95.
Definition EHWPOISON : Z := 133.

Definition KVM_MEM_LOG_DIRTY_PAGES : Z := 1.       (* 1UL << 0 *)
Definition KVM_MEM_READONLY : Z := 2.              (* 1UL << 1 *)
Definition KVM_MEMSLOT_INVALID : Z := 65536.       (* 1UL << 16 *)
Definition KVM_MEM_MAX_NR_PAGES : Z := 2 ^ 31 - 1. (* (1UL << 31) - 1 *)

Definition KVM_PFN_ERR_MASK : Z := Z.shiftl 0x7ff 52.
Definition KVM_PFN_NOSLOT : Z := Z.shiftl 1 63.
Definition KVM_PFN_ERR_FAULT : Z := KVM_PFN_ERR_MASK.
Definition KVM_PFN_ERR_HWPOISON : Z := KVM_PFN_ERR_MASK + 1.
Definition KVM_PFN_ERR_RO_FAULT : Z := KVM_PFN_ERR_MASK + 2.

Definition VM_READ : Z := 1.
Definition VM_WRITE : Z := 2.
Definition VM_PFNMAP : Z := 0x400.

(** ** Machine integers *)
Definition wrap (w x : Z) : Z := x mod 2 ^ w.
Definition u64 (x : Z) : Z := wrap 64 x.
Definition u32 (x : Z) : Z := wrap 32 x.

(** C's [!x] and truth of a scalar. *)
Definition nonzero (x : Z) : bool := negb (x =? 0).

(** ** Data model *)

(** Address of a dirty bitmap in kernel memory. *)
Abbreviation ptr := positive.

(** struct kvm_memory_slot.  [arch] stands for the architecture-private
    part, all zeroes being [0]. *)
Record kvm_memory_slot := mk_slot {
  base_gfn : Z;                  (* gfn_t *)
  npages : Z;                    (* unsigned long *)
  dirty_bitmap : option ptr;     (* unsigned long * *)
  arch : Z;
  userspace_addr : Z;            (* unsigned long *)
  flags : Z;                     (* u32 *)
  id : Z;                        (* short *)
}.

#[global] Instance kvm_memory_slot_inhabited : Inhabited kvm_memory_slot :=
  populate (mk_slot 0 0 None 0 0 0 0).

(** struct kvm_memslots: both arrays have KVM_MEM_SLOTS_NUM entries. *)
Record kvm_memslots := mk_memslots {
  generation : Z;                (* u64 *)
  memslots : list kvm_memory_slot;
  id_to_index : list Z;          (* short [] *)
}.

(** struct kvm_userspace_memory_region, the request of user space. *)
Record kvm_userspace_memory_region := mk_region {
  mem_slot : Z;                  (* __u32 *)
  mem_flags : Z;                 (* __u32 *)
  mem_guest_phys_addr : Z;       (* __u64 *)
  mem_memory_size : Z;           (* __u64 *)
  mem_userspace_addr : Z;        (* __u64 *)
}.

Inductive kvm_mr_change :=
  KVM_MR_CREATE | KVM_MR_DELETE | KVM_MR_MOVE | KVM_MR_FLAGS_ONLY.

#[global] Instance kvm_mr_change_eq_dec : EqDecision kvm_mr_change.
Proof. solve_decision. Defined.

(** struct kvm_io_range and struct kvm_io_bus; [dev_count] is the length of
    the flexible array [range]. *)
Record kvm_io_range := mk_range {
  addr : Z;                      (* gpa_t *)
  len : Z;                       (* int *)
  dev : Z;                       (* struct kvm_io_device * *)
}.

#[global] Instance kvm_io_range_inhabited : Inhabited kvm_io_range :=
  populate (mk_range 0 0 0).

Record kvm_io_bus := mk_bus { range : list kvm_io_range }.

Definition dev_count (bus : kvm_io_bus) : Z := Z.of_nat (length (range bus)).

Inductive kvm_bus := KVM_MMIO_BUS | KVM_PIO_BUS | KVM_VIRTIO_CCW_NOTIFY_BUS.

(** The part of struct kvm the modelled functions touch.  [kmem] holds the
    dirty bitmaps, each an array of [unsigned long] words, by address. *)
Record kvm := mk_kvm {
  kvm_memslots_of : kvm_memslots;          (* kvm->memslots, the active table *)
  kmem : gmap ptr (list Z);
  mmu_notifier_seq : Z;                    (* unsigned long *)
  mmu_notifier_count : Z;                  (* long *)
  buses : kvm_bus → kvm_io_bus;
}.

Definition set_memslots (k : kvm) (s : kvm_memslots) : kvm :=
  mk_kvm s (kmem k) (mmu_notifier_seq k) (mmu_notifier_count k) (buses k).
Definition set_kmem (k : kvm) (h : gmap ptr (list Z)) : kvm :=
  mk_kvm (kvm_memslots_of k) h (mmu_notifier_seq k) (mmu_notifier_count k)
         (buses k).
Definition set_mmu_notifier_seq (k : kvm) (v : Z) : kvm :=
  mk_kvm (kvm_memslots_of k) (kmem k) v (mmu_notifier_count k) (buses k).
Definition set_mmu_notifier_count (k : kvm) (v : Z) : kvm :=
  mk_kvm (kvm_memslots_of k) (kmem k) (mmu_notifier_seq k) v (buses k).

(** What a function does that is not a change of [kvm]: calls of void hooks,
    publication of a table, synchronisation. *)
Inductive event :=
  | EvKmemdup                               (* a copy of the active table *)
  | EvPublish (slots : kvm_memslots)        (* rcu_assign_pointer + synchronize_srcu *)
  | EvKfreeTable (slots : kvm_memslots)
  | EvAllocBitmap (p : ptr)
  | EvFreeBitmap (p : ptr)
  | EvIommuUnmap (s : kvm_memory_slot)
  | EvIommuMap (s : kvm_memory_slot)
  | EvFlushShadowMemslot (s : kvm_memory_slot)
  | EvArchFreeMemslot (free : kvm_memory_slot) (dont : option kvm_memory_slot)
  | EvArchPrepare (new : kvm_memory_slot) (change : kvm_mr_change)
  | EvArchCommit (old : kvm_memory_slot) (change : kvm_mr_change)
  | EvSrcuReadLock                          (* srcu_read_lock(&kvm->srcu) *)
  | EvSrcuReadUnlock
  | EvSpinLock
  | EvSpinUnlock
  | EvStoreSeq (v : Z)                      (* a store to kvm->mmu_notifier_seq *)
  | EvStoreCount (v : Z)                    (* a store to kvm->mmu_notifier_count *)
  | EvWmb                                   (* smp_wmb() *)
  | EvUnmapHvaRange (start end_ : Z)
  | EvFlushRemoteTlbs
  | EvGetUserPagesFastAtomic (hva : Z)      (* __get_user_pages_fast(hva, 1, 1, _) *)
  | EvGetUserPagesFast (hva : Z) (write : bool)
  | EvGetUserPageNowait (hva : Z) (write : bool)
  | EvPutPage (pfn : Z)
  | EvOffer (d : Z).                        (* kvm_iodevice_read/write on a device *)

(** A function that can hit BUG_ON: the kernel stops there. *)
Inductive outcome (A : Type) :=
  | Done (a : A)
  | Bug.
Arguments Done {A} a.
Arguments Bug {A}.

(** Field updates of a slot held in a local variable. *)
Definition set_base_gfn (s : kvm_memory_slot) (v : Z) : kvm_memory_slot :=
  mk_slot v (npages s) (dirty_bitmap s) (arch s) (userspace_addr s) (flags s) (id s).
Definition set_npages (s : kvm_memory_slot) (v : Z) : kvm_memory_slot :=
  mk_slot (base_gfn s) v (dirty_bitmap s) (arch s) (userspace_addr s) (flags s) (id s).
Definition set_dirty_bitmap (s : kvm_memory_slot) (v : option ptr) : kvm_memory_slot :=
  mk_slot (base_gfn s) (npages s) v (arch s) (userspace_addr s) (flags s) (id s).
Definition set_arch (s : kvm_memory_slot) (v : Z) : kvm_memory_slot :=
  mk_slot (base_gfn s) (npages s) (dirty_bitmap s) v (userspace_addr s) (flags s) (id s).
Definition set_userspace_addr (s : kvm_memory_slot) (v : Z) : kvm_memory_slot :=
  mk_slot (base_gfn s) (npages s) (dirty_bitmap s) (arch s) v (flags s) (id s).
Definition set_flags (s : kvm_memory_slot) (v : Z) : kvm_memory_slot :=
  mk_slot (base_gfn s) (npages s) (dirty_bitmap s) (arch s) (userspace_addr s) v (id s).
Definition set_id (s : kvm_memory_slot) (v : Z) : kvm_memory_slot :=
  mk_slot (base_gfn s) (npages s) (dirty_bitmap s) (arch s) (userspace_addr s) (flags s) v.

Definition set_mem_flags (m : kvm_userspace_memory_region) (v : Z)
  : kvm_userspace_memory_region :=
  mk_region (mem_slot m) v (mem_guest_phys_addr m) (mem_memory_size m)
            (mem_userspace_addr m).

(** What __kvm_set_memory_region calls outside kvm_main.c, and whether its
    allocations fail.  [kmemdup_fails 0] is the copy made for the
    transitional table (line 854), [kmemdup_fails 1] the one made for the
    final table (line 887). *)
Record environment := mk_env {
  access_ok : Z → Z → bool;
  kvm_arch_create_memslot : kvm_memory_slot → Z → Z * Z;
  kvm_arch_prepare_memory_region :
    kvm_memory_slot → kvm_userspace_memory_region → kvm_mr_change → Z;
  kvm_iommu_map_pages : kvm_memory_slot → Z;
  kvzalloc_fails : bool;
  kmemdup_fails : nat → bool;
}.

Section SlotTable.
Context `{Platform}.

Definition ulong (x : Z) : Z := wrap BITS_PER_LONG x.

(** [long], two's complement (the kernel is built with -fno-strict-overflow). *)
Definition slong (x : Z) : Z :=
  (x + 2 ^ (BITS_PER_LONG - 1)) mod 2 ^ BITS_PER_LONG - 2 ^ (BITS_PER_LONG - 1).

Definition PAGE_SIZE : Z := Z.shiftl 1 PAGE_SHIFT.
Definition KVM_MEM_SLOTS_NUM : Z := KVM_USER_MEM_SLOTS + KVM_PRIVATE_MEM_SLOTS.

(** include/linux/kvm_host.h *)
Definition KVM_HVA_ERR_BAD : Z := PAGE_OFFSET.
Definition KVM_HVA_ERR_RO_BAD : Z := ulong (PAGE_OFFSET + PAGE_SIZE).
Definition kvm_is_error_hva (a : Z) : bool := PAGE_OFFSET <=? a.

(** Modelled from the spec: id_to_memslot is an inline function of
    include/linux/kvm_host.h, outside kvm_main.c; the slot table
    carries "an id → index lookup array", read here.  The C function returns
    a pointer into the table: [id_to_memslot_index] is its position,
    [id_to_memslot] the slot it points to.  A read outside the arrays is
    undefined in C and yields index 0, or the zero slot, here. *)
Definition id_to_memslot_index (slots : kvm_memslots) (i : Z) : nat :=
  Z.to_nat (default 0 (id_to_index slots !! Z.to_nat i)).

Definition id_to_memslot (slots : kvm_memslots) (i : Z) : kvm_memory_slot :=
  memslots slots !!! id_to_memslot_index slots i.

(** Modelled from the spec: kvm_for_each_memslot is a macro of
    include/linux/kvm_host.h, outside kvm_main.c.  A slot is present
    when its page count is positive and the table is kept in descending
    order of page count, so the walk over the slots goes through the
    array in order and ends at the first slot without pages. *)
Fixpoint present_prefix (l : list kvm_memory_slot) : list kvm_memory_slot :=
  match l with
  | [] => []
  | s :: l' => if npages s =? 0 then [] else s :: present_prefix l'
  end.

Definition kvm_for_each_memslot (slots : kvm_memslots) : list kvm_memory_slot :=
  present_prefix (take (Z.to_nat KVM_MEM_SLOTS_NUM) (memslots slots)).

(** Modelled from the spec: __gfn_to_memslot (include/linux/kvm_host.h, outside
    kvm_main.c) is the table's lookup(gfn) → slot|none, a search over the
    slots for the one whose frame range holds [gfn]. *)
Definition __gfn_to_memslot (slots : kvm_memslots) (gfn : Z)
  : option kvm_memory_slot :=
  List.find (λ s, (base_gfn s <=? gfn) && (gfn <? u64 (base_gfn s + npages s)))
            (kvm_for_each_memslot slots).

Definition gfn_to_memslot (k : kvm) (gfn : Z) : option kvm_memory_slot :=
  __gfn_to_memslot (kvm_memslots_of k) gfn.

(** Modelled from the spec: ALIGN (include/linux/kernel.h) and
    kvm_dirty_bitmap_bytes (include/linux/kvm_host.h) are outside kvm_main.c;
    the bitmap has one bit per page, "sized to at least the slot's page
    count", in whole words. *)
Definition ALIGN (x a : Z) : Z := (x + (a - 1)) / a * a.

Definition kvm_dirty_bitmap_bytes (memslot : kvm_memory_slot) : Z :=
  ALIGN (npages memslot) BITS_PER_LONG / 8.

Definition sizeof_long : Z := BITS_PER_LONG / 8.

(** kvm_create_dirty_bitmap (!CONFIG_S390): twice the bitmap, zeroed.
    [None] is -ENOMEM. *)
Definition kvm_create_dirty_bitmap (fails : bool) (h : gmap ptr (list Z))
    (memslot : kvm_memory_slot)
  : option (gmap ptr (list Z) * kvm_memory_slot * list event) :=
  let dirty_bytes := ulong (2 * kvm_dirty_bitmap_bytes memslot) in
  if fails then None
  else
    let p := fresh (dom h) in
    Some (<[p := replicate (Z.to_nat (dirty_bytes / sizeof_long)) 0]> h,
          set_dirty_bitmap memslot (Some p), [EvAllocBitmap p]).

Definition kvm_destroy_dirty_bitmap (h : gmap ptr (list Z))
    (memslot : kvm_memory_slot) : gmap ptr (list Z) * list event :=
  match dirty_bitmap memslot with
  | None => (h, [])
  | Some p => (delete p h, [EvFreeBitmap p])
  end.

(** Free any memory in [free] but not in [dont].  [free] is a local copy of
    the caller in every use below, so its fields after the call are dropped. *)
Definition kvm_free_physmem_slot (h : gmap ptr (list Z))
    (free : kvm_memory_slot) (dont : option kvm_memory_slot)
  : gmap ptr (list Z) * list event :=
  let '(h1, ev) :=
    match dont with
    | None => kvm_destroy_dirty_bitmap h free
    | Some d =>
        if decide (dirty_bitmap free ≠ dirty_bitmap d)
        then kvm_destroy_dirty_bitmap h free
        else (h, [])
    end in
  (h1, ev ++ [EvArchFreeMemslot free dont]).

Definition cmp_memslot (s1 s2 : kvm_memory_slot) : Z :=
  if npages s1 <? npages s2 then 1
  else if npages s2 <? npages s1 then -1
  else 0.

(** Sort the memslots by size and rebuild id_to_index. *)
Definition sort_memslots (slots : kvm_memslots) : kvm_memslots :=
  let ms := sort cmp_memslot (memslots slots) in
  mk_memslots (generation slots) ms
    (foldl (λ tbl i, <[Z.to_nat (id (ms !!! i)) := Z.of_nat i]> tbl)
           (id_to_index slots) (seq 0 (Z.to_nat KVM_MEM_SLOTS_NUM))).

Definition update_memslots (slots : kvm_memslots)
    (new : option kvm_memory_slot) (last_generation : Z) : kvm_memslots :=
  let slots1 :=
    match new with
    | Some new =>
        let i := id_to_memslot_index slots (id new) in
        let n := npages (memslots slots !!! i) in
        let slots' := mk_memslots (generation slots)
                        (<[i := new]> (memslots slots)) (id_to_index slots) in
        if decide (npages new ≠ n) then sort_memslots slots' else slots'
    | None => slots
    end in
  mk_memslots (u64 (last_generation + 1)) (memslots slots1) (id_to_index slots1).

Definition check_memory_region_flags (mem : kvm_userspace_memory_region) : Z :=
  let valid_flags :=
    if KVM_CAP_READONLY_MEM
    then Z.lor KVM_MEM_LOG_DIRTY_PAGES KVM_MEM_READONLY
    else KVM_MEM_LOG_DIRTY_PAGES in
  if nonzero (Z.land (mem_flags mem) (u32 (Z.lnot valid_flags)))
  then - EINVAL else 0.

(** Publishes [slots] (updated with [new]) as the active table and returns
    the table that was active. *)
Definition install_new_memslots (k : kvm) (slots : kvm_memslots)
    (new : option kvm_memory_slot) : kvm_memslots * kvm * list event :=
  let old_memslots := kvm_memslots_of k in
  let slots' := update_memslots slots new (generation (kvm_memslots_of k)) in
  (old_memslots, set_memslots k slots', [EvPublish slots']).

End SlotTable.

(** ** __kvm_set_memory_region *)
Section SetMemoryRegion.
Context `{Platform}.

(** Lines 757-777 and 783-785, with [r] as it stands at each "goto out". *)
Definition sanity_checks (e : environment) (mem : kvm_userspace_memory_region)
  : Z :=
  let r := check_memory_region_flags mem in
  if nonzero r then r
  else if nonzero (Z.land (mem_memory_size mem) (PAGE_SIZE - 1)) then - EINVAL
  else if nonzero (Z.land (mem_guest_phys_addr mem) (PAGE_SIZE - 1)) then - EINVAL
  else if (mem_slot mem <? KVM_USER_MEM_SLOTS)
          && (nonzero (Z.land (mem_userspace_addr mem) (PAGE_SIZE - 1))
              || negb (access_ok e (ulong (mem_userspace_addr mem))
                                   (ulong (mem_memory_size mem))))
       then - EINVAL
  else if KVM_MEM_SLOTS_NUM <=? mem_slot mem then - EINVAL
  else if u64 (mem_guest_phys_addr mem + mem_memory_size mem)
          <? mem_guest_phys_addr mem then - EINVAL
  else if KVM_MEM_MAX_NR_PAGES <? ulong (Z.shiftr (mem_memory_size mem) PAGE_SHIFT)
       then - EINVAL
  else 0.

(** The three ways out of lines 797-819: [change] is set, or "goto out" with
    [r = 0], or "goto out" with [r = -EINVAL]. *)
Inductive classification :=
  | Change (change : kvm_mr_change)
  | NothingToChange
  | Disallowed.

Definition classify (mem : kvm_userspace_memory_region)
    (old new : kvm_memory_slot) (base_gfn0 npages0 : Z) : classification :=
  if nonzero npages0 then
    if negb (nonzero (npages old)) then Change KVM_MR_CREATE
    else (* Modify an existing slot. *)
      if negb (mem_userspace_addr mem =? userspace_addr old)
         || negb (npages0 =? npages old)
         || nonzero (Z.land (Z.lxor (flags new) (flags old)) KVM_MEM_READONLY)
      then Disallowed
      else if negb (base_gfn0 =? base_gfn old) then Change KVM_MR_MOVE
      else if negb (flags new =? flags old) then Change KVM_MR_FLAGS_ONLY
      else NothingToChange
  else if nonzero (npages old) then Change KVM_MR_DELETE
  else (* Modify a non-existent slot: disallowed. *) Disallowed.

(** The test of lines 828-829 on one slot of the walk. *)
Definition overlaps (base_gfn0 npages0 : Z) (slot : kvm_memory_slot) : bool :=
  negb ((u64 (base_gfn0 + npages0) <=? base_gfn slot)
        || (u64 (base_gfn slot + npages slot) <=? base_gfn0)).

(** The loop of lines 824-831: [true] is "goto out" with [r = -EEXIST]. *)
Definition region_in_use (slots : kvm_memslots)
    (mem : kvm_userspace_memory_region) (base_gfn0 npages0 : Z) : bool :=
  existsb (λ slot,
             if (KVM_USER_MEM_SLOTS <=? id slot) || (id slot =? mem_slot mem)
             then false
             else overlaps base_gfn0 npages0 slot)
          (kvm_for_each_memslot slots).

(** The labels out_free and out_slots. *)
Definition out_free (k : kvm) (new old : kvm_memory_slot) (r : Z)
    (tr : list event) : Z * kvm * list event :=
  let '(h, ev) := kvm_free_physmem_slot (kmem k) new (Some old) in
  (r, set_kmem k h, tr ++ ev).

Definition out_slots (k : kvm) (slots : option kvm_memslots)
    (new old : kvm_memory_slot) (r : Z) (tr : list event)
  : Z * kvm * list event :=
  out_free k new old r
           (tr ++ match slots with Some s => [EvKfreeTable s] | None => [] end).

(** Lines 852-929, from the transitional table on. *)
Definition publish_region (e : environment) (k : kvm)
    (mem : kvm_userspace_memory_region) (old new : kvm_memory_slot)
    (change : kvm_mr_change) (tr : list event) : Z * kvm * list event :=
  let transitional :=
    if bool_decide (change = KVM_MR_DELETE ∨ change = KVM_MR_MOVE) then
      if kmemdup_fails e 0%nat then None
      else
        let slots := kvm_memslots_of k in
        let i := id_to_memslot_index slots (mem_slot mem) in
        let slot := set_flags (memslots slots !!! i)
                      (Z.lor (flags (memslots slots !!! i)) KVM_MEMSLOT_INVALID) in
        let slots := mk_memslots (generation slots)
                       (<[i := slot]> (memslots slots)) (id_to_index slots) in
        let '(old_memslots, k1, ev) := install_new_memslots k slots None in
        (* slot was deleted or moved, clear iommu mapping *)
        Some (k1, Some old_memslots,
              tr ++ [EvKmemdup] ++ ev
                 ++ [EvIommuUnmap old; EvFlushShadowMemslot slot])
    else Some (k, None, tr) in
  match transitional with
  | None => out_free k new old (- ENOMEM) tr
  | Some (k, slots, tr) =>
      let r := kvm_arch_prepare_memory_region e new mem change in
      let tr := tr ++ [EvArchPrepare new change] in
      if nonzero r then out_slots k slots new old r tr
      else
        let copied :=
          match slots with
          | Some s => Some (s, tr)
          | None => if kmemdup_fails e 1%nat then None
                    else Some (kvm_memslots_of k, tr ++ [EvKmemdup])
          end in
        match copied with
        | None => out_free k new old (- ENOMEM) tr
        | Some (slots, tr) =>
            let '(r, tr) :=
              if bool_decide (change = KVM_MR_CREATE ∨ change = KVM_MR_MOVE)
              then (kvm_iommu_map_pages e new, tr ++ [EvIommuMap new])
              else (0, tr) in
            if nonzero r then out_slots k (Some slots) new old r tr
            else
              (* actual memory is freed via old in kvm_free_physmem_slot below *)
              let new := if bool_decide (change = KVM_MR_DELETE)
                         then set_arch (set_dirty_bitmap new None) 0 else new in
              let '(old_memslots, k, ev) := install_new_memslots k slots (Some new) in
              let '(h, evf) := kvm_free_physmem_slot (kmem k) old (Some new) in
              (0, set_kmem k h,
               tr ++ ev ++ [EvArchCommit old change] ++ evf
                  ++ [EvKfreeTable old_memslots])
        end
  end.

(** Lines 834-850: the dirty bitmap and the architecture part of [new]. *)
Definition prepare_new_slot (e : environment) (k : kvm)
    (mem : kvm_userspace_memory_region) (old new : kvm_memory_slot)
    (npages0 : Z) (change : kvm_mr_change) : Z * kvm * list event :=
  (* Free page dirty bitmap if unneeded *)
  let new := if nonzero (Z.land (flags new) KVM_MEM_LOG_DIRTY_PAGES)
             then new else set_dirty_bitmap new None in
  let created :=
    if bool_decide (change = KVM_MR_CREATE) then
      let new := set_userspace_addr new (ulong (mem_userspace_addr mem)) in
      let '(rc, a) := kvm_arch_create_memslot e new npages0 in
      (nonzero rc, set_arch new a)
    else (false, new) in
  let '(failed, new) := created in
  if failed then out_free k new old (- ENOMEM) []
  else
    (* Allocate page dirty bitmap if needed *)
    if nonzero (Z.land (flags new) KVM_MEM_LOG_DIRTY_PAGES)
       && bool_decide (dirty_bitmap new = None)
    then
      match kvm_create_dirty_bitmap (kvzalloc_fails e) (kmem k) new with
      | None => out_free k new old (- ENOMEM) []
      | Some (h, new, ev) => publish_region e (set_kmem k h) mem old new change ev
      end
    else publish_region e k mem old new change [].

Definition __kvm_set_memory_region (e : environment) (k : kvm)
    (mem : kvm_userspace_memory_region) : Z * kvm * list event :=
  let r := sanity_checks e mem in
  if nonzero r then (r, k, [])
  else
    let slot := id_to_memslot (kvm_memslots_of k) (mem_slot mem) in
    let base_gfn0 := Z.shiftr (mem_guest_phys_addr mem) PAGE_SHIFT in
    let npages0 := ulong (Z.shiftr (mem_memory_size mem) PAGE_SHIFT) in
    let mem := if npages0 =? 0
               then set_mem_flags mem
                      (Z.land (mem_flags mem) (u32 (Z.lnot KVM_MEM_LOG_DIRTY_PAGES)))
               else mem in
    let old := slot in
    let new := set_flags (set_npages (set_base_gfn (set_id slot (mem_slot mem))
                                        base_gfn0) npages0) (mem_flags mem) in
    match classify mem old new base_gfn0 npages0 with
    | Disallowed => (- EINVAL, k, [])
    | NothingToChange => (0, k, [])
    | Change change =>
        if bool_decide (change = KVM_MR_CREATE ∨ change = KVM_MR_MOVE)
           && region_in_use (kvm_memslots_of k) mem base_gfn0 npages0
        then (- EEXIST, k, [])
        else prepare_new_slot e k mem old new npages0 change
    end.

(** kvm_set_memory_region takes kvm->slots_lock around the call, and
    kvm_vm_ioctl_set_memory_region admits user slots only. *)
Definition kvm_vm_ioctl_set_memory_region (e : environment) (k : kvm)
    (mem : kvm_userspace_memory_region) : Z * kvm * list event :=
  if KVM_USER_MEM_SLOTS <=? mem_slot mem then (- EINVAL, k, [])
  else __kvm_set_memory_region e k mem.

(** The table of a new virtual machine: kzalloc and kvm_init_memslots_id. *)
Definition kvm_init_memslots : kvm_memslots :=
  let ids := map Z.of_nat (seq 0 (Z.to_nat KVM_MEM_SLOTS_NUM)) in
  mk_memslots 0 (map (λ i, mk_slot 0 0 None 0 0 0 i) ids) ids.

Definition kvm_create_vm : kvm :=
  mk_kvm kvm_init_memslots ∅ 0 0 (λ _, mk_bus []).

End SetMemoryRegion.

(** ** Dirty log *)
Section DirtyLog.
Context `{Platform}.

(** Modelled from the spec: set_bit_le (asm-generic/bitops/le.h) is outside
    kvm_main.c; the bitmap's "bit order is little-endian-per-word, one bit
    per guest page": bit [nr] is bit [nr mod BITS_PER_LONG] of word
    [nr / BITS_PER_LONG].  A word outside the array is left alone here (in
    C the store lands outside the allocation). *)
Definition set_bit_le (nr : Z) (bitmap : list Z) : list Z :=
  let w := Z.to_nat (nr / BITS_PER_LONG) in
  <[w := Z.lor (default 0 (bitmap !! w))
                (Z.shiftl 1 (nr mod BITS_PER_LONG))]> bitmap.

(** Bit [nr] of a bitmap, in the same order. *)
Definition bitmap_bit (nr : Z) (bitmap : list Z) : bool :=
  Z.testbit (default 0 (bitmap !! Z.to_nat (nr / BITS_PER_LONG)))
            (nr mod BITS_PER_LONG).

Definition mark_page_dirty_in_slot (k : kvm) (memslot : option kvm_memory_slot)
    (gfn : Z) : kvm :=
  match memslot with
  | Some s =>
      match dirty_bitmap s with
      | Some p =>
          let rel_gfn := ulong (u64 (gfn - base_gfn s)) in
          set_kmem k (alter (set_bit_le rel_gfn) p (kmem k))
      | None => k
      end
  | None => k
  end.

Definition mark_page_dirty (k : kvm) (gfn : Z) : kvm :=
  mark_page_dirty_in_slot k (gfn_to_memslot k gfn) gfn.

(** kvm_get_dirty_log.  [copy_fails] is copy_to_user returning nonzero,
    [is_dirty] the caller's variable behind the pointer.  The third
    component of the result is the bitmap copy_to_user has copied out in
    full, [None] when there is none: the function returned before the copy,
    or the copy failed.  A copy that fails may have written part of the
    bitmap to the user's buffer before it returned; what the buffer holds
    then is not modelled. *)
Definition kvm_get_dirty_log (copy_fails : bool) (k : kvm) (log_slot : Z)
    (is_dirty : Z) : Z * kvm * option (list Z) * Z :=
  if KVM_USER_MEM_SLOTS <=? log_slot then (- EINVAL, k, None, is_dirty)
  else
    let memslot := id_to_memslot (kvm_memslots_of k) log_slot in
    match dirty_bitmap memslot with
    | None => (- ENOENT, k, None, is_dirty)
    | Some p =>
        let bitmap := default [] (kmem k !! p) in
        let n := ulong (kvm_dirty_bitmap_bytes memslot) in
        let words := take (Z.to_nat (n / sizeof_long)) bitmap in
        let any := default 0 (List.find nonzero words) in
        if copy_fails then (- EFAULT, k, None, is_dirty)
        else (0, k, Some words, if nonzero any then 1 else is_dirty)
    end.

End DirtyLog.

(** ** Frame translation *)

Record vm_area_struct := mk_vma {
  vm_start : Z;
  vm_pgoff : Z;
  vm_flags : Z;
}.

(** The host memory manager as kvm_main.c calls it.  The functions that pin
    one page return the number of pages pinned (or a negative errno) and the
    frame of the page. *)
Record host_mm := mk_host {
  __get_user_pages_fast : Z → Z * Z;          (* (addr, 1, 1, page) *)
  get_user_pages_fast : Z → bool → Z * Z;     (* (addr, 1, write, page) *)
  get_user_page_nowait : Z → bool → Z * Z;
  check_user_page_hwpoison : Z → bool;
  find_vma_intersection : Z → Z → option vm_area_struct;
  kvm_is_mmio_pfn : Z → bool;
  __copy_to_user : Z → Z → Z;                 (* (to, _, n): bytes not copied *)
}.

Section Translation.
Context `{Platform}.

Definition memslot_is_readonly (slot : kvm_memory_slot) : bool :=
  nonzero (Z.land (flags slot) KVM_MEM_READONLY).

(** Modelled from the spec: __gfn_to_hva_memslot (include/linux/kvm_host.h)
    is outside kvm_main.c; a slot is "a contiguous mapping between a GFN range
    and an HVA range", so frame [gfn] lies [gfn - base_gfn] pages above the
    slot's host-virtual base. *)
Definition __gfn_to_hva_memslot (slot : kvm_memory_slot) (gfn : Z) : Z :=
  ulong (userspace_addr slot + u64 (gfn - base_gfn slot) * PAGE_SIZE).

Definition __gfn_to_hva_many (slot : option kvm_memory_slot) (gfn : Z)
    (nr_pages : option Z) (write : bool) : Z * option Z :=
  match slot with
  | None => (KVM_HVA_ERR_BAD, nr_pages)
  | Some s =>
      if nonzero (Z.land (flags s) KVM_MEMSLOT_INVALID)
      then (KVM_HVA_ERR_BAD, nr_pages)
      else if memslot_is_readonly s && write then (KVM_HVA_ERR_RO_BAD, nr_pages)
      else
        (__gfn_to_hva_memslot s gfn,
         match nr_pages with
         | Some _ => Some (u64 (npages s - u64 (gfn - base_gfn s)))
         | None => None
         end)
  end.

Definition gfn_to_hva_many (slot : option kvm_memory_slot) (gfn : Z)
    (nr_pages : option Z) : Z * option Z :=
  __gfn_to_hva_many slot gfn nr_pages true.

Definition gfn_to_hva (k : kvm) (gfn : Z) : Z :=
  (gfn_to_hva_many (gfn_to_memslot k gfn) gfn None).1.

(** The atomic path to get the writable pfn.  [async] and [writable] are
    pointers to a caller's bool, [pfn] the caller's variable; the result is
    the return value, [*writable], [*pfn] and the calls made. *)
Definition hva_to_pfn_fast (m : host_mm) (hva : Z) (atomic : bool)
    (async : option bool) (write_fault : bool) (writable : option bool)
    (pfn : Z) : bool * option bool * Z * list event :=
  if negb (bool_decide (async ≠ None) || atomic)
  then (false, writable, pfn, [])
  else if negb (write_fault || bool_decide (writable ≠ None))
  then (false, writable, pfn, [])
  else
    let '(n, page) := __get_user_pages_fast m hva in
    if n =? 1
    then (true, match writable with Some _ => Some true | None => None end,
          page, [EvGetUserPagesFastAtomic hva])
    else (false, writable, pfn, [EvGetUserPagesFastAtomic hva]).

(** The slow path: the result is the return value, [*writable], [*pfn]. *)
Definition hva_to_pfn_slow (m : host_mm) (hva : Z) (async : option bool)
    (write_fault : bool) (writable : option bool) (pfn : Z)
  : Z * option bool * Z * list event :=
  let writable := match writable with
                  | Some _ => Some write_fault
                  | None => None
                  end in
  let '(n, page, tr) :=
    match async with
    | Some _ => (get_user_page_nowait m hva write_fault,
                 [EvGetUserPageNowait hva write_fault])
    | None => (get_user_pages_fast m hva write_fault,
               [EvGetUserPagesFast hva write_fault])
    end in
  if negb (n =? 1) then (n, writable, pfn, tr)
  else
    (* map read fault as writable if possible *)
    if negb write_fault && bool_decide (writable ≠ None) then
      let '(n2, wpage) := __get_user_pages_fast m hva in
      if n2 =? 1
      then (1, Some true, wpage,
            tr ++ [EvGetUserPagesFastAtomic hva; EvPutPage page])
      else (1, writable, page, tr ++ [EvGetUserPagesFastAtomic hva])
    else (n, writable, page, tr).

Definition vma_is_valid (vma : vm_area_struct) (write_fault : bool) : bool :=
  if negb (nonzero (Z.land (vm_flags vma) VM_READ)) then false
  else if write_fault && negb (nonzero (Z.land (vm_flags vma) VM_WRITE)) then false
  else true.

(** Pin guest page in memory and return its pfn; the result carries
    [*async] and [*writable] as the function leaves them. *)
Definition hva_to_pfn (m : host_mm) (hva : Z) (atomic : bool)
    (async : option bool) (write_fault : bool) (writable : option bool)
  : outcome (Z * option bool * option bool * list event) :=
  (* we can do it either atomically or asynchronously, not both *)
  if atomic && bool_decide (async ≠ None) then Bug
  else
    let '(ok, writable1, pfn1, tr1) :=
      hva_to_pfn_fast m hva atomic async write_fault writable 0 in
    if ok then Done (pfn1, async, writable1, tr1)
    else if atomic then Done (KVM_PFN_ERR_FAULT, async, writable1, tr1)
    else
      let '(n, writable2, pfn2, tr2) :=
        hva_to_pfn_slow m hva async write_fault writable1 pfn1 in
      if n =? 1 then Done (pfn2, async, writable2, tr1 ++ tr2)
      else if (n =? - EHWPOISON)
              || (bool_decide (async = None) && check_user_page_hwpoison m hva)
      then Done (KVM_PFN_ERR_HWPOISON, async, writable2, tr1 ++ tr2)
      else
        match find_vma_intersection m hva (ulong (hva + 1)) with
        | None => Done (KVM_PFN_ERR_FAULT, async, writable2, tr1 ++ tr2)
        | Some vma =>
            if nonzero (Z.land (vm_flags vma) VM_PFNMAP) then
              let pfn := ulong (Z.shiftr (ulong (hva - vm_start vma)) PAGE_SHIFT
                                + vm_pgoff vma) in
              if negb (kvm_is_mmio_pfn m pfn) then Bug
              else Done (pfn, async, writable2, tr1 ++ tr2)
            else
              let async := match async with
                           | Some b => Some (if vma_is_valid vma write_fault
                                             then true else b)
                           | None => None
                           end in
              Done (KVM_PFN_ERR_FAULT, async, writable2, tr1 ++ tr2)
        end.

Definition __gfn_to_pfn_memslot (m : host_mm) (slot : option kvm_memory_slot)
    (gfn : Z) (atomic : bool) (async : option bool) (write_fault : bool)
    (writable : option bool)
  : outcome (Z * option bool * option bool * list event) :=
  let hva := (__gfn_to_hva_many slot gfn None write_fault).1 in
  if hva =? KVM_HVA_ERR_RO_BAD then Done (KVM_PFN_ERR_RO_FAULT, async, writable, [])
  else if kvm_is_error_hva hva then Done (KVM_PFN_NOSLOT, async, writable, [])
  else
    (* Do not map writable pfn in the readonly memslot. *)
    match writable, slot with
    | Some _, Some s =>
        if memslot_is_readonly s then
          match hva_to_pfn m hva atomic async write_fault None with
          | Done (pfn, async, _, tr) => Done (pfn, async, Some false, tr)
          | Bug => Bug
          end
        else hva_to_pfn m hva atomic async write_fault writable
    | _, _ => hva_to_pfn m hva atomic async write_fault writable
    end.

Definition __gfn_to_pfn (m : host_mm) (k : kvm) (gfn : Z) (atomic : bool)
    (async : option bool) (write_fault : bool) (writable : option bool)
  : outcome (Z * option bool * option bool * list event) :=
  let async := match async with Some _ => Some false | None => None end in
  let slot := gfn_to_memslot k gfn in
  __gfn_to_pfn_memslot m slot gfn atomic async write_fault writable.

Definition gfn_to_pfn_atomic (m : host_mm) (k : kvm) (gfn : Z) :=
  __gfn_to_pfn m k gfn true None true None.

Definition gfn_to_pfn_async (m : host_mm) (k : kvm) (gfn : Z)
    (async : option bool) (write_fault : bool) (writable : option bool) :=
  __gfn_to_pfn m k gfn false async write_fault writable.

Definition gfn_to_pfn (m : host_mm) (k : kvm) (gfn : Z) :=
  __gfn_to_pfn m k gfn false None true None.

Definition gfn_to_pfn_prot (m : host_mm) (k : kvm) (gfn : Z)
    (write_fault : bool) (writable : option bool) :=
  __gfn_to_pfn m k gfn false None write_fault writable.

End Translation.

(** ** Guest writes and the cached guest-address handle *)

(** struct gfn_to_hva_cache.  [ghc_memslot] points into the table that was
    active when the handle was initialised. *)
Record gfn_to_hva_cache := mk_ghc {
  ghc_generation : Z;            (* u64 *)
  ghc_gpa : Z;                   (* gpa_t *)
  ghc_hva : Z;                   (* unsigned long *)
  ghc_len : Z;                   (* unsigned long *)
  ghc_memslot : option kvm_memory_slot;
}.

Section GuestAccess.
Context `{Platform}.

Definition offset_in_page (p : Z) : Z := Z.land p (PAGE_SIZE - 1).

Definition next_segment (len0 offset : Z) : Z :=
  if PAGE_SIZE - offset <? len0 then PAGE_SIZE - offset else len0.

Definition kvm_write_guest_page (m : host_mm) (k : kvm) (gfn offset len0 : Z)
  : Z * kvm :=
  let hva := gfn_to_hva k gfn in
  if kvm_is_error_hva hva then (- EFAULT, k)
  else if nonzero (__copy_to_user m (ulong (hva + offset)) len0) then (- EFAULT, k)
  else (0, mark_page_dirty k gfn).

(** The loop of kvm_write_guest; [None] when [fuel] iterations do not reach
    its end. *)
Fixpoint kvm_write_guest_loop (fuel : nat) (m : host_mm) (k : kvm)
    (gfn offset len0 : Z) : option (Z * kvm) :=
  let seg := next_segment len0 offset in
  if seg =? 0 then Some (0, k)
  else
    match fuel with
    | O => None
    | S fuel' =>
        let '(ret, k1) := kvm_write_guest_page m k gfn offset seg in
        if ret <? 0 then Some (ret, k1)
        else kvm_write_guest_loop fuel' m k1 (u64 (gfn + 1)) 0 (ulong (len0 - seg))
    end.

(** Every iteration writes at least one byte, so [len0] iterations are
    enough (lemma [kvm_write_guest_returns]). *)
Definition kvm_write_guest (m : host_mm) (k : kvm) (gpa len0 : Z)
  : option (Z * kvm) :=
  kvm_write_guest_loop (Z.to_nat len0) m k (Z.shiftr gpa PAGE_SHIFT)
                       (offset_in_page gpa) len0.

(** The loop of kvm_gfn_to_hva_cache_init (lines 1560-1567) followed by
    lines 1569-1571; [None] when [fuel] iterations do not reach its end.
    Every iteration moves [start_gfn] past the slot it found, so one
    iteration per frame of the range is enough (lemma
    [cache_init_walk_returns]). *)
Fixpoint cache_init_walk (fuel : nat) (k : kvm) (ghc : gfn_to_hva_cache)
    (start_gfn end_gfn : Z) : option (Z * gfn_to_hva_cache) :=
  if end_gfn <? start_gfn
  then (* Use the slow path for cross page reads and writes. *)
    Some (0, mk_ghc (ghc_generation ghc) (ghc_gpa ghc) (ghc_hva ghc)
                    (ghc_len ghc) None)
  else
    match fuel with
    | O => None
    | S fuel' =>
        let memslot := gfn_to_memslot k start_gfn in
        let '(hva, nr_pages_avail) := gfn_to_hva_many memslot start_gfn (Some 0) in
        let ghc := mk_ghc (ghc_generation ghc) (ghc_gpa ghc) hva (ghc_len ghc)
                          memslot in
        if kvm_is_error_hva hva then Some (- EFAULT, ghc)
        else cache_init_walk fuel' k ghc
               (u64 (start_gfn + default 0 nr_pages_avail)) end_gfn
    end.

Definition kvm_gfn_to_hva_cache_init (k : kvm) (ghc : gfn_to_hva_cache)
    (gpa len0 : Z) : option (Z * gfn_to_hva_cache) :=
  let slots := kvm_memslots_of k in
  let offset := offset_in_page gpa in
  let start_gfn := Z.shiftr gpa PAGE_SHIFT in
  let end_gfn := Z.shiftr (u64 (gpa + len0 - 1)) PAGE_SHIFT in
  let nr_pages_needed := u64 (end_gfn - start_gfn + 1) in
  let memslot := gfn_to_memslot k start_gfn in
  let hva := (gfn_to_hva_many memslot start_gfn None).1 in
  let ghc := mk_ghc (generation slots) gpa hva len0 memslot in
  if negb (kvm_is_error_hva hva) && (nr_pages_needed <=? 1)
  then Some (0, mk_ghc (generation slots) gpa (ulong (hva + offset)) len0 memslot)
  else
    (* If the requested region crosses two memslots, we still verify that
       the entire region is valid here. *)
    cache_init_walk (Z.to_nat (end_gfn - start_gfn + 1)) k ghc start_gfn end_gfn.

(** Lines 1586-1597, the use of a handle that is initialised. *)
Definition write_through_cache (m : host_mm) (k : kvm) (ghc : gfn_to_hva_cache)
    (len0 : Z) : option (Z * kvm) :=
  match ghc_memslot ghc with
  | None => kvm_write_guest m k (ghc_gpa ghc) len0
  | Some _ =>
      if kvm_is_error_hva (ghc_hva ghc) then Some (- EFAULT, k)
      else if nonzero (__copy_to_user m (ghc_hva ghc) len0) then Some (- EFAULT, k)
      else Some (0, mark_page_dirty_in_slot k (ghc_memslot ghc)
                      (Z.shiftr (ghc_gpa ghc) PAGE_SHIFT))
  end.

(** kvm_write_guest_cached: the return value, [kvm] and the handle after the
    call.  The return value of kvm_gfn_to_hva_cache_init is not looked at. *)
Definition kvm_write_guest_cached (m : host_mm) (k : kvm)
    (ghc : gfn_to_hva_cache) (len0 : Z)
  : option (outcome (Z * kvm * gfn_to_hva_cache)) :=
  let slots := kvm_memslots_of k in
  if ghc_len ghc <? len0 then Some Bug
  else
    ghc1 ← (if negb (generation slots =? ghc_generation ghc)
            then snd <$> kvm_gfn_to_hva_cache_init k ghc (ghc_gpa ghc) (ghc_len ghc)
            else Some ghc);
    '(r, k1) ← write_through_cache m k ghc1 len0;
    Some (Done (r, k1, ghc1)).

End GuestAccess.

(** ** The MMU-notifier sequence and count *)
Section MmuNotifier.
Context `{Platform}.

(** [unmapped] is the return value of kvm_unmap_hva_range, [tlbs_dirty] is
    kvm->tlbs_dirty, a long.  [need_tlb_flush] is an int and only tested
    against zero: the low 32 bits of the long value decide. *)
Definition kvm_mmu_notifier_invalidate_range_start (unmapped tlbs_dirty : Z)
    (k : kvm) (start end_ : Z) : kvm * list event :=
  let c := slong (mmu_notifier_count k + 1) in
  let need_tlb_flush := u32 (Z.lor unmapped tlbs_dirty) in
  (set_mmu_notifier_count k c,
   [EvSrcuReadLock; EvSpinLock; EvStoreCount c; EvUnmapHvaRange start end_]
     (* we've to flush the tlb before the pages can be freed *)
     ++ (if nonzero need_tlb_flush then [EvFlushRemoteTlbs] else [])
     ++ [EvSpinUnlock; EvSrcuReadUnlock]).

(** The stores and barriers in program order, and the state the function
    leaves unless BUG_ON stops the kernel. *)
Definition kvm_mmu_notifier_invalidate_range_end (k : kvm) (start end_ : Z)
  : list event * outcome kvm :=
  let s := ulong (mmu_notifier_seq k + 1) in
  let k1 := set_mmu_notifier_seq k s in
  let c := slong (mmu_notifier_count k1 - 1) in
  let k2 := set_mmu_notifier_count k1 c in
  ([EvSpinLock; EvStoreSeq s; EvWmb; EvStoreCount c; EvSpinUnlock],
   if mmu_notifier_count k2 <? 0 then Bug else Done k2).

(** The state another CPU can see after a prefix of the stores. *)
Definition apply_event (k : kvm) (ev : event) : kvm :=
  match ev with
  | EvStoreSeq v => set_mmu_notifier_seq k v
  | EvStoreCount v => set_mmu_notifier_count k v
  | _ => k
  end.

Definition replay (k : kvm) (tr : list event) : kvm := foldl apply_event k tr.

End MmuNotifier.

(** ** I/O bus *)

(** The emulated devices: a device returns 0 when it handled the access. *)
Record io_devices := mk_devs {
  kvm_iodevice_read : Z → Z → Z → Z;           (* (dev, addr, len, _) *)
  kvm_iodevice_write : Z → Z → Z → Z;
}.

Section IoBus.
Context `{Platform}.

Definition kvm_io_bus_sort_cmp (r1 r2 : kvm_io_range) : Z :=
  if addr r1 <? addr r2 then -1
  else if u64 (addr r2 + len r2) <? u64 (addr r1 + len r1) then 1
  else 0.

Definition kvm_io_bus_insert_dev (bus : kvm_io_bus) (d : Z) (a l : Z)
  : kvm_io_bus :=
  mk_bus (sort kvm_io_bus_sort_cmp (range bus ++ [mk_range a l d])).

(** Modelled from the spec: bsearch (lib/bsearch.c) is outside kvm_main.c; the
    dispatcher finds a range "via binary search on a comparator": the
    interval [start, end_) is halved at its middle element until that element
    compares equal to the key or the interval is empty.  The result is the
    position of the element found. *)
Fixpoint bsearch_loop {A} `{Inhabited A} (fuel : nat) (cmp : A → A → Z)
    (key : A) (base : list A) (start end_ : nat) : option nat :=
  match fuel with
  | O => None
  | S fuel' =>
      if (start <? end_)%nat then
        let mid := (start + (end_ - start) / 2)%nat in
        let result := cmp key (base !!! mid) in
        if result =? 0 then Some mid
        else if result <? 0 then bsearch_loop fuel' cmp key base start mid
        else bsearch_loop fuel' cmp key base (mid + 1)%nat end_
      else None
  end.

Definition bsearch {A} `{Inhabited A} (key : A) (base : list A) (num : nat)
    (cmp : A → A → Z) : option nat :=
  bsearch_loop (S num) cmp key base 0%nat num.

(** The loop of lines 2867-2868. *)
Fixpoint first_dev_back (key : kvm_io_range) (rs : list kvm_io_range)
    (off : nat) : nat :=
  match off with
  | O => O
  | S off' =>
      if kvm_io_bus_sort_cmp key (rs !!! off') =? 0
      then first_dev_back key rs off'
      else off
  end.

Definition kvm_io_bus_get_first_dev (bus : kvm_io_bus) (a l : Z) : Z :=
  let key := mk_range a l 0 in
  match bsearch key (range bus) (length (range bus)) kvm_io_bus_sort_cmp with
  | None => - ENOENT
  | Some off => Z.of_nat (first_dev_back key (range bus) off)
  end.

(** The loop of lines 2891-2896 (and 2919-2924) over the ranges from [idx]
    on; [access] is kvm_iodevice_write or kvm_iodevice_read. *)
Fixpoint bus_offer (access : Z → Z → Z → Z) (key : kvm_io_range)
    (rs : list kvm_io_range) : Z * list event :=
  match rs with
  | [] => (- EOPNOTSUPP, [])
  | r :: rs' =>
      if kvm_io_bus_sort_cmp key r =? 0 then
        if access (dev r) (addr key) (len key) =? 0
        then (0, [EvOffer (dev r)])
        else let '(ret, tr) := bus_offer access key rs' in
             (ret, EvOffer (dev r) :: tr)
      else (- EOPNOTSUPP, [])
  end.

Definition kvm_io_bus_dispatch (access : Z → Z → Z → Z) (k : kvm)
    (bus_idx : kvm_bus) (a l : Z) : Z * list event :=
  let key := mk_range a l 0 in
  let bus := buses k bus_idx in
  let idx := kvm_io_bus_get_first_dev bus a l in
  if idx <? 0 then (- EOPNOTSUPP, [])
  else bus_offer access key (drop (Z.to_nat idx) (range bus)).

Definition kvm_io_bus_write (d : io_devices) (k : kvm) (bus_idx : kvm_bus)
    (a l : Z) : Z * list event :=
  kvm_io_bus_dispatch (kvm_iodevice_write d) k bus_idx a l.

Definition kvm_io_bus_read (d : io_devices) (k : kvm) (bus_idx : kvm_bus)
    (a l : Z) : Z * list event :=
  kvm_io_bus_dispatch (kvm_iodevice_read d) k bus_idx a l.

(** What the design document says dispatch does: start at the first range
    of the table that compares equal to the access. *)
Definition spec_first_dev (key : kvm_io_range) (rs : list kvm_io_range)
  : option nat :=
  (λ p, p.1) <$> list_find (λ r, kvm_io_bus_sort_cmp key r = 0) rs.

Definition spec_dispatch (access : Z → Z → Z → Z) (k : kvm)
    (bus_idx : kvm_bus) (a l : Z) : Z * list event :=
  let key := mk_range a l 0 in
  match spec_first_dev key (range (buses k bus_idx)) with
  | None => (- EOPNOTSUPP, [])
  | Some i => bus_offer access key (drop i (range (buses k bus_idx)))
  end.

End IoBus.

(** Registration builds a replacement table and publishes it. *)
#[global] Instance kvm_bus_eq_dec : EqDecision kvm_bus.
Proof. solve_decision. Defined.

Definition NR_IOBUS_DEVS : Z := 1000.

Definition set_bus (k : kvm) (bus_idx : kvm_bus) (bus : kvm_io_bus) : kvm :=
  mk_kvm (kvm_memslots_of k) (kmem k) (mmu_notifier_seq k) (mmu_notifier_count k)
         (λ b, if decide (b = bus_idx) then bus else buses k b).

Definition kvm_io_bus_register_dev `{Platform} (kzalloc_fails : bool) (k : kvm)
    (bus_idx : kvm_bus) (a l : Z) (d : Z) : Z * kvm :=
  let bus := buses k bus_idx in
  if NR_IOBUS_DEVS - 1 <? dev_count bus then (- ENOSPC, k)
  else if kzalloc_fails then (- ENOMEM, k)
  else (0, set_bus k bus_idx (kvm_io_bus_insert_dev bus d a l)).

(** Removal builds a replacement table too.  The loop of lines 2962-2966: the position of the first range of device
    [d], [None] when the loop ends with [r = -ENOENT]. *)
Fixpoint first_range_of (d : Z) (rs : list kvm_io_range) : option nat :=
  match rs with
  | [] => None
  | r :: rs' => if dev r =? d then Some O else S <$> first_range_of d rs'
  end.

(** [kzalloc_fails] is kzalloc returning NULL.  The two memcpy calls copy
    the [i] ranges before the one found and the ranges after it. *)
Definition kvm_io_bus_unregister_dev (kzalloc_fails : bool) (k : kvm)
    (bus_idx : kvm_bus) (d : Z) : Z * kvm :=
  let bus := buses k bus_idx in
  match first_range_of d (range bus) with
  | None => (- ENOENT, k)
  | Some i =>
      if kzalloc_fails then (- ENOMEM, k)
      else
        let new_dev_count := (length (range bus) - 1)%nat in
        let new_range :=
          take i (range bus)
          ++ take (new_dev_count - i) (drop (S i) (range bus)) in
        (0, set_bus k bus_idx (mk_bus new_range))
  end.

(** ** The other MMU-notifier callbacks *)

(** What the callbacks below call and lock, in program order. *)
Inductive mmu_hook :=
  | HookSrcuReadLock
  | HookSrcuReadUnlock
  | HookSpinLock
  | HookSpinUnlock
  | HookUnmapHva (address : Z)              (* kvm_unmap_hva *)
  | HookSetSpteHva (address pte : Z)        (* kvm_set_spte_hva *)
  | HookFlushRemoteTlbs.                    (* kvm_flush_remote_tlbs *)

Section MmuNotifierPages.
Context `{Platform}.

(** [unmapped] is the return value of kvm_unmap_hva, [tlbs_dirty] is
    kvm->tlbs_dirty, a long.  [need_tlb_flush] is an int and only tested
    against zero: the low 32 bits of the long value decide. *)
Definition kvm_mmu_notifier_invalidate_page (unmapped tlbs_dirty : Z)
    (k : kvm) (address : Z) : kvm * list mmu_hook :=
  let k1 := set_mmu_notifier_seq k (ulong (mmu_notifier_seq k + 1)) in
  let need_tlb_flush := u32 (Z.lor unmapped tlbs_dirty) in
  (k1,
   [HookSrcuReadLock; HookSpinLock; HookUnmapHva address]
     (* we've to flush the tlb before the pages can be freed *)
     ++ (if nonzero need_tlb_flush then [HookFlushRemoteTlbs] else [])
     ++ [HookSpinUnlock; HookSrcuReadUnlock]).

Definition kvm_mmu_notifier_change_pte (k : kvm) (address pte : Z)
  : kvm * list mmu_hook :=
  (set_mmu_notifier_seq k (ulong (mmu_notifier_seq k + 1)),
   [HookSrcuReadLock; HookSpinLock; HookSetSpteHva address pte;
    HookSpinUnlock; HookSrcuReadUnlock]).

(** Modelled from the spec: mmu_notifier_retry is an inline function of
    include/linux/kvm_host.h, outside kvm_main.c.  "A translation obtained
    while active_count == 0 and sequence == s is valid to cache only if,
    upon re-check, sequence is still s": the check says retry when the count
    is not zero or the sequence number is no longer [mmu_seq], the one the
    translator read before it started. *)
Definition mmu_notifier_retry (k : kvm) (mmu_seq : Z) : bool :=
  if nonzero (mmu_notifier_count k) then true
  else if negb (mmu_notifier_seq k =? mmu_seq) then true
  else false.

End MmuNotifierPages.

(** ** Freeing the slots of a virtual machine *)
Section FreePhysmem.
Context `{Platform}.

(** The loop of kvm_free_physmem over the slots of the walk.  Here the slot
    handed to kvm_free_physmem_slot is the table's own entry: the call also
    writes a null bitmap and npages = 0 into it.  The walk reads npages of
    the next entry only, so it visits the slots it would visit without the
    writes, and the table is freed right after the loop; the writes are
    therefore not kept. *)
Fixpoint free_memslots (h : gmap ptr (list Z)) (l : list kvm_memory_slot)
  : gmap ptr (list Z) * list event :=
  match l with
  | [] => (h, [])
  | memslot :: l' =>
      let '(h1, ev) := kvm_free_physmem_slot h memslot None in
      let '(h2, tr) := free_memslots h1 l' in
      (h2, ev ++ tr)
  end.

(** The bitmap memory left and the calls made; the table is gone. *)
Definition kvm_free_physmem (k : kvm) : gmap ptr (list Z) * list event :=
  let slots := kvm_memslots_of k in
  let '(h, tr) := free_memslots (kmem k) (kvm_for_each_memslot slots) in
  (h, tr ++ [EvKfreeTable slots]).

End FreePhysmem.

(** ** Pinning a run of pages *)
Section PageRuns.
Context `{Platform}.

(** gfn_to_page_many_atomic.  [gup addr nr_pages] is the return value of
    __get_user_pages_fast(addr, nr_pages, 1, pages); the result is the
    return value and the arguments of that call, if it is made.  [entry] is
    a local variable without initial value: it is read only when the
    address is no error, and then gfn_to_hva_many has written it. *)
Definition gfn_to_page_many_atomic (gup : Z → Z → Z) (k : kvm)
    (gfn nr_pages : Z) : Z * option (Z * Z) :=
  let '(addr, entry) := gfn_to_hva_many (gfn_to_memslot k gfn) gfn (Some 0) in
  if kvm_is_error_hva addr then (-1, None)
  else if default 0 entry <? u64 nr_pages then (0, None)
  else (gup addr nr_pages, Some (addr, nr_pages)).

End PageRuns.

(** ** Predicates of the statements *)
Section Predicates.
Context `{Platform}.

(** The [change] a hook was called with. *)
Definition change_seen (c : kvm_mr_change) (ev : event) : Prop :=
  match ev with
  | EvArchPrepare _ c' | EvArchCommit _ c' => c' = c
  | _ => True
  end.

Definition is_publish (ev : event) : Prop :=
  match ev with EvPublish _ => True | _ => False end.

#[global] Instance is_publish_dec ev : Decision (is_publish ev).
Proof. destruct ev; apply _. Defined.

(** The frame range and flags a request asks for. *)
Definition req_base_gfn (mem : kvm_userspace_memory_region) : Z :=
  Z.shiftr (mem_guest_phys_addr mem) PAGE_SHIFT.
Definition req_npages (mem : kvm_userspace_memory_region) : Z :=
  ulong (Z.shiftr (mem_memory_size mem) PAGE_SHIFT).
Definition req_flags (mem : kvm_userspace_memory_region) : Z :=
  if req_npages mem =? 0
  then Z.land (mem_flags mem) (u32 (Z.lnot KVM_MEM_LOG_DIRTY_PAGES))
  else mem_flags mem.

(** A request is well typed when its 64-bit fields are 64-bit values. *)
Definition region_typed (mem : kvm_userspace_memory_region) : Prop :=
  0 ≤ mem_guest_phys_addr mem < 2 ^ 64 ∧ 0 ≤ mem_memory_size mem < 2 ^ 64.

(** The hooks of a request were called with [c], and a successful request
    committed with [c]. *)
Definition classified_as (c : kvm_mr_change) (old : kvm_memory_slot)
    (res : Z * kvm * list event) : Prop :=
  Forall (change_seen c) res.2 ∧ (res.1.1 = 0 → EvArchCommit old c ∈ res.2).

(** Lines 821-929 for a request that lines 797-819 gave the class [c]: the
    overlap check of a CREATE or a MOVE, then the new slot is prepared and
    published with [change = c]. *)
Definition carried_out_as (c : kvm_mr_change) (e : environment) (k : kvm)
    (mem : kvm_userspace_memory_region) : Z * kvm * list event :=
  let old := id_to_memslot (kvm_memslots_of k) (mem_slot mem) in
  let mem' := set_mem_flags mem (req_flags mem) in
  let new := set_flags (set_npages (set_base_gfn (set_id old (mem_slot mem))
                                      (req_base_gfn mem)) (req_npages mem))
                       (req_flags mem) in
  if bool_decide (c = KVM_MR_CREATE ∨ c = KVM_MR_MOVE)
     && region_in_use (kvm_memslots_of k) mem' (req_base_gfn mem)
                      (req_npages mem)
  then (- EEXIST, k, [])
  else prepare_new_slot e k mem' old new (req_npages mem) c.

(** The transitional table of a DELETE or MOVE of slot [i]: the active
    table with that slot marked invalid, one generation later. *)
Definition invalidated (slots : kvm_memslots) (i : Z) : kvm_memslots :=
  let n := id_to_memslot_index slots i in
  mk_memslots (u64 (generation slots + 1))
    (<[n := set_flags (memslots slots !!! n)
              (Z.lor (flags (memslots slots !!! n)) KVM_MEMSLOT_INVALID)]>
       (memslots slots))
    (id_to_index slots).

(** How the bitmap of [new] relates to the heap [h0] of before the call:
    it is the one of [old], or none, or one allocated since. *)
Definition new_bitmap_ok (h0 h : gmap ptr (list Z)) (new old : kvm_memory_slot)
  : Prop :=
  (h = h0 ∧ (dirty_bitmap new = dirty_bitmap old ∨ dirty_bitmap new = None))
  ∨ ∃ p v, h0 !! p = None ∧ h = <[p := v]> h0
           ∧ dirty_bitmap new = Some p ∧ dirty_bitmap old ≠ Some p.

(** The frame ranges [b, b + n) and [base_gfn s, base_gfn s + npages s)
    have a frame in common. *)
Definition frames_intersect (b n : Z) (s : kvm_memory_slot) : Prop :=
  Z.max b (base_gfn s) < Z.min (b + n) (base_gfn s + npages s).

#[global] Instance frames_intersect_dec b n s : Decision (frames_intersect b n s).
Proof. unfold frames_intersect. apply _. Defined.

(** A table as the slot code keeps it: all entries there, frame ranges
    inside the 64-bit frame space, larger slots first. *)
Definition slot_in_range (s : kvm_memory_slot) : Prop :=
  0 ≤ base_gfn s ∧ 0 ≤ npages s ∧ base_gfn s + npages s < 2 ^ 64.

Definition larger_first (s1 s2 : kvm_memory_slot) : Prop := npages s2 ≤ npages s1.

#[global] Instance slot_in_range_dec s : Decision (slot_in_range s).
Proof. unfold slot_in_range. apply _. Defined.

#[global] Instance larger_first_dec s1 s2 : Decision (larger_first s1 s2).
Proof. unfold larger_first. apply _. Defined.

Definition memslots_wf (slots : kvm_memslots) : Prop :=
  length (memslots slots) = Z.to_nat KVM_MEM_SLOTS_NUM
  ∧ Forall slot_in_range (memslots slots)
  ∧ StronglySorted larger_first (memslots slots).

(** Another slot of user space than the one the request names. *)
Definition other_user_slot (mem : kvm_userspace_memory_region)
    (s : kvm_memory_slot) : Prop :=
  id s < KVM_USER_MEM_SLOTS ∧ id s ≠ mem_slot mem.

#[global] Instance other_user_slot_dec mem s : Decision (other_user_slot mem s).
Proof. unfold other_user_slot. apply _. Defined.

(** The request is a CREATE or a MOVE. *)
Definition create_or_move (k : kvm) (mem : kvm_userspace_memory_region) : Prop :=
  let old := id_to_memslot (kvm_memslots_of k) (mem_slot mem) in
  req_npages mem ≠ 0
  ∧ (npages old = 0
     ∨ (npages old ≠ 0
        ∧ mem_userspace_addr mem = userspace_addr old
        ∧ req_npages mem = npages old
        ∧ Z.land (Z.lxor (mem_flags mem) (flags old)) KVM_MEM_READONLY = 0
        ∧ req_base_gfn mem ≠ base_gfn old)).

(** The number of bits set in a bitmap. *)
Definition bitmap_weight (bitmap : list Z) : nat :=
  length (filter (λ j, bitmap_bit j bitmap = true)
                 (seqZ 0 (BITS_PER_LONG * Z.of_nat (length bitmap)))).

(** The words kvm_get_dirty_log copies for a slot, and the words
    kvm_create_dirty_bitmap allocates for it. *)
Definition dirty_log_words (s : kvm_memory_slot) : nat :=
  Z.to_nat (ulong (kvm_dirty_bitmap_bytes s) / sizeof_long).
Definition dirty_bitmap_words (s : kvm_memory_slot) : nat :=
  Z.to_nat (ulong (2 * kvm_dirty_bitmap_bytes s) / sizeof_long).

(** No slot without the log flag has a bitmap. *)
Definition log_or_no_bitmap (s : kvm_memory_slot) : Prop :=
  Z.land (flags s) KVM_MEM_LOG_DIRTY_PAGES = 0 → dirty_bitmap s = None.

Definition no_log_no_bitmap (slots : kvm_memslots) : Prop :=
  Forall log_or_no_bitmap (memslots slots).

(** lib/sort.c swaps elements of the array: whatever the comparator, the
    result is a permutation of the input. *)
Class SortPermutes : Prop :=
  sort_perm : ∀ (A : Type) (cmp : A → A → Z) (l : list A), sort cmp l ≡ₚ l.

(** lib/sort.c orders the slots by cmp_memslot. *)
Class SortSorts : Prop :=
  sort_sorted : ∀ l : list kvm_memory_slot,
    StronglySorted (λ a b, cmp_memslot a b ≤ 0) (sort cmp_memslot l).

(** The table is ordered with respect to the access [key]: the ranges
    before position [i] compare below it, those from [i] up to [j] compare
    equal, those from [j] on compare above. *)
Definition partitioned (key : kvm_io_range) (rs : list kvm_io_range)
    (i j : nat) : Prop :=
  (i ≤ j ≤ length rs)%nat
  ∧ (∀ n r, rs !! n = Some r → (n < i)%nat → 0 < kvm_io_bus_sort_cmp key r)
  ∧ (∀ n r, rs !! n = Some r → (i ≤ n < j)%nat → kvm_io_bus_sort_cmp key r = 0)
  ∧ (∀ n r, rs !! n = Some r → (j ≤ n)%nat → kvm_io_bus_sort_cmp key r < 0).

(** The ranges of the table start and end in ascending order: none
    contains another. *)
Definition range_end (r : kvm_io_range) : Z := u64 (addr r + len r).

Definition strictly_ordered (rs : list kvm_io_range) : Prop :=
  StronglySorted (λ r1 r2, addr r1 < addr r2 ∧ range_end r1 < range_end r2) rs.

(** The ranges at the head of a list that compare equal to the access. *)
Fixpoint equal_run (key : kvm_io_range) (rs : list kvm_io_range)
  : list kvm_io_range :=
  match rs with
  | [] => []
  | r :: rs' => if kvm_io_bus_sort_cmp key r =? 0 then r :: equal_run key rs'
                else []
  end.

(** The publishes of a run: none, one, or two, each one generation after
    the table active before it. *)
Definition publishes_from (g : Z) (l : list Z) (g' : Z) : Prop :=
  l = [] ∧ g' = g
  ∨ l = [u64 (g + 1)] ∧ g' = u64 (g + 1)
  ∨ l = [u64 (g + 1); u64 (u64 (g + 1) + 1)] ∧ g' = u64 (u64 (g + 1) + 1).

(** The generations of the tables a trace publishes, in order. *)
Definition published (tr : list event) : list Z :=
  omap (λ ev, match ev with
              | EvPublish slots => Some (generation slots)
              | _ => None
              end) tr.

(** The virtual machines that [n] set-region requests, whatever they
    return, make of a new one.  In between, anything may happen that leaves
    the slot table as it is (marking pages dirty, MMU-notifier callbacks,
    changes of the I/O buses): update_memslots, which only
    install_new_memslots calls, which only __kvm_set_memory_region calls,
    is the one place that writes a generation. *)
Inductive reached_in : nat → kvm → Prop :=
  | reached_in_new : reached_in 0 kvm_create_vm
  | reached_in_set_region n e k mem :
      reached_in n k →
      reached_in (S n) (__kvm_set_memory_region e k mem).1.2
  | reached_in_same_table n k k' :
      reached_in n k → kvm_memslots_of k' = kvm_memslots_of k →
      reached_in n k'.

End Predicates.

(** ** Predicates of the further properties *)

(** The access lies inside the range [r]. *)
Definition access_within (a l : Z) (r : kvm_io_range) : Prop :=
  addr r ≤ a ∧ u64 (a + l) ≤ u64 (addr r + len r).

Section TablePredicates.
Context `{Platform}.

(** The id index is the inverse of the slot array: the index sends the id
    of the slot at position [i] back to [i], and every entry of the index
    points at a slot of that id. *)
Definition ids_consistent (slots : kvm_memslots) : Prop :=
  length (id_to_index slots) = Z.to_nat KVM_MEM_SLOTS_NUM
  ∧ length (memslots slots) = Z.to_nat KVM_MEM_SLOTS_NUM
  ∧ (∀ i s, memslots slots !! i = Some s →
            0 ≤ id s ∧ id_to_index slots !! Z.to_nat (id s) = Some (Z.of_nat i))
  ∧ (∀ j v, id_to_index slots !! j = Some v →
            0 ≤ v ∧ ∃ s, memslots slots !! Z.to_nat v = Some s
                         ∧ id s = Z.of_nat j).

(** No two slots of user space have a guest frame in common. *)
Definition no_overlap (slots : kvm_memslots) : Prop :=
  ∀ s t, s ∈ memslots slots → t ∈ memslots slots → id s ≠ id t →
         id s < KVM_USER_MEM_SLOTS → id t < KVM_USER_MEM_SLOTS →
         ¬ frames_intersect (base_gfn s) (npages s) t.

(** What the slot code keeps true of the active table. *)
Definition table_inv (slots : kvm_memslots) : Prop :=
  memslots_wf slots ∧ ids_consistent slots ∧ no_overlap slots
  ∧ no_log_no_bitmap slots.

(** A request as user space can write it: the fields are values of their
    unsigned types. *)
Definition request_typed (mem : kvm_userspace_memory_region) : Prop :=
  region_typed mem ∧ 0 ≤ mem_slot mem.

(** The virtual machines that a new one can become by set-region requests
    (with any behaviour of the hooks and of the allocator) and by marking
    pages dirty. *)
Inductive reachable : kvm → Prop :=
  | reachable_new : reachable kvm_create_vm
  | reachable_set_region e k mem :
      reachable k → request_typed mem →
      reachable (__kvm_set_memory_region e k mem).1.2
  | reachable_mark_page_dirty k gfn :
      reachable k → reachable (mark_page_dirty k gfn).

End TablePredicates.


(** The call that can be made where sleeping is not allowed. *)
Definition pins_without_sleeping (ev : event) : Prop :=
  match ev with EvGetUserPagesFastAtomic _ => True | _ => False end.

Section NotifierRuns.
Context `{Platform}.

(** A call of one of the callbacks by the host memory manager, with what
    the architecture returns to it. *)
Inductive notifier_op :=
  | OpInvalidatePage (unmapped tlbs_dirty address : Z)
  | OpChangePte (address pte : Z)
  | OpRangeStart (unmapped tlbs_dirty start end_ : Z)
  | OpRangeEnd (start end_ : Z).

Definition run_notifier (k : kvm) (op : notifier_op) : outcome kvm :=
  match op with
  | OpInvalidatePage u d a => Done (kvm_mmu_notifier_invalidate_page u d k a).1
  | OpChangePte a p => Done (kvm_mmu_notifier_change_pte k a p).1
  | OpRangeStart u d s e =>
      Done (kvm_mmu_notifier_invalidate_range_start u d k s e).1
  | OpRangeEnd s e => (kvm_mmu_notifier_invalidate_range_end k s e).2
  end.

(** The callbacks one after the other; the kernel stops at the first
    BUG_ON. *)
Fixpoint run_notifiers (k : kvm) (ops : list notifier_op) : outcome kvm :=
  match ops with
  | [] => Done k
  | op :: ops' =>
      match run_notifier k op with
      | Done k' => run_notifiers k' ops'
      | Bug => Bug
      end
  end.

Definition is_range_start (op : notifier_op) : bool :=
  match op with OpRangeStart _ _ _ _ => true | _ => false end.

Definition is_range_end (op : notifier_op) : bool :=
  match op with OpRangeEnd _ _ => true | _ => false end.

End NotifierRuns.

Section GuestAccessPredicates.
Context `{Platform}.

(** The number of pages that [len0] bytes starting at byte [offset] of a
    page lie in. *)
Definition pages_spanned (offset len0 : Z) : Z :=
  if len0 =? 0 then 0 else (offset + len0 + PAGE_SIZE - 1) / PAGE_SIZE.

(** Of a write of [len0] bytes that starts at byte [offset] of a page, the
    bytes that fall in the [i]-th page it touches: the byte of that page
    they start at, and their number. *)
Definition segment (offset len0 i : Z) : Z * Z :=
  if i =? 0 then (offset, Z.min len0 (PAGE_SIZE - offset))
  else (0, Z.min (len0 - (PAGE_SIZE - offset) - (i - 1) * PAGE_SIZE) PAGE_SIZE).

(** The [i]-th page of such a write at frame [gfn] has been written: its
    frame has a host address, and __copy_to_user of the page's bytes to
    that address returned 0. *)
Definition page_copied (m : host_mm) (k : kvm) (gfn offset len0 i : Z) : Prop :=
  kvm_is_error_hva (gfn_to_hva k (gfn + i)) = false
  ∧ __copy_to_user m (ulong (gfn_to_hva k (gfn + i) + (segment offset len0 i).1))
                   (segment offset len0 i).2 = 0.

End GuestAccessPredicates.

Section BitmapPredicates.
Context `{Platform}.

(** Every bitmap of a slot is allocated and belongs to a slot with pages;
    every allocated bitmap is the bitmap of a slot; no two slots share
    one. *)
Definition bitmaps_owned (k : kvm) : Prop :=
  let ms := memslots (kvm_memslots_of k) in
  (∀ s p, s ∈ ms → dirty_bitmap s = Some p →
          npages s ≠ 0 ∧ p ∈ dom (kmem k))
  ∧ (∀ p, p ∈ dom (kmem k) → ∃ s, s ∈ ms ∧ dirty_bitmap s = Some p)
  ∧ (∀ s t p, s ∈ ms → t ∈ ms →
              dirty_bitmap s = Some p → dirty_bitmap t = Some p → id s = id t).

(** The bitmaps a trace frees, in order. *)
Definition freed (tr : list event) : list ptr :=
  omap (λ ev, match ev with EvFreeBitmap p => Some p | _ => None end) tr.

End BitmapPredicates.

(** ** Machines for the examples

    A 32-bit machine with one slot (id 1, frames 16 to 18, dirty log on), the
    same machine after a DELETE of that slot failed in the architecture's
    prepare hook, and a 64-bit machine with a read-only slot. *)
Definition env_ok : environment :=
  mk_env (λ _ _, true) (λ _ _, (0, 0)) (λ _ _ _, 0) (λ _, 0) false (λ _, false).

Definition env_prepare_fails : environment :=
  mk_env (λ _ _, true) (λ _ _, (0, 0)) (λ _ _ _, - ENOMEM) (λ _, 0) false
         (λ _, false).

Definition req_create1 : kvm_userspace_memory_region :=
  mk_region 1 KVM_MEM_LOG_DIRTY_PAGES 0x10000 0x3000 0x40000000.
Definition req_delete1 : kvm_userspace_memory_region :=
  mk_region 1 0 0x10000 0 0x40000000.
Definition req_create0 : kvm_userspace_memory_region :=
  mk_region 0 0 0x11000 0x1000 0x50000000.
Definition req_resize1 : kvm_userspace_memory_region :=
  mk_region 1 KVM_MEM_LOG_DIRTY_PAGES 0x10000 0x4000 0x40000000.
Definition req_move1 : kvm_userspace_memory_region :=
  mk_region 1 KVM_MEM_LOG_DIRTY_PAGES 0x20000 0x3000 0x40000000.

Definition vm1 : kvm :=
  (@__kvm_set_memory_region arm_platform env_ok (@kvm_create_vm arm_platform)
     req_create1).1.2.

Definition vm1_failed_delete : kvm :=
  (@__kvm_set_memory_region arm_platform env_prepare_fails vm1 req_delete1).1.2.

Definition req_readonly : kvm_userspace_memory_region :=
  mk_region 0 KVM_MEM_READONLY 0x10000 0x2000 0x7f0000000000.

Definition vm_readonly : kvm :=
  (@__kvm_set_memory_region lp64_platform env_ok (@kvm_create_vm lp64_platform)
     req_readonly).1.2.

(** A host in which every page can be pinned and every copy succeeds. *)
Definition host_ok : host_mm :=
  mk_host (λ _, (1, 42)) (λ _ _, (1, 42)) (λ _ _, (1, 42)) (λ _, false)
          (λ _ _, None) (λ _, false) (λ _ _, 0).

(** A handle stamped with generation 0, for 8 bytes in frame 16. *)
Definition ghc_stale : gfn_to_hva_cache := mk_ghc 0 0x10008 0 8 None.

(** Three devices on the MMIO bus, the range of the first containing the
    ranges of the other two; only the first device handles accesses. *)
Definition vm_nested_bus : kvm :=
  let k0 := @kvm_create_vm arm_platform in
  let k1 := (@kvm_io_bus_register_dev arm_platform false k0 KVM_MMIO_BUS 0 100 1).2 in
  let k2 := (@kvm_io_bus_register_dev arm_platform false k1 KVM_MMIO_BUS 10 2 2).2 in
  (@kvm_io_bus_register_dev arm_platform false k2 KVM_MMIO_BUS 20 10 3).2.

Definition devs_first_only : io_devices :=
  mk_devs (λ d _ _, if d =? 1 then 0 else - EOPNOTSUPP)
          (λ d _ _, if d =? 1 then 0 else - EOPNOTSUPP).

(** Two devices on overlapping ranges, [0x1000, 0x1010) and
    [0x1008, 0x1018); no device handles anything. *)
Definition vm_layered_bus : kvm :=
  let k0 := @kvm_create_vm arm_platform in
  let k1 := (@kvm_io_bus_register_dev arm_platform false k0 KVM_MMIO_BUS
               0x1000 0x10 1).2 in
  (@kvm_io_bus_register_dev arm_platform false k1 KVM_MMIO_BUS 0x1008 0x10 2).2.

Definition devs_decline : io_devices :=
  mk_devs (λ _ _ _, - EOPNOTSUPP) (λ _ _ _, - EOPNOTSUPP).

(** A host in which no page is resident: the pins that must not wait fail,
    and the address lies in an ordinary readable and writable mapping. *)
Definition host_not_resident : host_mm :=
  mk_host (λ _, (0, 0)) (λ _ _, (1, 42)) (λ _ _, (0, 0)) (λ _, false)
          (λ _ _, Some (mk_vma 0 0 (Z.lor VM_READ VM_WRITE))) (λ _, false)
          (λ _ _, 0).

(** * Properties *)

(** ** Machine integers *)
Section Arith.
Context `{Platform}.

Lemma wrap_small w x : 0 ≤ x < 2 ^ w → wrap w x = x.
Proof. intros Hx. unfold wrap. by apply Z.mod_small. Qed.

Lemma wrap_range w x : 0 ≤ w → 0 ≤ wrap w x < 2 ^ w.
Proof. intros Hw. unfold wrap. apply Z.mod_pos_bound. by apply Z.pow_pos_nonneg. Qed.

Lemma ulong_small x : 0 ≤ x < 2 ^ BITS_PER_LONG → ulong x = x.
Proof. apply wrap_small. Qed.

Lemma ulong_range x : 0 ≤ ulong x < 2 ^ BITS_PER_LONG.
Proof. apply wrap_range. pose proof BITS_PER_LONG_range. lia. Qed.

Lemma u64_small x : 0 ≤ x < 2 ^ 64 → u64 x = x.
Proof. apply wrap_small. Qed.

Lemma long_le_64 : 2 ^ BITS_PER_LONG ≤ 2 ^ 64.
Proof. pose proof BITS_PER_LONG_range. apply Z.pow_le_mono_r; lia. Qed.

Lemma PAGE_SIZE_eq : PAGE_SIZE = 2 ^ PAGE_SHIFT.
Proof.
  unfold PAGE_SIZE. pose proof PAGE_SHIFT_range.
  rewrite Z.shiftl_1_l. done.
Qed.

Lemma PAGE_SIZE_range : 0 < PAGE_SIZE < 2 ^ BITS_PER_LONG.
Proof.
  rewrite PAGE_SIZE_eq. pose proof PAGE_SHIFT_range. split.
  - apply Z.pow_pos_nonneg; lia.
  - apply Z.pow_lt_mono_r; lia.
Qed.

Lemma nonzero_true x : nonzero x = true ↔ x ≠ 0.
Proof. unfold nonzero. destruct (Z.eqb_spec x 0); naive_solver. Qed.

Lemma nonzero_false x : nonzero x = false ↔ x = 0.
Proof. unfold nonzero. destruct (Z.eqb_spec x 0); naive_solver. Qed.

Lemma KVM_HVA_ERR_RO_BAD_eq : KVM_HVA_ERR_RO_BAD = PAGE_OFFSET + PAGE_SIZE.
Proof.
  unfold KVM_HVA_ERR_RO_BAD. apply ulong_small.
  pose proof PAGE_SIZE_range. pose proof PAGE_OFFSET_range.
  rewrite PAGE_SIZE_eq in *. lia.
Qed.

(** The two error addresses are different addresses. *)
Lemma KVM_HVA_ERR_distinct : KVM_HVA_ERR_RO_BAD ≠ KVM_HVA_ERR_BAD.
Proof.
  rewrite KVM_HVA_ERR_RO_BAD_eq. unfold KVM_HVA_ERR_BAD.
  pose proof PAGE_SIZE_range. lia.
Qed.

Lemma KVM_HVA_ERR_RO_BAD_is_error : kvm_is_error_hva KVM_HVA_ERR_RO_BAD = true.
Proof.
  rewrite KVM_HVA_ERR_RO_BAD_eq. unfold kvm_is_error_hva.
  pose proof PAGE_SIZE_range. apply Z.leb_le. lia.
Qed.

End Arith.

(** ** The invalidation handshake *)
Section MmuNotifierFacts.
Context `{Platform}.

(** C2.  On range-invalidate-end the sequence counter is incremented first
    and the active count decremented after it, with the write barrier in
    between: the stores are issued in that order, and no prefix of them shows
    the new count without the new sequence number and the barrier.  A count
    that is negative after the decrement stops the kernel (BUG_ON); the
    function has no error to return. *)
Theorem invalidate_range_end_seq_then_count (k : kvm) (start end_ : Z) :
  let s := ulong (mmu_notifier_seq k + 1) in
  let c := slong (mmu_notifier_count k - 1) in
  let '(tr, out) := kvm_mmu_notifier_invalidate_range_end k start end_ in
  tr = [EvSpinLock; EvStoreSeq s; EvWmb; EvStoreCount c; EvSpinUnlock]
  ∧ (∀ n : nat,
       EvStoreCount c ∈ take n tr →
       mmu_notifier_seq (replay k (take n tr)) = s ∧ EvWmb ∈ take n tr)
  ∧ (∀ n : nat,
       EvStoreCount c ∉ take n tr →
       mmu_notifier_count (replay k (take n tr)) = mmu_notifier_count k)
  ∧ out = (if c <? 0 then Bug
           else Done (set_mmu_notifier_count (set_mmu_notifier_seq k s) c)).
Proof.
  cbn zeta. unfold kvm_mmu_notifier_invalidate_range_end. cbn.
  split; [done|]. split; [|split; [|done]].
  - intros n Hn.
    do 4 (destruct n as [|n];
          [cbn in Hn; repeat (apply elem_of_cons in Hn as [Hn|Hn]; [done|]);
           by apply elem_of_nil in Hn|]).
    destruct n as [|n]; cbn; rewrite ?take_nil; cbn;
      (split; [done|]); do 2 apply list_elem_of_further; apply list_elem_of_here.
  - intros n Hn.
    do 4 (destruct n as [|n]; [done|]).
    exfalso. apply Hn. cbn. do 3 apply list_elem_of_further. apply list_elem_of_here.
Qed.

(** The begin side raises the count under the same lock. *)
Lemma invalidate_range_start_count (unmapped tlbs_dirty : Z) (k : kvm)
    (start end_ : Z) :
  mmu_notifier_count
    (kvm_mmu_notifier_invalidate_range_start unmapped tlbs_dirty k start end_).1
  = slong (mmu_notifier_count k + 1).
Proof. done. Qed.

End MmuNotifierFacts.

(** ** Frame translation *)
Section TranslationFacts.
Context `{Platform}.

(** C7.  The fast path returns a pinned frame only when the caller asked
    for atomic or asynchronous behaviour and, besides, the access is a write
    fault or the caller passed a [writable] out-parameter; then it pinned
    exactly one page for writing and a [writable] that was passed reads
    true.  When the condition does not hold, it reports failure without
    calling the pinning routine; a failure leaves [*writable] and [*pfn] as
    they were. *)
Theorem hva_to_pfn_fast_gate (m : host_mm) (hva : Z) (atomic : bool)
    (async : option bool) (write_fault : bool) (writable : option bool)
    (pfn : Z) (ok : bool) (writable' : option bool) (pfn' : Z)
    (tr : list event) :
  hva_to_pfn_fast m hva atomic async write_fault writable pfn
    = (ok, writable', pfn', tr) →
  (ok = true →
     (atomic = true ∨ async ≠ None) ∧ (write_fault = true ∨ writable ≠ None)
     ∧ __get_user_pages_fast m hva = (1, pfn')
     ∧ tr = [EvGetUserPagesFastAtomic hva]
     ∧ writable' = (λ _, true) <$> writable)
  ∧ (¬ ((atomic = true ∨ async ≠ None) ∧ (write_fault = true ∨ writable ≠ None)) →
     ok = false ∧ tr = [])
  ∧ (ok = false → writable' = writable ∧ pfn' = pfn).
Proof.
  unfold hva_to_pfn_fast. intros Hrun.
  destruct atomic, async as [a|], write_fault, writable as [w|]; cbn in Hrun;
    try (destruct (__get_user_pages_fast m hva) as [n page] eqn:Hgup;
         destruct (Z.eqb_spec n 1)); simplify_eq; cbn;
    repeat split; try done; try naive_solver.
Qed.

(** C8.  A write-intent translation of a frame that resolves to a read-only
    slot yields KVM_PFN_ERR_RO_FAULT; a frame in no slot, or in a slot marked
    invalid, yields KVM_PFN_NOSLOT whatever the intent; the two values differ
    (and so do the two error addresses behind them); neither case calls a
    pinning routine or touches [*writable]. *)
Theorem readonly_write_fault_distinct_from_noslot (m : host_mm) (k : kvm)
    (gfn : Z) (atomic : bool) (async : option bool) (writable : option bool) :
  let async0 := (λ _, false) <$> async in
  (∀ s, gfn_to_memslot k gfn = Some s →
        Z.land (flags s) KVM_MEMSLOT_INVALID = 0 →
        Z.land (flags s) KVM_MEM_READONLY ≠ 0 →
        __gfn_to_pfn m k gfn atomic async true writable
          = Done (KVM_PFN_ERR_RO_FAULT, async0, writable, []))
  ∧ (∀ write_fault,
        (gfn_to_memslot k gfn = None
         ∨ ∃ s, gfn_to_memslot k gfn = Some s
                ∧ Z.land (flags s) KVM_MEMSLOT_INVALID ≠ 0) →
        __gfn_to_pfn m k gfn atomic async write_fault writable
          = Done (KVM_PFN_NOSLOT, async0, writable, []))
  ∧ KVM_PFN_ERR_RO_FAULT ≠ KVM_PFN_NOSLOT
  ∧ KVM_HVA_ERR_RO_BAD ≠ KVM_HVA_ERR_BAD.
Proof.
  cbn zeta. repeat split; [| |done|apply KVM_HVA_ERR_distinct].
  - intros s Hs Hinv Hro.
    unfold __gfn_to_pfn, __gfn_to_pfn_memslot, __gfn_to_hva_many.
    rewrite Hs. unfold memslot_is_readonly.
    rewrite (proj2 (nonzero_false _) Hinv), (proj2 (nonzero_true _) Hro). cbn.
    rewrite Z.eqb_refl. by destruct async.
  - intros write_fault Hslot.
    assert ((__gfn_to_hva_many (gfn_to_memslot k gfn) gfn None write_fault).1
            = KVM_HVA_ERR_BAD) as Hbad.
    { unfold __gfn_to_hva_many. destruct Hslot as [->|(s & -> & Hinv)]; [done|].
      by rewrite (proj2 (nonzero_true _) Hinv). }
    unfold __gfn_to_pfn, __gfn_to_pfn_memslot. rewrite Hbad.
    pose proof KVM_HVA_ERR_distinct as Hne.
    destruct (Z.eqb_spec KVM_HVA_ERR_BAD KVM_HVA_ERR_RO_BAD); [congruence|].
    unfold kvm_is_error_hva, KVM_HVA_ERR_BAD. rewrite Z.leb_refl.
    by destruct async.
Qed.

End TranslationFacts.

(** ** Set-region requests *)

Section SetRegionFacts.
Context `{Platform}.

Lemma sanity_checks_ok e mem :
  sanity_checks e mem = 0 →
  Z.land (mem_memory_size mem) (PAGE_SIZE - 1) = 0
  ∧ Z.land (mem_guest_phys_addr mem) (PAGE_SIZE - 1) = 0
  ∧ mem_slot mem < KVM_MEM_SLOTS_NUM
  ∧ mem_guest_phys_addr mem ≤ u64 (mem_guest_phys_addr mem + mem_memory_size mem)
  ∧ req_npages mem ≤ KVM_MEM_MAX_NR_PAGES.
Proof.
  unfold sanity_checks, check_memory_region_flags, req_npages, EINVAL.
  intros Hz.
  repeat case_match; try discriminate Hz; try (cbn in *; congruence);
    repeat match goal with
           | Hc : nonzero _ = false |- _ => apply nonzero_false in Hc
           end;
    repeat split; try done; lia.
Qed.

Lemma req_range e mem :
  region_typed mem → sanity_checks e mem = 0 →
  0 ≤ req_base_gfn mem ∧ 0 ≤ req_npages mem
  ∧ req_base_gfn mem + req_npages mem < 2 ^ 64.
Proof.
  intros [Hg Hs] Hok. apply sanity_checks_ok in Hok as (_ & _ & _ & Hwrap & _).
  pose proof PAGE_SHIFT_range as HPS.
  assert (0 < 2 ^ PAGE_SHIFT) as Hpos by (apply Z.pow_pos_nonneg; lia).
  assert (mem_guest_phys_addr mem + mem_memory_size mem < 2 ^ 64) as Hsum.
  { destruct (decide (mem_guest_phys_addr mem + mem_memory_size mem < 2 ^ 64));
      [done|].
    exfalso. revert Hwrap. unfold u64, wrap.
    replace (mem_guest_phys_addr mem + mem_memory_size mem)
      with ((mem_guest_phys_addr mem + mem_memory_size mem - 2 ^ 64) + 1 * 2 ^ 64)
      by lia.
    rewrite Z.mod_add by lia. rewrite Z.mod_small; lia. }
  unfold req_base_gfn, req_npages. rewrite !Z.shiftr_div_pow2 by lia.
  assert (0 ≤ mem_guest_phys_addr mem / 2 ^ PAGE_SHIFT ≤ mem_guest_phys_addr mem).
  { split; [apply Z.div_pos; lia|]. apply Z.div_le_upper_bound; nia. }
  assert (0 ≤ mem_memory_size mem / 2 ^ PAGE_SHIFT ≤ mem_memory_size mem).
  { split; [apply Z.div_pos; lia|]. apply Z.div_le_upper_bound; nia. }
  pose proof (ulong_range (mem_memory_size mem / 2 ^ PAGE_SHIFT)).
  assert (ulong (mem_memory_size mem / 2 ^ PAGE_SHIFT)
          ≤ mem_memory_size mem / 2 ^ PAGE_SHIFT).
  { unfold ulong, wrap. apply Z.mod_le; [lia|].
    pose proof BITS_PER_LONG_range. apply Z.pow_pos_nonneg; lia. }
  lia.
Qed.

(** The function, once the sanity checks are passed. *)
Lemma set_region_after_sanity e k mem :
  sanity_checks e mem = 0 →
  __kvm_set_memory_region e k mem =
    let old := id_to_memslot (kvm_memslots_of k) (mem_slot mem) in
    let mem' := set_mem_flags mem (req_flags mem) in
    let new := set_flags (set_npages (set_base_gfn (set_id old (mem_slot mem))
                                        (req_base_gfn mem)) (req_npages mem))
                         (req_flags mem) in
    match classify mem' old new (req_base_gfn mem) (req_npages mem) with
    | Disallowed => (- EINVAL, k, [])
    | NothingToChange => (0, k, [])
    | Change change =>
        if bool_decide (change = KVM_MR_CREATE ∨ change = KVM_MR_MOVE)
           && region_in_use (kvm_memslots_of k) mem' (req_base_gfn mem)
                            (req_npages mem)
        then (- EEXIST, k, [])
        else prepare_new_slot e k mem' old new (req_npages mem) change
    end.
Proof.
  intros Hok. unfold __kvm_set_memory_region. rewrite Hok. cbn [nonzero Z.eqb negb].
  unfold req_flags, req_base_gfn, req_npages.
  destruct (ulong (Z.shiftr (mem_memory_size mem) PAGE_SHIFT) =? 0) eqn:Hz;
    cbn zeta; [done|].
  by destruct mem.
Qed.


End SetRegionFacts.

Section SetRegionTrace.
Context `{Platform}.

Ltac open_set_region :=
  unfold publish_region, prepare_new_slot, out_slots, out_free,
    install_new_memslots, kvm_free_physmem_slot, kvm_destroy_dirty_bitmap,
    kvm_create_dirty_bitmap in *.

Ltac nonzero_absurd :=
  match goal with
  | Hnz : nonzero ?r = true, Hr : ?r = 0 |- _ =>
      rewrite Hr in Hnz; discriminate Hnz
  | Hr : - ENOMEM = 0 |- _ => discriminate Hr
  end.

Lemma publish_region_trace e k mem old new c tr0 r k' tr :
  publish_region e k mem old new c tr0 = (r, k', tr) →
  Forall (change_seen c) tr0 →
  Forall (change_seen c) tr ∧ (r = 0 → EvArchCommit old c ∈ tr).
Proof.
  intros Hrun Htr0. open_set_region.
  repeat case_match; simplify_eq;
    (split;
     [ rewrite ?Forall_app; repeat split; try done; repeat constructor
     | intros Hr0; try nonzero_absurd;
       rewrite ?elem_of_app, ?elem_of_cons; auto 10 ]).
Qed.

Lemma prepare_new_slot_trace e k mem old new np c r k' tr :
  prepare_new_slot e k mem old new np c = (r, k', tr) →
  Forall (change_seen c) tr ∧ (r = 0 → EvArchCommit old c ∈ tr).
Proof.
  intros Hrun. unfold prepare_new_slot in Hrun.
  repeat case_match; simplify_eq;
    try (eapply publish_region_trace; [eassumption|];
         unfold kvm_create_dirty_bitmap in *; repeat case_match; simplify_eq;
         repeat constructor);
    unfold out_free, kvm_free_physmem_slot, kvm_destroy_dirty_bitmap in *;
    repeat case_match; simplify_eq;
    (split; [repeat constructor | intros Hr0; discriminate Hr0]).
Qed.

Lemma publish_region_calls e k mem old new c tr0 :
  (publish_region e k mem old new c tr0).2 ≠ [].
Proof.
  unfold publish_region, out_slots, out_free, install_new_memslots,
    kvm_free_physmem_slot, kvm_destroy_dirty_bitmap.
  repeat case_match; simplify_eq; cbn [snd];
    intros Heq; apply (f_equal length) in Heq;
    rewrite ?length_app in Heq; cbn in Heq; lia.
Qed.

Lemma prepare_new_slot_calls e k mem old new np c :
  (prepare_new_slot e k mem old new np c).2 ≠ [].
Proof.
  unfold prepare_new_slot.
  repeat case_match; simplify_eq; try apply publish_region_calls;
    unfold out_free, kvm_free_physmem_slot, kvm_destroy_dirty_bitmap;
    repeat case_match; simplify_eq; cbn [snd];
    intros Heq; apply (f_equal length) in Heq;
    rewrite ?length_app in Heq; cbn in Heq; lia.
Qed.

Lemma carried_out_as_seen c e k mem :
  carried_out_as c e k mem ≠ (- EINVAL, k, [])
  ∧ carried_out_as c e k mem ≠ (0, k, []).
Proof.
  unfold carried_out_as. cbn zeta.
  destruct (bool_decide _ && region_in_use _ _ _ _).
  - split; intros [=].
  - split; intros Heq;
      by eapply prepare_new_slot_calls; rewrite Heq.
Qed.

Lemma publish_region_published e k mem old new c tr0 :
  published tr0 = [] →
  publishes_from (generation (kvm_memslots_of k))
    (published (publish_region e k mem old new c tr0).2)
    (generation (kvm_memslots_of (publish_region e k mem old new c tr0).1.2)).
Proof.
  intros Htr0. unfold publishes_from. open_set_region.
  repeat case_match; simplify_eq; cbn [fst snd];
    unfold published in *; rewrite ?omap_app, ?Htr0; cbn; auto.
Qed.

Lemma prepare_new_slot_published e k mem old new np c :
  publishes_from (generation (kvm_memslots_of k))
    (published (prepare_new_slot e k mem old new np c).2)
    (generation (kvm_memslots_of (prepare_new_slot e k mem old new np c).1.2)).
Proof.
  unfold prepare_new_slot.
  repeat case_match; simplify_eq;
    try (by apply (publish_region_published e));
    try (unfold kvm_create_dirty_bitmap in *; repeat case_match; simplify_eq;
         by apply (publish_region_published e (set_kmem k _)));
    unfold out_free, kvm_free_physmem_slot, kvm_destroy_dirty_bitmap;
    repeat case_match; simplify_eq; left; by cbn.
Qed.

Lemma set_region_published e k mem :
  publishes_from (generation (kvm_memslots_of k))
    (published (__kvm_set_memory_region e k mem).2)
    (generation (kvm_memslots_of (__kvm_set_memory_region e k mem).1.2)).
Proof.
  unfold __kvm_set_memory_region. cbn zeta.
  repeat case_match; try (by left); apply prepare_new_slot_published.
Qed.

Lemma set_region_classified e k mem c :
  sanity_checks e mem = 0 →
  let old := id_to_memslot (kvm_memslots_of k) (mem_slot mem) in
  let mem' := set_mem_flags mem (req_flags mem) in
  let new := set_flags (set_npages (set_base_gfn (set_id old (mem_slot mem))
                                      (req_base_gfn mem)) (req_npages mem))
                       (req_flags mem) in
  classify mem' old new (req_base_gfn mem) (req_npages mem) = Change c →
  classified_as c old (__kvm_set_memory_region e k mem).
Proof.
  intros Hok old mem' new Hc.
  rewrite set_region_after_sanity by done. cbn zeta.
  fold old mem' new. rewrite Hc. unfold classified_as.
  case_match.
  - cbn. split; [constructor|]. intros Hr; discriminate Hr.
  - destruct (prepare_new_slot e k mem' old new (req_npages mem) c)
      as [[r k'] tr] eqn:Hrun.
    by apply prepare_new_slot_trace in Hrun.
Qed.

Lemma set_region_carried_out e k mem c :
  sanity_checks e mem = 0 →
  let old := id_to_memslot (kvm_memslots_of k) (mem_slot mem) in
  let mem' := set_mem_flags mem (req_flags mem) in
  let new := set_flags (set_npages (set_base_gfn (set_id old (mem_slot mem))
                                      (req_base_gfn mem)) (req_npages mem))
                       (req_flags mem) in
  classify mem' old new (req_base_gfn mem) (req_npages mem) = Change c →
  __kvm_set_memory_region e k mem = carried_out_as c e k mem.
Proof.
  intros Hok old mem' new Hc.
  rewrite set_region_after_sanity by done. cbn zeta.
  fold old mem' new. by rewrite Hc.
Qed.

Lemma classify_cases m old new b n :
  let dis := mem_userspace_addr m ≠ userspace_addr old
             ∨ n ≠ npages old
             ∨ Z.land (Z.lxor (flags new) (flags old)) KVM_MEM_READONLY ≠ 0 in
  (n ≠ 0 → npages old = 0 → classify m old new b n = Change KVM_MR_CREATE)
  ∧ (n ≠ 0 → npages old ≠ 0 → dis → classify m old new b n = Disallowed)
  ∧ (n ≠ 0 → npages old ≠ 0 → ¬ dis → b ≠ base_gfn old →
     classify m old new b n = Change KVM_MR_MOVE)
  ∧ (n ≠ 0 → npages old ≠ 0 → ¬ dis → b = base_gfn old →
     flags new ≠ flags old → classify m old new b n = Change KVM_MR_FLAGS_ONLY)
  ∧ (n ≠ 0 → npages old ≠ 0 → ¬ dis → b = base_gfn old →
     flags new = flags old → classify m old new b n = NothingToChange)
  ∧ (n = 0 → npages old ≠ 0 → classify m old new b n = Change KVM_MR_DELETE)
  ∧ (n = 0 → npages old = 0 → classify m old new b n = Disallowed).
Proof.
  cbn zeta. unfold classify.
  destruct (nonzero n) eqn:Hn;
    [apply nonzero_true in Hn|apply nonzero_false in Hn];
  (destruct (nonzero (npages old)) eqn:Ho;
    [apply nonzero_true in Ho|apply nonzero_false in Ho]);
  destruct (Z.eqb_spec (mem_userspace_addr m) (userspace_addr old));
  destruct (Z.eqb_spec n (npages old));
  destruct (Z.eqb_spec b (base_gfn old));
  destruct (Z.eqb_spec (flags new) (flags old));
  (destruct (nonzero (Z.land (Z.lxor (flags new) (flags old)) KVM_MEM_READONLY))
     eqn:Hro; [apply nonzero_true in Hro|apply nonzero_false in Hro]);
  cbn; refine (conj _ (conj _ (conj _ (conj _ (conj _ (conj _ _))))));
  intros; try done; exfalso; tauto.
Qed.

(** C4 (as amended).  A request that passes the sanity checks is compared
    with the slot [old] of its id.  With a nonzero size: CREATE when [old]
    has no pages; otherwise the request is rejected with -EINVAL when it
    changes the host-virtual base, or the page count, or the read-only flag
    (any one of them is enough); otherwise MOVE when the base frame
    changes, FLAGS_ONLY when only the flags change, and a successful no-op
    when nothing changes.  With size zero: DELETE when [old] has pages,
    -EINVAL when it has none.  A request of class [c] is carried out as
    lines 821-929 do with [change = c]: the architecture hooks are called
    with [c], and the request is neither the rejection with -EINVAL nor the
    no-op, which both return without a call. *)
Theorem set_region_classification (e : environment) (k : kvm)
    (mem : kvm_userspace_memory_region) :
  sanity_checks e mem = 0 →
  let old := id_to_memslot (kvm_memslots_of k) (mem_slot mem) in
  let res := __kvm_set_memory_region e k mem in
  let modifies_disallowed :=
    mem_userspace_addr mem ≠ userspace_addr old
    ∨ req_npages mem ≠ npages old
    ∨ Z.land (Z.lxor (req_flags mem) (flags old)) KVM_MEM_READONLY ≠ 0 in
  let classified c :=
    res = carried_out_as c e k mem
    ∧ classified_as c old res
    ∧ res ≠ (- EINVAL, k, []) ∧ res ≠ (0, k, []) in
  (req_npages mem ≠ 0 → npages old = 0 → classified KVM_MR_CREATE)
  ∧ (req_npages mem ≠ 0 → npages old ≠ 0 → modifies_disallowed →
     res = (- EINVAL, k, []))
  ∧ (req_npages mem ≠ 0 → npages old ≠ 0 → ¬ modifies_disallowed →
     req_base_gfn mem ≠ base_gfn old → classified KVM_MR_MOVE)
  ∧ (req_npages mem ≠ 0 → npages old ≠ 0 → ¬ modifies_disallowed →
     req_base_gfn mem = base_gfn old → req_flags mem ≠ flags old →
     classified KVM_MR_FLAGS_ONLY)
  ∧ (req_npages mem ≠ 0 → npages old ≠ 0 → ¬ modifies_disallowed →
     req_base_gfn mem = base_gfn old → req_flags mem = flags old →
     res = (0, k, []))
  ∧ (req_npages mem = 0 → npages old ≠ 0 → classified KVM_MR_DELETE)
  ∧ (req_npages mem = 0 → npages old = 0 → res = (- EINVAL, k, [])).
Proof.
  intros Hok old res dis classified.
  pose proof (classify_cases (set_mem_flags mem (req_flags mem)) old
                (set_flags (set_npages (set_base_gfn (set_id old (mem_slot mem))
                               (req_base_gfn mem)) (req_npages mem))
                           (req_flags mem))
                (req_base_gfn mem) (req_npages mem))
    as (Hcreate & Hdis & Hmove & Hflags & Hsame & Hdelete & Hnone).
  cbn [set_mem_flags set_flags mem_userspace_addr flags] in *.
  assert (∀ c, classify (set_mem_flags mem (req_flags mem)) old
                 (set_flags (set_npages (set_base_gfn (set_id old (mem_slot mem))
                                (req_base_gfn mem)) (req_npages mem))
                            (req_flags mem))
                 (req_base_gfn mem) (req_npages mem) = Change c →
               classified c) as Hcls.
  { intros c Hc. subst classified. cbn beta.
    assert (res = carried_out_as c e k mem) as Hres
      by (by apply set_region_carried_out).
    split; [done|]. split; [by apply set_region_classified|].
    rewrite Hres. apply carried_out_as_seen. }
  assert (res = __kvm_set_memory_region e k mem) as Hres by done.
  rewrite set_region_after_sanity in Hres by done. cbn zeta in Hres.
  fold old in Hres. subst dis.
  refine (conj _ (conj _ (conj _ (conj _ (conj _ (conj _ _)))))); intros.
  - apply Hcls. auto.
  - rewrite Hres, Hdis; auto.
  - apply Hcls. auto.
  - apply Hcls. auto.
  - rewrite Hres, Hsame; auto.
  - apply Hcls. auto.
  - rewrite Hres, Hnone; auto.
Qed.

Lemma free_new_restores h0 h new old :
  new_bitmap_ok h0 h new old →
  (kvm_free_physmem_slot h new (Some old)).1 = h0.
Proof.
  unfold kvm_free_physmem_slot, kvm_destroy_dirty_bitmap.
  intros [[-> [Heq|Hnone]]|(p & v & Hfresh & -> & Hnew & Hold)].
  - rewrite Heq. by case_decide.
  - rewrite Hnone. by case_decide.
  - rewrite Hnew. case_decide; [|congruence]. cbn. by apply delete_insert_id.
Qed.

Lemma out_free_restores k h0 new old r tr :
  new_bitmap_ok h0 (kmem k) new old →
  (out_free k new old r tr).1 = (r, set_kmem k h0).
Proof.
  intros Hok. unfold out_free.
  pose proof (free_new_restores _ _ _ _ Hok) as Hfree.
  destruct (kvm_free_physmem_slot (kmem k) new (Some old)) as [h ev].
  cbn in *. by subst.
Qed.

Lemma publish_region_failure e k mem old new c tr0 h0 r k' tr :
  publish_region e k mem old new c tr0 = (r, k', tr) →
  r ≠ 0 →
  new_bitmap_ok h0 (kmem k) new old →
  (k' = set_kmem k h0 ∧ Forall (λ ev, ¬ is_publish ev) (drop (length tr0) tr))
  ∨ ((c = KVM_MR_DELETE ∨ c = KVM_MR_MOVE)
     ∧ k' = set_kmem (set_memslots k (invalidated (kvm_memslots_of k) (mem_slot mem)))
                     h0
     ∧ Exists is_publish tr).
Proof.
  intros Hrun Hr Hok. unfold publish_region in Hrun.
  destruct (bool_decide (c = KVM_MR_DELETE ∨ c = KVM_MR_MOVE)) eqn:Hdm.
  - apply bool_decide_eq_true in Hdm.
    destruct (kmemdup_fails e 0%nat).
    + left. pose proof (out_free_restores k h0 new old (- ENOMEM) tr0 Hok) as Hf.
      rewrite Hrun in Hf. cbn in Hf. simplify_eq. split; [done|].
      unfold out_free in Hrun. repeat case_match. simplify_eq.
      rewrite drop_app_length.
      unfold kvm_free_physmem_slot, kvm_destroy_dirty_bitmap in *.
      repeat case_match; simplify_eq; repeat constructor; cbn; tauto.
    + right. split; [done|].
      unfold install_new_memslots, update_memslots in Hrun. cbn zeta in Hrun.
      set (k1 := set_memslots k _) in Hrun.
      assert (new_bitmap_ok h0 (kmem k1) new old) as Hok1 by done.
      assert (k1 = set_memslots k (invalidated (kvm_memslots_of k) (mem_slot mem)))
        as Hk1 by done.
      destruct (nonzero (kvm_arch_prepare_memory_region e new mem c)) eqn:Hp.
      * unfold out_slots in Hrun.
        match type of Hrun with
        | out_free _ _ _ ?r0 ?tr1 = _ =>
            pose proof (out_free_restores k1 h0 new old r0 tr1 Hok1) as Hf;
            rewrite Hrun in Hf; cbn in Hf; simplify_eq
        end.
        split; [done|].
        unfold out_free in Hrun. repeat case_match. simplify_eq.
        cbn. repeat (rewrite Exists_app || rewrite Exists_cons). cbn. tauto.
      * destruct (nonzero (if bool_decide (c = KVM_MR_CREATE ∨ c = KVM_MR_MOVE)
                           then kvm_iommu_map_pages e new else 0)) eqn:Hi.
        -- case_bool_decide as Hcm; cbn in Hi, Hrun; try discriminate Hi;
             rewrite ?Hi in Hrun;
             unfold out_slots in Hrun;
             match type of Hrun with
             | out_free _ _ _ ?r0 ?tr1 = _ =>
                 pose proof (out_free_restores k1 h0 new old r0 tr1 Hok1) as Hf;
                 rewrite Hrun in Hf; cbn in Hf; simplify_eq
             end;
             (split; [done|]);
             unfold out_free in Hrun; repeat case_match; simplify_eq;
             cbn; repeat (rewrite Exists_app || rewrite Exists_cons); cbn; tauto.
        -- exfalso. case_bool_decide as Hcm; cbn in Hi, Hrun; try discriminate Hi;
             rewrite ?Hi in Hrun;
             repeat case_match; simplify_eq.
  - left. cbn zeta in Hrun.
    destruct (nonzero (kvm_arch_prepare_memory_region e new mem c)) eqn:Hp.
    + unfold out_slots in Hrun.
      match type of Hrun with
      | out_free _ _ _ ?r0 ?tr1 = _ =>
          pose proof (out_free_restores k h0 new old r0 tr1 Hok) as Hf;
          rewrite Hrun in Hf; cbn in Hf; simplify_eq
      end.
      split; [done|].
      unfold out_free in Hrun. repeat case_match. simplify_eq.
      rewrite <- !app_assoc, drop_app_length.
      unfold kvm_free_physmem_slot, kvm_destroy_dirty_bitmap in *.
      repeat case_match; simplify_eq; repeat constructor; cbn; tauto.
    + destruct (kmemdup_fails e 1%nat).
      * pose proof (out_free_restores k h0 new old (- ENOMEM)
                      (tr0 ++ [EvArchPrepare new c]) Hok) as Hf.
        rewrite Hrun in Hf. cbn in Hf. simplify_eq. split; [done|].
        unfold out_free in Hrun. repeat case_match. simplify_eq.
        rewrite <- !app_assoc, drop_app_length.
        unfold kvm_free_physmem_slot, kvm_destroy_dirty_bitmap in *.
        repeat case_match; simplify_eq; repeat constructor; cbn; tauto.
      * destruct (nonzero (if bool_decide (c = KVM_MR_CREATE ∨ c = KVM_MR_MOVE)
                           then kvm_iommu_map_pages e new else 0)) eqn:Hi.
        -- case_bool_decide as Hcm; cbn in Hi, Hrun; try discriminate Hi;
             rewrite ?Hi in Hrun;
             unfold out_slots in Hrun;
             match type of Hrun with
             | out_free _ _ _ ?r0 ?tr1 = _ =>
                 pose proof (out_free_restores k h0 new old r0 tr1 Hok) as Hf;
                 rewrite Hrun in Hf; cbn in Hf; simplify_eq
             end;
             (split; [done|]);
             unfold out_free in Hrun; repeat case_match; simplify_eq;
             rewrite <- !app_assoc, drop_app_length;
             unfold kvm_free_physmem_slot, kvm_destroy_dirty_bitmap in *;
             repeat case_match; simplify_eq; repeat constructor; cbn; tauto.
        -- exfalso. case_bool_decide as Hcm; cbn in Hi, Hrun; try discriminate Hi;
             rewrite ?Hi in Hrun;
             repeat case_match; simplify_eq.
Qed.

Lemma publish_region_extends e k mem old new c tr0 r k' tr :
  publish_region e k mem old new c tr0 = (r, k', tr) →
  ∃ rest, tr = tr0 ++ rest.
Proof.
  intros Hrun. open_set_region.
  repeat case_match; simplify_eq; rewrite <- ?app_assoc; eauto.
Qed.

Lemma out_free_memslots k new old r tr r' k' tr' :
  out_free k new old r tr = (r', k', tr') →
  kvm_memslots_of k' = kvm_memslots_of k.
Proof.
  unfold out_free. destruct (kvm_free_physmem_slot _ _ _). by intros [= _ <- _].
Qed.

Lemma set_kmem_same k : set_kmem k (kmem k) = k.
Proof. by destruct k. Qed.

Lemma prepare_new_slot_failure e k mem old new0 np c r k' tr :
  prepare_new_slot e k mem old new0 np c = (r, k', tr) →
  r ≠ 0 →
  dirty_bitmap new0 = dirty_bitmap old →
  (k' = k ∧ Forall (λ ev, ¬ is_publish ev) tr)
  ∨ ((c = KVM_MR_DELETE ∨ c = KVM_MR_MOVE)
     ∧ k' = set_memslots k (invalidated (kvm_memslots_of k) (mem_slot mem))
     ∧ Exists is_publish tr).
Proof.
  intros Hrun Hr Hbm. unfold prepare_new_slot in Hrun.
  set (new1 := if nonzero (Z.land (flags new0) KVM_MEM_LOG_DIRTY_PAGES)
               then new0 else set_dirty_bitmap new0 None) in Hrun.
  assert (dirty_bitmap new1 = dirty_bitmap old
          ∨ (dirty_bitmap new1 = None
             ∧ nonzero (Z.land (flags new1) KVM_MEM_LOG_DIRTY_PAGES) = false))
    as Hnew1.
  { subst new1.
    destruct (nonzero (Z.land (flags new0) KVM_MEM_LOG_DIRTY_PAGES)) eqn:Hl;
      [by left|by right]. }
  clearbody new1.
  set (created := if bool_decide (c = KVM_MR_CREATE) then _ else _) in Hrun.
  assert (dirty_bitmap created.2 = dirty_bitmap new1
          ∧ flags created.2 = flags new1) as [Hcb Hcf].
  { subst created. case_bool_decide; [|done].
    by destruct (kvm_arch_create_memslot e _ np). }
  destruct created as [failed new2]. cbn in Hcb, Hcf.
  assert (new_bitmap_ok (kmem k) (kmem k) new2 old) as Hok2.
  { left. split; [done|]. rewrite Hcb. tauto. }
  destruct failed.
  { left.
    pose proof (out_free_restores k (kmem k) new2 old (- ENOMEM) [] Hok2) as Hf.
    rewrite Hrun in Hf. cbn in Hf. rewrite set_kmem_same in Hf. simplify_eq.
    split; [done|].
    unfold out_free, kvm_free_physmem_slot, kvm_destroy_dirty_bitmap in Hrun.
    repeat case_match; simplify_eq; repeat constructor; cbn; tauto. }
  destruct (nonzero (Z.land (flags new2) KVM_MEM_LOG_DIRTY_PAGES)
            && bool_decide (dirty_bitmap new2 = None)) eqn:Halloc.
  - apply andb_true_iff in Halloc as [Hlog Hnone].
    apply bool_decide_eq_true in Hnone.
    unfold kvm_create_dirty_bitmap in Hrun.
    destruct (kvzalloc_fails e).
    { left.
      pose proof (out_free_restores k (kmem k) new2 old (- ENOMEM) [] Hok2) as Hf.
      rewrite Hrun in Hf. cbn in Hf. rewrite set_kmem_same in Hf. simplify_eq.
      split; [done|].
      unfold out_free, kvm_free_physmem_slot, kvm_destroy_dirty_bitmap in Hrun.
      repeat case_match; simplify_eq; repeat constructor; cbn; tauto. }
    set (p := fresh (dom (kmem k))) in Hrun.
    assert (kmem k !! p = None) as Hfresh.
    { apply not_elem_of_dom. apply is_fresh. }
    match type of Hrun with
    | publish_region _ (set_kmem _ ?h) _ _ ?n _ ?t = _ =>
        assert (new_bitmap_ok (kmem k) h n old) as Hok3
    end.
    { right. eexists p, _. split; [done|]. split; [done|]. split; [done|].
      rewrite Hcb in Hnone. rewrite Hcf in Hlog.
      destruct Hnew1 as [Ho|[_ Ho]]; [|congruence].
      rewrite <- Ho, Hnone. done. }
    pose proof (publish_region_extends _ _ _ _ _ _ _ _ _ _ Hrun) as [rest ->].
    eapply publish_region_failure in Hrun; [|done|exact Hok3].
    destruct Hrun as [[-> Hnp]|(Hc & -> & Hex)].
    + left. split; [by destruct k|]. cbn in Hnp.
      constructor; [cbn; tauto|done].
    + right. split; [done|]. split; [by destruct k|done].
  - eapply publish_region_failure in Hrun; [|done|exact Hok2].
    destruct Hrun as [[-> Hnp]|(Hc & -> & Hex)].
    + left. split; [by destruct k|done].
    + right. split; [done|]. split; [by destruct k|done].
Qed.

(** X10.  A request that fails leaves [kvm] as it was (table, bitmaps and
    all) and publishes nothing, unless it is a DELETE or MOVE that fails
    after its transitional table was published: then the transitional
    table, in which only the slot of the request is changed, stays the
    active one, and the bitmaps are as before. *)
Lemma set_region_failure e k mem r k' tr :
  __kvm_set_memory_region e k mem = (r, k', tr) →
  r ≠ 0 →
  (k' = k ∧ Forall (λ ev, ¬ is_publish ev) tr)
  ∨ (k' = set_memslots k (invalidated (kvm_memslots_of k) (mem_slot mem))
     ∧ Exists is_publish tr).
Proof.
  intros Hrun Hr.
  destruct (decide (sanity_checks e mem = 0)) as [Hok|Hbad].
  - rewrite set_region_after_sanity in Hrun by done. cbn zeta in Hrun.
    repeat case_match; simplify_eq; try (left; split; [done|constructor]).
    eapply prepare_new_slot_failure in Hrun; [|done|done].
    destruct Hrun as [?|(_ & ? & ?)]; [by left|by right].
  - unfold __kvm_set_memory_region in Hrun.
    rewrite (proj2 (nonzero_true _) Hbad) in Hrun. simplify_eq.
    left. split; [done|constructor].
Qed.

End SetRegionTrace.

(** ** The overlap check of CREATE and MOVE *)

Section Overlap.
Context `{Platform}.

Lemma frames_intersect_frame b n s :
  frames_intersect b n s ↔
  ∃ g, b ≤ g < b + n ∧ base_gfn s ≤ g < base_gfn s + npages s.
Proof.
  unfold frames_intersect. split.
  - intros Hlt. exists (Z.max b (base_gfn s)). lia.
  - intros (g & Hg1 & Hg2). lia.
Qed.

Lemma elem_of_present_prefix l s :
  StronglySorted larger_first l → Forall slot_in_range l →
  s ∈ l → npages s ≠ 0 → s ∈ present_prefix l.
Proof.
  intros Hsorted Hrange Hin Hs.
  induction l as [|h t IH]; [by apply elem_of_nil in Hin|].
  apply StronglySorted_inv in Hsorted as [Hsorted Hh].
  apply Forall_cons in Hrange as [Hhr Hrange].
  cbn. apply elem_of_cons in Hin as [->|Hin].
  - apply Z.eqb_neq in Hs. rewrite Hs. apply list_elem_of_here.
  - assert (npages h ≠ 0) as Hh0.
    { rewrite Forall_forall in Hh, Hrange.
      pose proof (Hh s Hin) as Hle. pose proof (Hrange s Hin) as (_ & Hpos & _).
      unfold larger_first in Hle. lia. }
    apply Z.eqb_neq in Hh0. rewrite Hh0.
    apply list_elem_of_further. by apply IH.
Qed.

Lemma present_prefix_elem l s :
  s ∈ present_prefix l → s ∈ l ∧ npages s ≠ 0.
Proof.
  induction l as [|h t IH]; cbn; [by intros ?%elem_of_nil|].
  destruct (Z.eqb_spec (npages h) 0); [by intros ?%elem_of_nil|].
  intros [->|Hin]%elem_of_cons.
  - split; [apply list_elem_of_here|done].
  - destruct (IH Hin). split; [by apply list_elem_of_further|done].
Qed.

Lemma overlaps_spec b n s :
  0 ≤ b → 0 < n → b + n < 2 ^ 64 → slot_in_range s → 0 < npages s →
  overlaps b n s = true ↔ frames_intersect b n s.
Proof.
  intros Hb Hn Hbn (Hsb & Hsn & Hsum) Hpos.
  unfold overlaps, frames_intersect.
  rewrite !u64_small by lia.
  destruct (Z.leb_spec (b + n) (base_gfn s));
    destruct (Z.leb_spec (base_gfn s + npages s) b); cbn; split; intros; try done; lia.
Qed.

(** C3 (as amended).  For a CREATE or MOVE request whose frame range
    intersects the range of another user slot of the table, marked invalid
    or not, the operation fails with -EEXIST and nothing changes; when the
    range is disjoint from the range of every other user slot, the overlap
    check passes. *)
Theorem create_move_overlap_check (e : environment) (k : kvm)
    (mem : kvm_userspace_memory_region) :
  region_typed mem →
  sanity_checks e mem = 0 →
  memslots_wf (kvm_memslots_of k) →
  create_or_move k mem →
  ((∃ s, s ∈ memslots (kvm_memslots_of k) ∧ other_user_slot mem s
         ∧ frames_intersect (req_base_gfn mem) (req_npages mem) s) →
   __kvm_set_memory_region e k mem = (- EEXIST, k, []))
  ∧ ((∀ s, s ∈ memslots (kvm_memslots_of k) → other_user_slot mem s →
           ¬ frames_intersect (req_base_gfn mem) (req_npages mem) s) →
     region_in_use (kvm_memslots_of k) mem (req_base_gfn mem) (req_npages mem)
       = false).
Proof.
  intros Htyped Hok (Hlen & Hrange & Hsorted) (Hnp & Hcls).
  pose proof (req_range e mem Htyped Hok) as (Hb & Hn & Hbn).
  assert (0 < req_npages mem) as Hn' by lia.
  assert (kvm_for_each_memslot (kvm_memslots_of k)
          = present_prefix (memslots (kvm_memslots_of k))) as Hwalk.
  { unfold kvm_for_each_memslot. rewrite take_ge; [done|lia]. }
  split.
  - intros (s & Hin & [Hu Hid] & Hx).
    assert (0 < npages s) as Hs.
    { rewrite Forall_forall in Hrange. destruct (Hrange s Hin) as (? & ? & ?).
      unfold frames_intersect in Hx. lia. }
    assert (region_in_use (kvm_memslots_of k)
              (set_mem_flags mem (req_flags mem)) (req_base_gfn mem)
              (req_npages mem) = true) as Huse.
    { unfold region_in_use. rewrite Hwalk. apply existsb_exists.
      exists s. split.
      - apply list_elem_of_In, elem_of_present_prefix; try done. lia.
      - cbn. destruct (Z.leb_spec KVM_USER_MEM_SLOTS (id s)); [lia|].
        destruct (Z.eqb_spec (id s) (mem_slot mem)); [done|]. cbn.
        apply overlaps_spec; try done.
        rewrite Forall_forall in Hrange. by apply Hrange. }
    rewrite set_region_after_sanity by done. cbn zeta.
    pose proof (classify_cases (set_mem_flags mem (req_flags mem))
                  (id_to_memslot (kvm_memslots_of k) (mem_slot mem))
                  (set_flags (set_npages (set_base_gfn
                     (set_id (id_to_memslot (kvm_memslots_of k) (mem_slot mem))
                             (mem_slot mem))
                     (req_base_gfn mem)) (req_npages mem)) (req_flags mem))
                  (req_base_gfn mem) (req_npages mem))
      as (Hcreate & _ & Hmove & _).
    cbn [set_mem_flags set_flags mem_userspace_addr flags] in *.
    assert (req_flags mem = mem_flags mem) as Hfl.
    { unfold req_flags. apply Z.eqb_neq in Hnp. by rewrite Hnp. }
    destruct Hcls as [Hcr|(Ho & Hua & Hsz & Hro & Hbase)].
    + rewrite Hcreate by done. cbn. by rewrite Huse.
    + rewrite Hmove; [cbn; by rewrite Huse|done|done| |done].
      rewrite Hfl. intros [?|[?|?]]; done.
  - intros Hdisj. unfold region_in_use. rewrite Hwalk.
    destruct (existsb _ _) eqn:Hex; [|done]. exfalso.
    apply existsb_exists in Hex as (s & Hin & Hs).
    apply list_elem_of_In, present_prefix_elem in Hin as [Hin Hs0].
    destruct (Z.leb_spec KVM_USER_MEM_SLOTS (id s)); [done|].
    destruct (Z.eqb_spec (id s) (mem_slot mem)); [done|]. cbn in Hs.
    rewrite Forall_forall in Hrange. pose proof (Hrange s Hin) as Hsr.
    apply (Hdisj s Hin); [done|].
    apply overlaps_spec; try done. destruct Hsr as (? & ? & ?). lia.
Qed.

End Overlap.

(** ** The table invariant

    The well-formedness the overlap check relies on holds in a new virtual
    machine and is kept by every set-region request, whatever its outcome. *)
Section TableInvariant.
Context `{Platform} `{!SortPermutes} `{!SortSorts}.

Lemma cmp_memslot_le a b : cmp_memslot a b ≤ 0 ↔ larger_first a b.
Proof.
  unfold cmp_memslot, larger_first.
  destruct (Z.ltb_spec (npages a) (npages b));
    destruct (Z.ltb_spec (npages b) (npages a)); lia.
Qed.

Lemma StronglySorted_weaken {A} (R R' : A → A → Prop) l :
  (∀ a b, R a b → R' a b) → StronglySorted R l → StronglySorted R' l.
Proof.
  intros HR. induction 1 as [|h t Hsorted IH Hh]; constructor; [done|].
  eapply Forall_impl; [exact Hh|]. apply HR.
Qed.

Lemma StronglySorted_insert_same_size (l : list kvm_memory_slot) i new :
  StronglySorted larger_first l → npages new = npages (l !!! i) →
  StronglySorted larger_first (<[i := new]> l).
Proof.
  intros Hsorted. revert i.
  induction Hsorted as [|h t Hsorted IH Hh]; intros i Hsize; [constructor|].
  destruct i as [|i].
  - change ((h :: t) !!! 0%nat) with h in Hsize. cbn.
    constructor; [done|]. eapply Forall_impl; [exact Hh|].
    unfold larger_first. intros s Hs. lia.
  - change ((h :: t) !!! S i) with (t !!! i) in Hsize.
    change (<[S i := new]> (h :: t)) with (h :: <[i := new]> t).
    constructor; [by apply IH|].
    destruct (decide (i < length t)%nat) as [Hlt|Hge].
    + apply Forall_insert; [done|].
      destruct (lookup_lt_is_Some_2 t i Hlt) as [old Hold].
      rewrite (list_lookup_total_correct _ _ _ Hold) in Hsize.
      rewrite Forall_lookup in Hh. pose proof (Hh _ _ Hold) as Hle.
      unfold larger_first in *. lia.
    + rewrite list_insert_ge by lia. done.
Qed.

Lemma update_memslots_wf slots new g :
  memslots_wf slots → slot_in_range new →
  memslots_wf (update_memslots slots (Some new) g).
Proof.
  intros (Hlen & Hrange & Hsorted) Hnew.
  unfold update_memslots, sort_memslots, memslots_wf. cbn.
  case_decide as Hsize; cbn.
  - split; [by rewrite sort_perm, length_insert|].
    split; [rewrite sort_perm; by apply Forall_insert|].
    eapply StronglySorted_weaken; [|apply sort_sorted].
    intros a b. apply cmp_memslot_le.
  - rewrite length_insert. split; [done|].
    split; [by apply Forall_insert|].
    apply StronglySorted_insert_same_size; [done|].
    by destruct (decide (npages new = npages
                           (memslots slots !!! id_to_memslot_index slots (id new)))).
Qed.

Lemma slot_in_range_lookup (l : list kvm_memory_slot) i :
  Forall slot_in_range l → slot_in_range (l !!! i).
Proof.
  intros Hl. rewrite list_lookup_total_alt.
  destruct (l !! i) as [s|] eqn:Hs; cbn.
  - rewrite Forall_lookup in Hl. by eapply Hl.
  - unfold slot_in_range. cbn. lia.
Qed.

Lemma invalidated_wf slots i :
  memslots_wf slots → memslots_wf (invalidated slots i).
Proof.
  intros (Hlen & Hrange & Hsorted). unfold memslots_wf, invalidated. cbn.
  rewrite length_insert. split; [done|]. split.
  - apply Forall_insert; [done|]. by apply (slot_in_range_lookup _ _ Hrange).
  - by apply StronglySorted_insert_same_size.
Qed.

Lemma publish_region_wf e k mem old new c tr0 r k' tr :
  publish_region e k mem old new c tr0 = (r, k', tr) →
  memslots_wf (kvm_memslots_of k) → slot_in_range new →
  memslots_wf (kvm_memslots_of k').
Proof.
  intros Hrun Hk Hn.
  pose proof (invalidated_wf _ (mem_slot mem) Hk) as Hinv.
  assert (slot_in_range (set_arch (set_dirty_bitmap new None) 0)) as Hdel by done.
  unfold publish_region, out_slots, out_free, install_new_memslots,
    kvm_free_physmem_slot, kvm_destroy_dirty_bitmap in Hrun.
  repeat case_match; simplify_eq; cbn [kvm_memslots_of set_kmem set_memslots];
    try done; by apply update_memslots_wf.
Qed.

Lemma prepare_new_slot_wf e k mem old new0 np c r k' tr :
  prepare_new_slot e k mem old new0 np c = (r, k', tr) →
  memslots_wf (kvm_memslots_of k) → slot_in_range new0 →
  memslots_wf (kvm_memslots_of k').
Proof.
  intros Hrun Hk Hnew0. unfold prepare_new_slot in Hrun.
  set (new1 := if nonzero (Z.land (flags new0) KVM_MEM_LOG_DIRTY_PAGES)
               then new0 else set_dirty_bitmap new0 None) in Hrun.
  assert (slot_in_range new1) as Hnew1.
  { subst new1.
    by destruct (nonzero (Z.land (flags new0) KVM_MEM_LOG_DIRTY_PAGES)). }
  clearbody new1.
  set (created := if bool_decide (c = KVM_MR_CREATE) then _ else _) in Hrun.
  assert (slot_in_range created.2) as Hcreated.
  { subst created. case_bool_decide; [|done].
    by destruct (kvm_arch_create_memslot e _ np). }
  destruct created as [failed new2]. cbn in Hcreated.
  destruct failed; [by rewrite (out_free_memslots _ _ _ _ _ _ _ _ Hrun)|].
  destruct (nonzero (Z.land (flags new2) KVM_MEM_LOG_DIRTY_PAGES)
            && bool_decide (dirty_bitmap new2 = None)).
  - unfold kvm_create_dirty_bitmap in Hrun.
    destruct (kvzalloc_fails e);
      [by rewrite (out_free_memslots _ _ _ _ _ _ _ _ Hrun)|].
    by eapply publish_region_wf in Hrun.
  - by eapply publish_region_wf in Hrun.
Qed.

Lemma set_region_memslots_wf e k mem :
  region_typed mem → memslots_wf (kvm_memslots_of k) →
  memslots_wf (kvm_memslots_of (__kvm_set_memory_region e k mem).1.2).
Proof.
  intros Htyped Hk.
  destruct (decide (sanity_checks e mem = 0)) as [Hok|Hbad].
  - pose proof (req_range e mem Htyped Hok) as Hreq.
    rewrite set_region_after_sanity by done. cbn zeta.
    repeat case_match; try done;
      match goal with
      | |- context [prepare_new_slot ?e ?k ?m ?o ?n ?np ?c] =>
          destruct (prepare_new_slot e k m o n np c) as [[r1 k1] tr1] eqn:Hp
      end;
      by eapply prepare_new_slot_wf in Hp.
  - unfold __kvm_set_memory_region.
    by rewrite (proj2 (nonzero_true _) Hbad).
Qed.

Lemma kvm_create_vm_wf : memslots_wf (kvm_memslots_of kvm_create_vm).
Proof.
  unfold memslots_wf, kvm_create_vm, kvm_init_memslots.
  cbn [kvm_memslots_of memslots].
  split; [by rewrite !length_map, length_seq|].
  generalize (map Z.of_nat (seq 0 (Z.to_nat KVM_MEM_SLOTS_NUM))). intros l.
  split.
  - apply Forall_fmap, Forall_true. intros i. unfold slot_in_range. cbn. lia.
  - induction l as [|i l IH]; cbn; constructor; [done|].
    apply Forall_fmap, Forall_true. intros j. unfold larger_first. cbn. lia.
Qed.

End TableInvariant.

(** ** Generations and the cached guest-address handle *)
Section Generations.
Context `{Platform}.

Lemma gfn_to_memslot_found k gfn s :
  gfn_to_memslot k gfn = Some s →
  s ∈ memslots (kvm_memslots_of k)
  ∧ base_gfn s ≤ gfn < u64 (base_gfn s + npages s).
Proof.
  unfold gfn_to_memslot, __gfn_to_memslot, kvm_for_each_memslot.
  intros [Hin Hf]%find_some.
  apply list_elem_of_In, present_prefix_elem in Hin as [Hin _].
  apply elem_of_take in Hin as (i & Hi & _).
  split; [by eapply list_elem_of_lookup_2|]. lia.
Qed.

Lemma cache_init_walk_returns fuel k ghc start_gfn end_gfn :
  Forall slot_in_range (memslots (kvm_memslots_of k)) →
  0 ≤ start_gfn → end_gfn - start_gfn + 1 ≤ Z.of_nat fuel →
  ∃ r ghc', cache_init_walk fuel k ghc start_gfn end_gfn = Some (r, ghc')
            ∧ ghc_generation ghc' = ghc_generation ghc
            ∧ ghc_gpa ghc' = ghc_gpa ghc ∧ ghc_len ghc' = ghc_len ghc.
Proof.
  intros Hrange. revert ghc start_gfn.
  induction fuel as [|fuel IH]; intros ghc start_gfn Hs Hfuel; cbn.
  - destruct (Z.ltb_spec end_gfn start_gfn); [|lia]. by eexists _, _.
  - destruct (Z.ltb_spec end_gfn start_gfn); [by eexists _, _|].
    unfold gfn_to_hva_many, __gfn_to_hva_many.
    destruct (gfn_to_memslot k start_gfn) as [s|] eqn:Hslot; cbn;
      [|unfold kvm_is_error_hva, KVM_HVA_ERR_BAD; rewrite Z.leb_refl;
        by eexists _, _].
    destruct (nonzero (Z.land (flags s) KVM_MEMSLOT_INVALID));
      [unfold kvm_is_error_hva, KVM_HVA_ERR_BAD; rewrite Z.leb_refl;
       by eexists _, _|].
    destruct (memslot_is_readonly s); cbn;
      [rewrite KVM_HVA_ERR_RO_BAD_is_error; by eexists _, _|].
    destruct (kvm_is_error_hva (__gfn_to_hva_memslot s start_gfn));
      [by eexists _, _|].
    apply gfn_to_memslot_found in Hslot as [Hin Hg].
    rewrite Forall_forall in Hrange.
    destruct (Hrange s Hin) as (Hb & Hn & Hsum).
    rewrite u64_small in Hg by lia.
    rewrite (u64_small (start_gfn - base_gfn s)) by lia.
    rewrite (u64_small (npages s - _)) by lia.
    edestruct (IH (mk_ghc (ghc_generation ghc) (ghc_gpa ghc)
                          (__gfn_to_hva_memslot s start_gfn) (ghc_len ghc) (Some s))
                  (u64 (start_gfn + (npages s - (start_gfn - base_gfn s)))))
      as (r & ghc' & Hrun & Hfields).
    + rewrite u64_small; lia.
    + rewrite u64_small; lia.
    + eexists _, _. split; [exact Hrun|]. exact Hfields.
Qed.

Lemma cache_init_returns k ghc gpa len0 :
  Forall slot_in_range (memslots (kvm_memslots_of k)) →
  0 ≤ gpa →
  ∃ r ghc', kvm_gfn_to_hva_cache_init k ghc gpa len0 = Some (r, ghc')
            ∧ ghc_generation ghc' = generation (kvm_memslots_of k)
            ∧ ghc_gpa ghc' = gpa ∧ ghc_len ghc' = len0.
Proof.
  intros Hrange Hgpa. unfold kvm_gfn_to_hva_cache_init. cbn zeta.
  case_match; [by eexists _, _|].
  match goal with
  | |- context [cache_init_walk ?f k ?g ?s ?e] =>
      destruct (cache_init_walk_returns f k g s e) as (r & ghc' & Hrun & Hf)
  end; [done| |lia|].
  - pose proof PAGE_SHIFT_range. apply Z.shiftr_nonneg. lia.
  - eexists _, _. split; [exact Hrun|]. exact Hf.
Qed.

Lemma offset_in_page_range p : 0 ≤ offset_in_page p < PAGE_SIZE.
Proof.
  unfold offset_in_page. rewrite PAGE_SIZE_eq. pose proof PAGE_SHIFT_range.
  replace (2 ^ PAGE_SHIFT - 1) with (Z.ones PAGE_SHIFT)
    by (rewrite Z.ones_equiv; lia).
  rewrite Z.land_ones by lia. apply Z.mod_pos_bound. apply Z.pow_pos_nonneg; lia.
Qed.

Lemma kvm_write_guest_loop_returns fuel m k gfn offset len0 :
  0 ≤ offset < PAGE_SIZE → 0 ≤ len0 < 2 ^ BITS_PER_LONG →
  len0 ≤ Z.of_nat fuel →
  is_Some (kvm_write_guest_loop fuel m k gfn offset len0).
Proof.
  revert k gfn offset len0.
  induction fuel as [|fuel IH]; intros k gfn offset len0 Hoff Hlen Hfuel; cbn;
    unfold next_segment;
    destruct (Z.ltb_spec (PAGE_SIZE - offset) len0);
    match goal with
    | |- context [?x =? 0] => destruct (Z.eqb_spec x 0)
    end; try done; try lia.
  - destruct (kvm_write_guest_page m k gfn offset (PAGE_SIZE - offset))
      as [ret k1].
    destruct (ret <? 0); [done|]. pose proof PAGE_SIZE_range.
    apply IH; rewrite ?ulong_small; lia.
  - destruct (kvm_write_guest_page m k gfn offset len0) as [ret k1].
    destruct (ret <? 0); [done|]. pose proof PAGE_SIZE_range.
    apply IH; rewrite ?ulong_small; lia.
Qed.

Lemma kvm_write_guest_returns m k gpa len0 :
  0 ≤ len0 < 2 ^ BITS_PER_LONG → is_Some (kvm_write_guest m k gpa len0).
Proof.
  intros Hlen. apply kvm_write_guest_loop_returns;
    [apply offset_in_page_range|done|lia].
Qed.

Lemma write_through_cache_returns m k ghc len0 :
  0 ≤ len0 < 2 ^ BITS_PER_LONG → is_Some (write_through_cache m k ghc len0).
Proof.
  intros Hlen. unfold write_through_cache.
  repeat case_match; try done. by apply kvm_write_guest_returns.
Qed.

Lemma u64_step g : 0 ≤ g → 0 ≤ u64 (g + 1) ≤ g + 1.
Proof.
  intros Hg. pose proof (wrap_range 64 (g + 1)) as Hr. unfold u64.
  split; [lia|]. unfold wrap. apply Z.mod_le; lia.
Qed.

Lemma reached_in_generation n k :
  reached_in n k → 0 ≤ generation (kvm_memslots_of k) ≤ 2 * Z.of_nat n.
Proof.
  induction 1 as [|n e k mem Hk IH|n k k' Hk IH Hsame].
  - cbn. lia.
  - pose proof (set_region_published e k mem) as Hp.
    pose proof (u64_step (generation (kvm_memslots_of k))) as H1.
    pose proof (u64_step (u64 (generation (kvm_memslots_of k) + 1))) as H2.
    destruct Hp as [[_ ->]|[[_ ->]|[_ ->]]]; lia.
  - by rewrite Hsame.
Qed.

(** C9.  Every publish of a table gives it the generation of the table
    active until then plus one (modulo 2^64, the width of the counter).
    The counter of a new virtual machine is 0 and a set-region request
    publishes at most two tables, so after [n] requests it is at most
    [2 * n]: in every virtual machine reached with fewer than 2^63 - 1
    requests the counter does not wrap, each table published has the
    generation of the one before it plus one, and the generations grow
    strictly from publish to publish.  A cached handle whose generation
    differs from the one of the active table is initialised again from its
    [gpa] and [len] before it is used: the call does what a call with the
    fresh handle does, and leaves the fresh handle, stamped with the active
    generation. *)
Theorem generation_step_and_cache_revalidation :
  (∀ k slots new,
     let '(old_memslots, k', _) := install_new_memslots k slots new in
     old_memslots = kvm_memslots_of k
     ∧ generation (kvm_memslots_of k') = u64 (generation (kvm_memslots_of k) + 1)
     ∧ (0 ≤ generation (kvm_memslots_of k) < 2 ^ 64 - 1 →
        generation (kvm_memslots_of k') = generation (kvm_memslots_of k) + 1
        ∧ generation (kvm_memslots_of k) < generation (kvm_memslots_of k')))
  ∧ (∀ n k, reached_in n k →
            0 ≤ generation (kvm_memslots_of k) ≤ 2 * Z.of_nat n)
  ∧ (∀ n k e mem,
       reached_in n k → Z.of_nat n < 2 ^ 63 - 1 →
       let g := generation (kvm_memslots_of k) in
       let res := __kvm_set_memory_region e k mem in
       (published res.2 = [] ∨ published res.2 = [g + 1]
        ∨ published res.2 = [g + 1; g + 2])
       ∧ generation (kvm_memslots_of res.1.2)
         = g + Z.of_nat (length (published res.2)))
  ∧ (∀ m k ghc len0,
       Forall slot_in_range (memslots (kvm_memslots_of k)) →
       0 ≤ ghc_gpa ghc →
       0 ≤ len0 ≤ ghc_len ghc → ghc_len ghc < 2 ^ BITS_PER_LONG →
       generation (kvm_memslots_of k) ≠ ghc_generation ghc →
       ∃ r0 ghc' r k',
         kvm_gfn_to_hva_cache_init k ghc (ghc_gpa ghc) (ghc_len ghc)
           = Some (r0, ghc')
         ∧ ghc_generation ghc' = generation (kvm_memslots_of k)
         ∧ ghc_gpa ghc' = ghc_gpa ghc ∧ ghc_len ghc' = ghc_len ghc
         ∧ kvm_write_guest_cached m k ghc len0 = Some (Done (r, k', ghc'))
         ∧ kvm_write_guest_cached m k ghc' len0 = Some (Done (r, k', ghc'))).
Proof.
  split; [|split; [|split]].
  - intros k slots new. unfold install_new_memslots, update_memslots. cbn.
    split; [done|]. split; [done|].
    intros Hg. rewrite u64_small by lia. lia.
  - apply reached_in_generation.
  - intros n k e mem Hk Hn g res.
    pose proof (reached_in_generation n k Hk) as Hg. fold g in Hg.
    pose proof (set_region_published e k mem) as Hp. fold g res in Hp.
    assert (u64 (g + 1) = g + 1) as H1 by (apply u64_small; lia).
    assert (u64 (g + 1 + 1) = g + 2) as H2
      by (rewrite u64_small by lia; lia).
    unfold publishes_from in Hp. rewrite H1, H2 in Hp.
    destruct Hp as [[-> ->]|[[-> ->]|[-> ->]]]; cbn [length]; split; auto; lia.
  - intros m k ghc len0 Hrange Hgpa Hlen Hmax Hstale.
    destruct (cache_init_returns k ghc (ghc_gpa ghc) (ghc_len ghc) Hrange Hgpa)
      as (r0 & ghc' & Hinit & Hgen & Hg & Hl).
    destruct (write_through_cache_returns m k ghc' len0) as [[r k'] Hwrite];
      [lia|].
    exists r0, ghc', r, k'. repeat split; try done.
    + unfold kvm_write_guest_cached.
      destruct (Z.ltb_spec (ghc_len ghc) len0); [lia|].
      apply Z.eqb_neq in Hstale. rewrite Hstale. cbn.
      rewrite Hinit. cbn. by rewrite Hwrite.
    + unfold kvm_write_guest_cached. rewrite Hl, Hgen.
      destruct (Z.ltb_spec (ghc_len ghc) len0); [lia|].
      rewrite Z.eqb_refl. cbn. by rewrite Hwrite.
Qed.

End Generations.

(** ** The dirty log *)
Section DirtyLogFacts.
Context `{Platform}.

Lemma sizeof_long_pos : 0 < sizeof_long ∧ BITS_PER_LONG = 8 * sizeof_long.
Proof.
  unfold sizeof_long. pose proof BITS_PER_LONG_range. pose proof BITS_PER_LONG_bytes.
  pose proof (Z.div_mod BITS_PER_LONG 8). lia.
Qed.

Lemma dirty_words_count s :
  0 ≤ npages s < 2 ^ BITS_PER_LONG →
  Z.of_nat (dirty_log_words s) = (npages s + (BITS_PER_LONG - 1)) / BITS_PER_LONG
  ∧ Z.of_nat (dirty_bitmap_words s)
    = 2 * ((npages s + (BITS_PER_LONG - 1)) / BITS_PER_LONG).
Proof.
  intros Hn. unfold dirty_log_words, dirty_bitmap_words, kvm_dirty_bitmap_bytes, ALIGN.
  destruct sizeof_long_pos as [Hsz HB]. pose proof BITS_PER_LONG_range as HBr.
  set (q := (npages s + (BITS_PER_LONG - 1)) / BITS_PER_LONG).
  assert (0 ≤ q) as Hq by (apply Z.div_pos; lia).
  assert (q * BITS_PER_LONG ≤ npages s + (BITS_PER_LONG - 1)) as Hqle.
  { subst q. rewrite Z.mul_comm. apply Z.mul_div_le. lia. }
  assert (q * BITS_PER_LONG / 8 = q * sizeof_long) as Hbytes.
  { rewrite HB. replace (q * (8 * sizeof_long)) with (q * sizeof_long * 8) by lia.
    apply Z.div_mul. lia. }
  rewrite Hbytes.
  assert (BITS_PER_LONG < 2 ^ BITS_PER_LONG) as Hpow.
  { apply Z.pow_gt_lin_r; lia. }
  assert (2 * (q * sizeof_long) < 2 ^ BITS_PER_LONG) as Hsmall by nia.
  rewrite !ulong_small by nia.
  replace (2 * (q * sizeof_long)) with (2 * q * sizeof_long) by lia.
  rewrite !Z.div_mul by lia. lia.
Qed.

Lemma testbit_set_bit (w n j : Z) :
  0 ≤ n → 0 ≤ j →
  Z.testbit (Z.lor w (Z.shiftl 1 n)) j = Z.testbit w j || (j =? n).
Proof.
  intros Hn Hj. rewrite Z.lor_spec, Z.shiftl_1_l, Z.pow2_bits_eqb by done.
  by rewrite (Z.eqb_sym n j).
Qed.

Lemma bitmap_bit_set_bit_le nr j bitmap :
  0 ≤ nr < BITS_PER_LONG * Z.of_nat (length bitmap) → 0 ≤ j →
  bitmap_bit j (set_bit_le nr bitmap) = bitmap_bit j bitmap || (j =? nr).
Proof.
  intros Hnr Hj. unfold bitmap_bit, set_bit_le.
  pose proof BITS_PER_LONG_range as HB.
  pose proof (Z.div_mod nr BITS_PER_LONG) as Hdn.
  pose proof (Z.div_mod j BITS_PER_LONG) as Hdj.
  pose proof (Z.mod_pos_bound nr BITS_PER_LONG) as Hmn.
  pose proof (Z.mod_pos_bound j BITS_PER_LONG) as Hmj.
  assert (0 ≤ nr / BITS_PER_LONG) by (apply Z.div_pos; lia).
  assert (0 ≤ j / BITS_PER_LONG) by (apply Z.div_pos; lia).
  assert (nr / BITS_PER_LONG < Z.of_nat (length bitmap)).
  { apply Z.div_lt_upper_bound; lia. }
  destruct (decide (j / BITS_PER_LONG = nr / BITS_PER_LONG)) as [Heq|Hne].
  - rewrite Heq, list_lookup_insert_eq by lia. cbn.
    rewrite testbit_set_bit by lia. f_equal.
    destruct (Z.eqb_spec (j mod BITS_PER_LONG) (nr mod BITS_PER_LONG));
      destruct (Z.eqb_spec j nr); try done; lia.
  - rewrite list_lookup_insert_ne by lia.
    destruct (Z.eqb_spec j nr); [subst; lia|]. by rewrite orb_false_r.
Qed.

Lemma set_bit_le_length nr bitmap : length (set_bit_le nr bitmap) = length bitmap.
Proof. unfold set_bit_le. apply length_insert. Qed.

Lemma mark_page_dirty_memslots k gfn :
  kvm_memslots_of (mark_page_dirty k gfn) = kvm_memslots_of k.
Proof.
  unfold mark_page_dirty, mark_page_dirty_in_slot. by repeat case_match.
Qed.

Lemma mark_page_dirty_lookup k gfn s p bitmap :
  gfn_to_memslot k gfn = Some s → slot_in_range s →
  npages s < 2 ^ BITS_PER_LONG →
  dirty_bitmap s = Some p → kmem k !! p = Some bitmap →
  kmem (mark_page_dirty k gfn) !! p = Some (set_bit_le (gfn - base_gfn s) bitmap)
  ∧ 0 ≤ gfn - base_gfn s < npages s.
Proof.
  intros Hslot (Hb & Hn & Hsum) Hlong Hp Hbm.
  pose proof (gfn_to_memslot_found _ _ _ Hslot) as [_ Hg].
  rewrite u64_small in Hg by lia. pose proof long_le_64.
  unfold mark_page_dirty, mark_page_dirty_in_slot. rewrite Hslot, Hp. cbn.
  rewrite lookup_alter_eq, Hbm. cbn.
  rewrite u64_small, ulong_small by lia. split; [done|lia].
Qed.

(** Marking a list of frames of one slot. *)
Lemma mark_pages_lookup gfns k s p bitmap :
  (∀ g, g ∈ gfns → gfn_to_memslot k g = Some s) → slot_in_range s →
  npages s < 2 ^ BITS_PER_LONG →
  dirty_bitmap s = Some p → kmem k !! p = Some bitmap →
  kvm_memslots_of (foldl mark_page_dirty k gfns) = kvm_memslots_of k
  ∧ kmem (foldl mark_page_dirty k gfns) !! p
    = Some (foldl (λ b g, set_bit_le (g - base_gfn s) b) bitmap gfns).
Proof.
  intros Hslots Hrange Hlong Hp. revert k bitmap Hslots.
  induction gfns as [|g gfns IH]; intros k bitmap Hslots Hbm; [done|]. cbn.
  destruct (mark_page_dirty_lookup k g s p bitmap) as [Hnext _]; try done.
  { apply Hslots, list_elem_of_here. }
  destruct (IH (mark_page_dirty k g) (set_bit_le (g - base_gfn s) bitmap))
    as [Htbl Hheap]; [|done|].
  { intros g' Hg'. unfold gfn_to_memslot. rewrite mark_page_dirty_memslots.
    apply Hslots. by apply list_elem_of_further. }
  split; [|done]. by rewrite Htbl, mark_page_dirty_memslots.
Qed.

Lemma bitmap_bit_marked gfns b0 bitmap j :
  (∀ g, g ∈ gfns → 0 ≤ g - b0 < BITS_PER_LONG * Z.of_nat (length bitmap)) →
  0 ≤ j →
  bitmap_bit j (foldl (λ b g, set_bit_le (g - b0) b) bitmap gfns)
  = bitmap_bit j bitmap || bool_decide (b0 + j ∈ gfns).
Proof.
  revert bitmap. induction gfns as [|g gfns IH]; intros bitmap Hg Hj; cbn.
  - rewrite bool_decide_eq_false_2; [by rewrite orb_false_r|].
    by intros ?%elem_of_nil.
  - rewrite IH; [|intros g' Hg'; rewrite set_bit_le_length;
                  apply Hg; by apply list_elem_of_further|done].
    rewrite bitmap_bit_set_bit_le; [|apply Hg, list_elem_of_here|done].
    rewrite <- orb_assoc. f_equal.
    destruct (Z.eqb_spec j (g - b0)) as [->|Hne]; cbn.
    + rewrite bool_decide_eq_true_2; [done|].
      replace (b0 + (g - b0)) with g by lia. apply list_elem_of_here.
    + apply bool_decide_ext. rewrite elem_of_cons.
      split; [auto|]. intros [Heq|?]; [lia|done].
Qed.

Lemma foldl_set_bit_le_length gfns b0 bitmap :
  length (foldl (λ b g, set_bit_le (g - b0) b) bitmap gfns) = length bitmap.
Proof.
  revert bitmap. induction gfns as [|g gfns IH]; intros bitmap; cbn; [done|].
  by rewrite IH, set_bit_le_length.
Qed.

Lemma bitmap_bit_zeros n j : bitmap_bit j (replicate n 0) = false.
Proof.
  unfold bitmap_bit.
  destruct (replicate n 0 !! Z.to_nat (j / BITS_PER_LONG)) as [w|] eqn:Hw; cbn.
  - apply lookup_replicate in Hw as [-> _]. apply Z.bits_0.
  - apply Z.bits_0.
Qed.

Lemma bitmap_bit_take n j bitmap :
  0 ≤ j →
  bitmap_bit j (take n bitmap)
  = bool_decide (j < BITS_PER_LONG * Z.of_nat n) && bitmap_bit j bitmap.
Proof.
  intros Hj. unfold bitmap_bit. pose proof BITS_PER_LONG_range.
  assert (0 ≤ j / BITS_PER_LONG) by (apply Z.div_pos; lia).
  case_bool_decide as Hlt; cbn.
  - rewrite lookup_take_lt; [done|].
    assert (j / BITS_PER_LONG < Z.of_nat n); [|lia].
    apply Z.div_lt_upper_bound; lia.
  - rewrite lookup_take_ge; [apply Z.bits_0|].
    assert (Z.of_nat n ≤ j / BITS_PER_LONG); [|lia].
    apply Z.div_le_lower_bound; lia.
Qed.

Lemma find_nonzero_none (l : list Z) :
  List.find nonzero l = None ↔ Forall (λ w, w = 0) l.
Proof.
  induction l as [|w l IH]; cbn; [by split; [constructor|]|].
  destruct (nonzero w) eqn:Hw.
  - split; [done|]. intros [Hz _]%Forall_cons. apply nonzero_true in Hw. done.
  - apply nonzero_false in Hw. rewrite IH. split.
    + intros Hl. by constructor.
    + by intros [_ Hl]%Forall_cons.
Qed.

Lemma bitmap_bit_nonzero_word j bitmap :
  bitmap_bit j bitmap = true → ¬ Forall (λ w, w = 0) bitmap.
Proof.
  unfold bitmap_bit. intros Hbit Hall.
  destruct (bitmap !! Z.to_nat (j / BITS_PER_LONG)) as [w|] eqn:Hw; cbn in Hbit.
  - rewrite Forall_lookup in Hall. rewrite (Hall _ _ Hw) in Hbit.
    by rewrite Z.bits_0 in Hbit.
  - by rewrite Z.bits_0 in Hbit.
Qed.

Lemma dirty_log_after_marking k s p gfns log_slot is_dirty :
  slot_in_range s → npages s < 2 ^ BITS_PER_LONG →
  log_slot < KVM_USER_MEM_SLOTS →
  id_to_memslot (kvm_memslots_of k) log_slot = s →
  dirty_bitmap s = Some p →
  kmem k !! p = Some (replicate (dirty_bitmap_words s) 0) →
  (∀ g, g ∈ gfns → gfn_to_memslot k g = Some s) →
  NoDup gfns →
  let k' := foldl mark_page_dirty k gfns in
  ∃ log,
    kvm_get_dirty_log false k' log_slot is_dirty
      = (0, k', Some log, if decide (gfns = []) then is_dirty else 1)
    ∧ (∀ j, 0 ≤ j → bitmap_bit j log = true ↔ base_gfn s + j ∈ gfns)
    ∧ bitmap_weight log = length gfns.
Proof.
  intros Hrange Hlong Hslot Hid Hp Hbm Hgfns Hnodup k'.
  destruct (mark_pages_lookup gfns k s p _ Hgfns Hrange Hlong Hp Hbm)
    as [Htbl Hheap]. fold k' in Htbl, Hheap.
  set (bmf := foldl (λ b g, set_bit_le (g - base_gfn s) b)
                    (replicate (dirty_bitmap_words s) 0) gfns) in *.
  destruct Hrange as (Hb & Hn & Hsum).
  destruct (dirty_words_count s) as [Hq H2q]; [lia|].
  pose proof BITS_PER_LONG_range as HB.
  set (q := (npages s + (BITS_PER_LONG - 1)) / BITS_PER_LONG) in *.
  assert (npages s ≤ BITS_PER_LONG * q) as Hcover.
  { subst q. pose proof (Z.div_mod (npages s + (BITS_PER_LONG - 1)) BITS_PER_LONG).
    pose proof (Z.mod_pos_bound (npages s + (BITS_PER_LONG - 1)) BITS_PER_LONG).
    lia. }
  assert (0 ≤ q) as Hq0 by lia.
  assert (∀ g, g ∈ gfns → 0 ≤ g - base_gfn s < npages s) as Hrel.
  { intros g Hg.
    destruct (mark_page_dirty_lookup k g s p _ (Hgfns g Hg)
                (conj Hb (conj Hn Hsum)) Hlong Hp Hbm) as [_ ?]; done. }
  assert (∀ j, 0 ≤ j →
            bitmap_bit j (take (dirty_log_words s) bmf) = true
            ↔ base_gfn s + j ∈ gfns) as Hbits.
  { intros j Hj. rewrite bitmap_bit_take by done. subst bmf.
    rewrite bitmap_bit_marked; [|intros g Hg; rewrite length_replicate;
                                  specialize (Hrel g Hg); lia|done].
    rewrite bitmap_bit_zeros. cbn.
    rewrite andb_true_iff, !bool_decide_eq_true. split; [tauto|].
    intros Hin. split; [|done]. specialize (Hrel _ Hin). lia. }
  exists (take (dirty_log_words s) bmf). split; [|split; [done|]].
  - unfold kvm_get_dirty_log.
    destruct (Z.leb_spec KVM_USER_MEM_SLOTS log_slot); [lia|].
    rewrite Htbl, Hid, Hp, Hheap. cbn. fold (dirty_log_words s).
    repeat f_equal.
    destruct (List.find nonzero (take (dirty_log_words s) bmf)) as [w|] eqn:Hfind.
    + apply find_some in Hfind as [Hin Hw]. cbn. rewrite Hw.
      case_decide as Hnil; [|done]. exfalso. subst gfns.
      apply list_elem_of_In, list_elem_of_lookup in Hin as [i Hi].
      subst bmf. cbn in Hi. apply lookup_take_Some in Hi as [Hi _].
      apply lookup_replicate in Hi as [-> _]. done.
    + cbn. case_decide as Hnil; [done|]. exfalso.
      apply find_nonzero_none in Hfind.
      destruct gfns as [|g gfns]; [done|].
      eapply (bitmap_bit_nonzero_word (g - base_gfn s)); [|exact Hfind].
      apply Hbits.
      * specialize (Hrel g (list_elem_of_here _ _)). lia.
      * replace (base_gfn s + (g - base_gfn s)) with g by lia.
        apply list_elem_of_here.
  - unfold bitmap_weight.
    rewrite <- (length_fmap (λ g, g - base_gfn s) gfns).
    apply Permutation_length, NoDup_Permutation.
    + apply NoDup_filter, NoDup_seqZ.
    + apply NoDup_fmap_2; [|done]. intros x y ?. lia.
    + intros x. rewrite list_elem_of_filter, elem_of_seqZ, list_elem_of_fmap.
      assert (length bmf = dirty_bitmap_words s) as Hlen.
      { unfold bmf. by rewrite foldl_set_bit_le_length, length_replicate. }
      rewrite length_take, Hlen.
      split.
      * intros [Hbit [Hx _]]. apply Hbits in Hbit; [|lia].
        exists (base_gfn s + x). split; [lia|done].
      * intros (g & -> & Hg). pose proof (Hrel g Hg). split; [|lia].
        apply Hbits; [lia|].
        by replace (base_gfn s + (g - base_gfn s)) with g by lia.
Qed.

Lemma log_or_no_bitmap_invalid s :
  log_or_no_bitmap s →
  log_or_no_bitmap (set_flags s (Z.lor (flags s) KVM_MEMSLOT_INVALID)).
Proof.
  unfold log_or_no_bitmap. cbn. intros Hs Hz. apply Hs.
  rewrite Z.land_lor_distr_l in Hz.
  change (Z.land KVM_MEMSLOT_INVALID KVM_MEM_LOG_DIRTY_PAGES) with 0 in Hz.
  by rewrite Z.lor_0_r in Hz.
Qed.

Lemma log_or_no_bitmap_lookup (l : list kvm_memory_slot) i :
  Forall log_or_no_bitmap l → log_or_no_bitmap (l !!! i).
Proof.
  intros Hl. rewrite list_lookup_total_alt.
  destruct (l !! i) as [s|] eqn:Hs; cbn; [|done].
  rewrite Forall_lookup in Hl. by eapply Hl.
Qed.

Lemma update_memslots_log_or_no_bitmap `{!SortPermutes} slots new g :
  Forall log_or_no_bitmap (memslots slots) →
  log_or_no_bitmap new →
  Forall log_or_no_bitmap (memslots (update_memslots slots (Some new) g)).
Proof.
  intros Hl Hn. unfold update_memslots, sort_memslots. cbn.
  case_decide; cbn; [rewrite sort_perm|]; by apply Forall_insert.
Qed.

Lemma publish_region_log_or_no_bitmap `{!SortPermutes} e k mem old new c tr0 r k' tr :
  publish_region e k mem old new c tr0 = (r, k', tr) →
  no_log_no_bitmap (kvm_memslots_of k) → log_or_no_bitmap new →
  no_log_no_bitmap (kvm_memslots_of k').
Proof.
  intros Hrun Hk Hn. unfold no_log_no_bitmap in *.
  fold log_or_no_bitmap in *.
  assert (Forall log_or_no_bitmap
            (memslots (invalidated (kvm_memslots_of k) (mem_slot mem)))) as Hinv.
  { cbn. apply Forall_insert; [done|].
    by apply log_or_no_bitmap_invalid, log_or_no_bitmap_lookup. }
  assert (log_or_no_bitmap (set_arch (set_dirty_bitmap new None) 0)) as Hdel.
  { by intros _. }
  unfold publish_region, out_slots, out_free, install_new_memslots,
    kvm_free_physmem_slot, kvm_destroy_dirty_bitmap in Hrun.
  repeat case_match; simplify_eq; cbn [kvm_memslots_of set_kmem set_memslots];
    try done; by apply update_memslots_log_or_no_bitmap.
Qed.

Lemma prepare_new_slot_log_or_no_bitmap `{!SortPermutes} e k mem old new0 np c
    r k' tr :
  prepare_new_slot e k mem old new0 np c = (r, k', tr) →
  no_log_no_bitmap (kvm_memslots_of k) →
  no_log_no_bitmap (kvm_memslots_of k').
Proof.
  intros Hrun Hk. unfold prepare_new_slot in Hrun.
  set (new1 := if nonzero (Z.land (flags new0) KVM_MEM_LOG_DIRTY_PAGES)
               then new0 else set_dirty_bitmap new0 None) in Hrun.
  assert (log_or_no_bitmap new1) as Hnew1.
  { subst new1. unfold log_or_no_bitmap.
    destruct (nonzero (Z.land (flags new0) KVM_MEM_LOG_DIRTY_PAGES)) eqn:Hl;
      [apply nonzero_true in Hl; done|done]. }
  clearbody new1.
  set (created := if bool_decide (c = KVM_MR_CREATE) then _ else _) in Hrun.
  assert (log_or_no_bitmap created.2) as Hcreated.
  { subst created. case_bool_decide; [|done].
    by destruct (kvm_arch_create_memslot e _ np). }
  destruct created as [failed new2]. cbn in Hcreated.
  destruct failed; [by rewrite (out_free_memslots _ _ _ _ _ _ _ _ Hrun)|].
  destruct (nonzero (Z.land (flags new2) KVM_MEM_LOG_DIRTY_PAGES)
            && bool_decide (dirty_bitmap new2 = None)) eqn:Halloc.
  - apply andb_true_iff in Halloc as [Hlog _]. apply nonzero_true in Hlog.
    unfold kvm_create_dirty_bitmap in Hrun.
    destruct (kvzalloc_fails e);
      [by rewrite (out_free_memslots _ _ _ _ _ _ _ _ Hrun)|].
    eapply publish_region_log_or_no_bitmap in Hrun; [done|done|].
    by intros Hz.
  - by eapply publish_region_log_or_no_bitmap in Hrun.
Qed.

Lemma set_region_log_or_no_bitmap `{!SortPermutes} e k mem :
  no_log_no_bitmap (kvm_memslots_of k) →
  no_log_no_bitmap (kvm_memslots_of (__kvm_set_memory_region e k mem).1.2).
Proof.
  intros Hk. unfold __kvm_set_memory_region.
  repeat case_match; try done;
    match goal with
    | |- context [prepare_new_slot ?e ?k ?m ?o ?n ?np ?c] =>
        destruct (prepare_new_slot e k m o n np c) as [[r1 k1] tr1] eqn:Hp
    end;
    by eapply prepare_new_slot_log_or_no_bitmap in Hp.
Qed.

Lemma kvm_create_vm_no_bitmap : no_log_no_bitmap (kvm_memslots_of kvm_create_vm).
Proof.
  unfold no_log_no_bitmap. cbn. apply Forall_fmap, Forall_true. done.
Qed.

(** C6.  Marking frame [gfn] of a slot with a dirty bitmap sets the bit at
    index [gfn - base_gfn] of that bitmap and no other: after marking
    distinct frames of a slot whose bitmap was clean, kvm_get_dirty_log
    copies a bitmap in which bit [j] is set exactly when frame
    [base_gfn + j] was marked, so with as many bits set as frames were
    marked; it leaves [kvm], the live bitmap included, as it is, and sets
    [*is_dirty] when some bit is set (and leaves it to the caller
    otherwise).  A slot without the log flag has no bitmap (this holds in a
    new virtual machine and after every set-region request), and marking a
    frame of a slot without bitmap changes nothing. *)
Theorem dirty_log_exact :
  (∀ k s p gfns log_slot is_dirty,
     slot_in_range s → npages s < 2 ^ BITS_PER_LONG →
     log_slot < KVM_USER_MEM_SLOTS →
     id_to_memslot (kvm_memslots_of k) log_slot = s →
     dirty_bitmap s = Some p →
     kmem k !! p = Some (replicate (dirty_bitmap_words s) 0) →
     (∀ g, g ∈ gfns → gfn_to_memslot k g = Some s) →
     NoDup gfns →
     let k' := foldl mark_page_dirty k gfns in
     ∃ log,
       kvm_get_dirty_log false k' log_slot is_dirty
         = (0, k', Some log, if decide (gfns = []) then is_dirty else 1)
       ∧ (∀ j, 0 ≤ j → bitmap_bit j log = true ↔ base_gfn s + j ∈ gfns)
       ∧ bitmap_weight log = length gfns)
  ∧ (∀ k s gfn, dirty_bitmap s = None →
                mark_page_dirty_in_slot k (Some s) gfn = k)
  ∧ no_log_no_bitmap (kvm_memslots_of kvm_create_vm)
  ∧ (∀ e k mem, SortPermutes →
       no_log_no_bitmap (kvm_memslots_of k) →
       no_log_no_bitmap (kvm_memslots_of (__kvm_set_memory_region e k mem).1.2)).
Proof.
  split; [|split; [|split]].
  - intros k s p gfns log_slot is_dirty ????????.
    by apply (dirty_log_after_marking k s p).
  - intros k s gfn Hs. unfold mark_page_dirty_in_slot. by rewrite Hs.
  - apply kvm_create_vm_no_bitmap.
  - intros e k mem Hsort Hk. by apply set_region_log_or_no_bitmap.
Qed.

End DirtyLogFacts.

(** ** I/O-bus dispatch *)
Section IoBusFacts.
Context `{Platform}.

Lemma bsearch_loop_S {A} `{Inhabited A} fuel (cmp : A → A → Z) key base
    start end_ :
  bsearch_loop (S fuel) cmp key base start end_ =
    if (start <? end_)%nat then
      let mid := (start + (end_ - start) / 2)%nat in
      let result := cmp key (base !!! mid) in
      if result =? 0 then Some mid
      else if result <? 0 then bsearch_loop fuel cmp key base start mid
      else bsearch_loop fuel cmp key base (mid + 1)%nat end_
    else None.
Proof. done. Qed.

Lemma bsearch_loop_partitioned key rs i j fuel start end_ :
  partitioned key rs i j →
  (start ≤ i)%nat → (j ≤ end_ ≤ length rs)%nat → (end_ - start < fuel)%nat →
  (i < j → ∃ mid, bsearch_loop fuel kvm_io_bus_sort_cmp key rs start end_ = Some mid
                  ∧ i ≤ mid < j)%nat
  ∧ (i = j → bsearch_loop fuel kvm_io_bus_sort_cmp key rs start end_ = None).
Proof.
  intros (Hij & Hlo & Heq & Hhi). revert start end_.
  induction fuel as [|fuel IH]; intros start end_ Hs He Hfuel; [lia|].
  rewrite bsearch_loop_S.
  destruct (Nat.ltb_spec start end_) as [Hlt|Hge]; [|split; [intros; lia|done]].
  cbn zeta. set (mid := (start + (end_ - start) / 2)%nat).
  assert (start ≤ mid < end_)%nat as Hmid.
  { subst mid. pose proof (Nat.Div0.div_le_upper_bound (end_ - start) 2 (end_ - start)).
    pose proof (Nat.div_lt (end_ - start) 2). lia. }
  destruct (lookup_lt_is_Some_2 rs mid) as [r Hr]; [lia|].
  rewrite (list_lookup_total_correct _ _ _ Hr).
  destruct (decide (mid < i)%nat) as [Hbelow|Hnb].
  { pose proof (Hlo _ _ Hr Hbelow).
    destruct (Z.eqb_spec (kvm_io_bus_sort_cmp key r) 0); [lia|].
    destruct (Z.ltb_spec (kvm_io_bus_sort_cmp key r) 0); [lia|].
    apply IH; lia. }
  destruct (decide (mid < j)%nat) as [Hin|Hni].
  { rewrite (Heq _ _ Hr) by lia. cbn. split; [|lia].
    intros _. exists mid. split; [done|lia]. }
  pose proof (Hhi _ _ Hr ltac:(lia)).
  destruct (Z.eqb_spec (kvm_io_bus_sort_cmp key r) 0); [lia|].
  destruct (Z.ltb_spec (kvm_io_bus_sort_cmp key r) 0); [|lia].
  apply IH; lia.
Qed.

Lemma first_dev_back_partitioned key rs i j off :
  partitioned key rs i j → (i ≤ off ≤ j)%nat →
  first_dev_back key rs off = i.
Proof.
  intros (Hij & Hlo & Heq & Hhi).
  induction off as [|off IH]; intros Hoff; cbn; [lia|].
  destruct (lookup_lt_is_Some_2 rs off) as [r Hr]; [lia|].
  rewrite (list_lookup_total_correct _ _ _ Hr).
  destruct (decide (i ≤ off)%nat) as [Hge|Hlt].
  - rewrite (Heq _ _ Hr) by lia. cbn. apply IH. lia.
  - pose proof (Hlo _ _ Hr ltac:(lia)).
    destruct (Z.eqb_spec (kvm_io_bus_sort_cmp key r) 0); lia.
Qed.

Lemma get_first_dev_partitioned bus a l i j :
  partitioned (mk_range a l 0) (range bus) i j →
  kvm_io_bus_get_first_dev bus a l
  = if decide (i < j)%nat then Z.of_nat i else - ENOENT.
Proof.
  intros Hpart. unfold kvm_io_bus_get_first_dev, bsearch.
  destruct (bsearch_loop_partitioned _ _ i j (S (length (range bus))) 0
              (length (range bus)) Hpart) as [Hfound Hnone];
    [lia|destruct Hpart; lia|lia|].
  case_decide as Hij.
  - destruct (Hfound Hij) as (mid & -> & Hmid).
    by rewrite (first_dev_back_partitioned _ _ i j) by (done || lia).
  - destruct Hpart as (? & _). by rewrite Hnone by lia.
Qed.

Lemma spec_first_dev_partitioned key rs i j :
  partitioned key rs i j →
  spec_first_dev key rs = if decide (i < j)%nat then Some i else None.
Proof.
  intros (Hij & Hlo & Heq & Hhi). unfold spec_first_dev.
  case_decide as Hlt.
  - destruct (lookup_lt_is_Some_2 rs i) as [r Hr]; [lia|].
    assert (list_find (λ r, kvm_io_bus_sort_cmp key r = 0) rs = Some (i, r))
      as ->; [|done].
    apply list_find_Some. split; [done|]. split; [apply (Heq _ _ Hr); lia|].
    intros n y Hy Hn. pose proof (Hlo _ _ Hy Hn). lia.
  - assert (list_find (λ r, kvm_io_bus_sort_cmp key r = 0) rs = None)
      as ->; [|done].
    apply list_find_None, Forall_lookup. intros n r Hr.
    destruct (decide (n < i)%nat).
    + pose proof (Hlo _ _ Hr ltac:(lia)). lia.
    + pose proof (Hhi _ _ Hr ltac:(lia)). lia.
Qed.

(** A table without nested ranges is ordered with respect to every
    access. *)
Lemma strictly_ordered_partitioned key rs :
  strictly_ordered rs → ∃ i j, partitioned key rs i j.
Proof.
  unfold strictly_ordered.
  induction 1 as [|h t Hsorted IH Hh].
  { exists 0%nat, 0%nat. split; [cbn; lia|]. repeat split; intros n r Hr; done. }
  destruct IH as (i & j & Hij & Hlo & Heq & Hhi).
  rewrite Forall_forall in Hh.
  assert (∀ n r, t !! n = Some r →
            addr h < addr r ∧ range_end h < range_end r) as Hafter.
  { intros n r Hr. apply Hh. by eapply list_elem_of_lookup_2. }
  assert (∀ r, kvm_io_bus_sort_cmp key r =
               if addr key <? addr r then -1
               else if range_end r <? range_end key then 1 else 0) as Hcmp by done.
  destruct (Z.ltb_spec (addr key) (addr h)) as [Hbelow|Hge].
  - exists 0%nat, 0%nat. split; [cbn; lia|].
    split; [intros; lia|]. split; [intros; lia|].
    intros [|n] r Hr _; cbn in Hr; simplify_eq; rewrite Hcmp.
    + destruct (Z.ltb_spec (addr key) (addr r)); lia.
    + destruct (Hafter _ _ Hr). destruct (Z.ltb_spec (addr key) (addr r)); lia.
  - destruct (Z.ltb_spec (range_end h) (range_end key)) as [Hpast|Hin].
    + exists (S i), (S j). split; [cbn; lia|].
      split; [|split].
      * intros [|n] r Hr Hn; cbn in Hr; simplify_eq.
        -- rewrite Hcmp. destruct (Z.ltb_spec (addr key) (addr r)); [lia|].
           destruct (Z.ltb_spec (range_end r) (range_end key)); lia.
        -- apply (Hlo _ _ Hr). lia.
      * intros [|n] r Hr Hn; cbn in Hr; simplify_eq; [lia|].
        apply (Heq _ _ Hr). lia.
      * intros [|n] r Hr Hn; cbn in Hr; simplify_eq; [lia|].
        apply (Hhi _ _ Hr). lia.
    + assert (i = 0%nat) as ->.
      { destruct i as [|i]; [done|]. exfalso.
        destruct (lookup_lt_is_Some_2 t 0) as [r Hr]; [lia|].
        pose proof (Hlo _ _ Hr ltac:(lia)) as Hpos. destruct (Hafter _ _ Hr).
        rewrite Hcmp in Hpos.
        destruct (Z.ltb_spec (addr key) (addr r)); [lia|].
        destruct (Z.ltb_spec (range_end r) (range_end key)); lia. }
      exists 0%nat, (S j). split; [cbn; lia|].
      split; [intros; lia|]. split.
      * intros [|n] r Hr Hn; cbn in Hr; simplify_eq.
        -- rewrite Hcmp. destruct (Z.ltb_spec (addr key) (addr r)); [lia|].
           destruct (Z.ltb_spec (range_end r) (range_end key)); lia.
        -- apply (Heq _ _ Hr). lia.
      * intros [|n] r Hr Hn; cbn in Hr; simplify_eq; [lia|].
        apply (Hhi _ _ Hr). lia.
Qed.

(** What the forward scan does on the ranges it is started at. *)
Lemma bus_offer_run access key rs :
  let run := equal_run key rs in
  bus_offer access key rs =
    match list_find (λ r, access (dev r) (addr key) (len key) = 0) run with
    | Some (n, _) => (0, (λ r, EvOffer (dev r)) <$> take (S n) run)
    | None => (- EOPNOTSUPP, (λ r, EvOffer (dev r)) <$> run)
    end.
Proof.
  induction rs as [|r rs IH]; cbn; [done|].
  destruct (Z.eqb_spec (kvm_io_bus_sort_cmp key r) 0); [|done]. cbn.
  case_decide as Hacc.
  - rewrite Hacc. done.
  - apply Z.eqb_neq in Hacc. rewrite Hacc. cbn zeta in IH. rewrite IH.
    destruct (list_find _ (equal_run key rs)) as [[n r']|]; done.
Qed.

(** C5 (as amended).  On a bus table that is ordered with respect to the
    access, dispatch locates by binary search, and by stepping back over the
    equal ranges before the one found, the first range of the table that
    compares equal to the access; it then offers the access to that range
    and to the following ranges that still compare equal, in table order,
    until a device reports that it handled the access; when no range
    compares equal, or every device of the equal ranges declines, it returns
    -EOPNOTSUPP. *)
Theorem dispatch_on_partitioned_bus (access : Z → Z → Z → Z) (k : kvm)
    (bus_idx : kvm_bus) (a l : Z) (i j : nat) :
  let key := mk_range a l 0 in
  let rs := range (buses k bus_idx) in
  partitioned key rs i j →
  kvm_io_bus_dispatch access k bus_idx a l = spec_dispatch access k bus_idx a l
  ∧ spec_first_dev key rs = (if decide (i < j)%nat then Some i else None)
  ∧ kvm_io_bus_dispatch access k bus_idx a l =
      (if decide (i < j)%nat then
         let run := equal_run key (drop i rs) in
         match list_find (λ r, access (dev r) a l = 0) run with
         | Some (n, _) => (0, (λ r, EvOffer (dev r)) <$> take (S n) run)
         | None => (- EOPNOTSUPP, (λ r, EvOffer (dev r)) <$> run)
         end
       else (- EOPNOTSUPP, [])).
Proof.
  intros key rs Hpart.
  assert (kvm_io_bus_dispatch access k bus_idx a l
          = if decide (i < j)%nat then bus_offer access key (drop i rs)
            else (- EOPNOTSUPP, [])) as Hdisp.
  { unfold kvm_io_bus_dispatch.
    rewrite (get_first_dev_partitioned _ _ _ i j Hpart).
    case_decide; [|done].
    destruct (Z.ltb_spec (Z.of_nat i) 0); [lia|]. by rewrite Nat2Z.id. }
  split; [|split].
  - rewrite Hdisp. unfold spec_dispatch. fold key rs.
    rewrite (spec_first_dev_partitioned key rs i j Hpart). by case_decide.
  - by apply spec_first_dev_partitioned.
  - rewrite Hdisp. case_decide; [|done]. by rewrite bus_offer_run.
Qed.

End IoBusFacts.

(** ** Registration and removal of devices *)
Section IoBusTables.
Context `{Platform}.

Lemma first_range_of_Some d rs i :
  first_range_of d rs = Some i →
  ∃ r, rs !! i = Some r ∧ dev r = d
       ∧ ∀ j r', (j < i)%nat → rs !! j = Some r' → dev r' ≠ d.
Proof.
  revert i. induction rs as [|r rs IH]; intros i; cbn; [done|].
  destruct (Z.eqb_spec (dev r) d) as [Heq|Hne].
  - intros [= <-]. exists r. split; [done|]. split; [done|]. intros; lia.
  - destruct (first_range_of d rs) as [i'|]; [|done]. intros [= <-].
    destruct (IH i' eq_refl) as (r0 & Hr0 & Hd & Hbefore).
    exists r0. split; [done|]. split; [done|].
    intros [|j] r' Hj Hr'; cbn in Hr'; simplify_eq; [done|].
    apply (Hbefore j); [lia|done].
Qed.

Lemma first_range_of_None d rs :
  first_range_of d rs = None ↔ Forall (λ r, dev r ≠ d) rs.
Proof.
  induction rs as [|r rs IH]; cbn; [by split; [constructor|]|].
  destruct (Z.eqb_spec (dev r) d) as [Heq|Hne].
  - split; [done|]. intros Hall. by apply Forall_cons in Hall as [? _].
  - destruct (first_range_of d rs) as [i'|]; cbn.
    + split; [done|]. intros Hall. apply Forall_cons in Hall as [_ Hall].
      by apply IH in Hall.
    + split; [|done]. intros _. constructor; [done|]. by apply IH.
Qed.

Lemma set_bus_same k b bus : buses (set_bus k b bus) b = bus.
Proof. cbn. by case_decide. Qed.

Lemma set_bus_other k b b' bus : b' ≠ b → buses (set_bus k b bus) b' = buses k b'.
Proof. intros. cbn. by case_decide. Qed.

Lemma unregister_copy_is_delete (rs : list kvm_io_range) i :
  (i < length rs)%nat →
  take i rs ++ take (length rs - 1 - i) (drop (S i) rs) = delete i rs.
Proof.
  intros Hi. rewrite (take_ge (drop (S i) rs)); [|rewrite length_drop; lia].
  by rewrite delete_take_drop.
Qed.

Lemma StronglySorted_delete {A} (R : relation A) (l : list A) i :
  StronglySorted R l → StronglySorted R (delete i l).
Proof.
  intros Hl. revert i. induction Hl as [|x l Hl IH Hx]; intros [|i]; cbn;
    [constructor|constructor|done|].
  constructor; [apply IH|]. by apply Forall_delete.
Qed.

Lemma insert_dev_perm `{!SortPermutes} bus d a l :
  range (kvm_io_bus_insert_dev bus d a l) ≡ₚ mk_range a l d :: range bus.
Proof.
  unfold kvm_io_bus_insert_dev. cbn [range]. rewrite sort_perm.
  by rewrite Permutation_app_comm.
Qed.

Lemma unregister_dev_found k bus_idx d i :
  first_range_of d (range (buses k bus_idx)) = Some i →
  kvm_io_bus_unregister_dev false k bus_idx d
  = (0, set_bus k bus_idx (mk_bus (delete i (range (buses k bus_idx))))).
Proof.
  intros Hfind. unfold kvm_io_bus_unregister_dev. rewrite Hfind.
  destruct (first_range_of_Some _ _ _ Hfind) as (r & Hr & _).
  rewrite unregister_copy_is_delete by by eapply lookup_lt_Some. done.
Qed.

Lemma first_range_of_Exists d rs :
  Exists (λ r, dev r = d) rs → ∃ i, first_range_of d rs = Some i.
Proof.
  intros Hex. destruct (first_range_of d rs) as [i|] eqn:Hfind; [by exists i|].
  apply first_range_of_None in Hfind. apply Exists_exists in Hex
    as (r & Hr & Hd). rewrite Forall_forall in Hfind. by destruct (Hfind r Hr).
Qed.

(** X1.  Registration of a device.  With room on the bus and memory for the
    new table the call returns 0, the table of that bus holds the ranges it
    held and the new one, one range more and never more than NR_IOBUS_DEVS,
    and the other buses are as before.  In every other case the virtual
    machine is left as it was: -ENOSPC when the bus already has
    NR_IOBUS_DEVS ranges, -ENOMEM otherwise. *)
Theorem register_dev_adds_one_range `{!SortPermutes} (kzalloc_fails : bool)
    (k : kvm) (bus_idx : kvm_bus) (a l d : Z) :
  let res := kvm_io_bus_register_dev kzalloc_fails k bus_idx a l d in
  let bus := buses k bus_idx in
  (res.1 = 0 ↔ dev_count bus < NR_IOBUS_DEVS ∧ kzalloc_fails = false)
  ∧ (res.1 = 0 →
     range (buses res.2 bus_idx) ≡ₚ mk_range a l d :: range bus
     ∧ dev_count (buses res.2 bus_idx) = dev_count bus + 1
     ∧ dev_count (buses res.2 bus_idx) ≤ NR_IOBUS_DEVS
     ∧ ∀ b, b ≠ bus_idx → buses res.2 b = buses k b)
  ∧ (res.1 ≠ 0 →
     res.2 = k
     ∧ res.1 = if bool_decide (NR_IOBUS_DEVS ≤ dev_count bus)
               then - ENOSPC else - ENOMEM).
Proof.
  intros res bus. subst res. unfold kvm_io_bus_register_dev. fold bus.
  destruct (Z.ltb_spec (NR_IOBUS_DEVS - 1) (dev_count bus)) as [Hfull|Hroom].
  { cbn [fst snd]. split; [split; [done|lia]|]. split; [done|].
    intros _. split; [done|]. rewrite bool_decide_eq_true_2; [done|lia]. }
  destruct kzalloc_fails; cbn [fst snd].
  { split; [split; [done|intros [_ ?]; done]|]. split; [done|].
    intros _. split; [done|]. rewrite bool_decide_eq_false_2; [done|lia]. }
  split; [split; [intros _; split; [lia|done]|done]|]. split; [|done].
  intros _. rewrite set_bus_same.
  pose proof (insert_dev_perm bus d a l) as Hperm.
  assert (dev_count (kvm_io_bus_insert_dev bus d a l) = dev_count bus + 1)
    as Hcount.
  { unfold dev_count. rewrite Hperm. cbn [length]. lia. }
  split; [done|]. split; [done|]. split; [lia|].
  intros b Hb. by apply set_bus_other.
Qed.

(** X2.  Removal of a device fails with -ENOENT exactly when no range of the
    bus belongs to the device, whether or not memory could be had; the
    virtual machine is then left as it was. *)
Theorem unregister_dev_absent (kzalloc_fails : bool) (k : kvm)
    (bus_idx : kvm_bus) (d : Z) :
  Forall (λ r, dev r ≠ d) (range (buses k bus_idx)) ↔
  kvm_io_bus_unregister_dev kzalloc_fails k bus_idx d = (- ENOENT, k).
Proof.
  unfold kvm_io_bus_unregister_dev. rewrite <- first_range_of_None.
  destruct (first_range_of d (range (buses k bus_idx))) as [i|]; [|done].
  split; [done|]. destruct kzalloc_fails; intros [= Herr]; done.
Qed.

(** X3.  Removal of a device that has a range on the bus, with memory for
    the new table: the call returns 0 and the new table is the old one
    without the first range of that device; the ranges before and after it
    are kept in their order, the bus has one range less, and the other buses
    are as before.  Further ranges of the same device stay registered. *)
Theorem unregister_dev_removes_first (k : kvm) (bus_idx : kvm_bus) (d : Z) :
  let rs := range (buses k bus_idx) in
  let res := kvm_io_bus_unregister_dev false k bus_idx d in
  Exists (λ r, dev r = d) rs →
  ∃ i r,
    rs !! i = Some r ∧ dev r = d
    ∧ (∀ j r', (j < i)%nat → rs !! j = Some r' → dev r' ≠ d)
    ∧ res.1 = 0
    ∧ range (buses res.2 bus_idx) = delete i rs
    ∧ dev_count (buses res.2 bus_idx) = dev_count (buses k bus_idx) - 1
    ∧ ∀ b, b ≠ bus_idx → buses res.2 b = buses k b.
Proof.
  intros rs res Hex. subst res.
  destruct (first_range_of_Exists _ _ Hex) as [i Hfind].
  rewrite (unregister_dev_found _ _ _ _ Hfind). fold rs.
  destruct (first_range_of_Some _ _ _ Hfind) as (r & Hr & Hd & Hbefore).
  exists i, r. cbn [fst snd]. rewrite set_bus_same. cbn [range].
  pose proof (lookup_lt_Some _ _ _ Hr) as Hi.
  repeat split; try done.
  - unfold dev_count. cbn [range]. fold rs. rewrite length_delete by eauto. lia.
  - intros b Hb. by apply set_bus_other.
Qed.

(** X4.  A table whose ranges start and end in ascending order, none
    containing another, is still one after a removal, whatever the call
    returns: dispatch on the new table finds the first matching range. *)
Theorem unregister_dev_keeps_order (kzalloc_fails : bool) (k : kvm)
    (bus_idx : kvm_bus) (d : Z) :
  strictly_ordered (range (buses k bus_idx)) →
  strictly_ordered
    (range (buses (kvm_io_bus_unregister_dev kzalloc_fails k bus_idx d).2
                  bus_idx)).
Proof.
  intros Hord. unfold kvm_io_bus_unregister_dev.
  destruct (first_range_of d _) as [i|] eqn:Hfind; [|done].
  destruct kzalloc_fails; [done|]. cbn [snd]. rewrite set_bus_same. cbn [range].
  destruct (first_range_of_Some _ _ _ Hfind) as (r & Hr & _).
  rewrite unregister_copy_is_delete by by eapply lookup_lt_Some.
  by apply StronglySorted_delete.
Qed.

(** X5.  Registering a device that has no range on the bus yet and removing
    it again gives back the ranges the bus had (in the order the sort left
    them); the other buses are not touched. *)
Theorem register_unregister_round_trip `{!SortPermutes} (k : kvm)
    (bus_idx : kvm_bus) (a l d : Z) :
  let k1 := (kvm_io_bus_register_dev false k bus_idx a l d).2 in
  let res := kvm_io_bus_unregister_dev false k1 bus_idx d in
  dev_count (buses k bus_idx) < NR_IOBUS_DEVS →
  Forall (λ r, dev r ≠ d) (range (buses k bus_idx)) →
  res.1 = 0
  ∧ range (buses res.2 bus_idx) ≡ₚ range (buses k bus_idx)
  ∧ ∀ b, b ≠ bus_idx → buses res.2 b = buses k b.
Proof.
  intros k1 res Hroom Hfresh.
  assert (k1 = set_bus k bus_idx
                 (kvm_io_bus_insert_dev (buses k bus_idx) d a l)) as Hk1.
  { subst k1. unfold kvm_io_bus_register_dev.
    destruct (Z.ltb_spec (NR_IOBUS_DEVS - 1) (dev_count (buses k bus_idx)));
      [lia|done]. }
  pose proof (insert_dev_perm (buses k bus_idx) d a l) as Hperm.
  assert (range (buses k1 bus_idx) ≡ₚ mk_range a l d :: range (buses k bus_idx))
    as Hperm1 by by rewrite Hk1, set_bus_same.
  destruct (first_range_of_Exists d (range (buses k1 bus_idx))) as [i Hfind].
  { apply Exists_exists. exists (mk_range a l d). split; [|done].
    rewrite Hperm1. apply list_elem_of_here. }
  subst res. rewrite (unregister_dev_found _ _ _ _ Hfind). cbn [fst snd].
  destruct (first_range_of_Some _ _ _ Hfind) as (r & Hr & Hd & _).
  split; [done|]. split.
  - rewrite set_bus_same. cbn [range].
    assert (r = mk_range a l d) as ->.
    { pose proof Hr as Hin. apply list_elem_of_lookup_2 in Hin.
      rewrite Hperm1 in Hin.
      apply elem_of_cons in Hin as [->|Hin]; [done|].
      rewrite Forall_forall in Hfresh. by destruct (Hfresh r Hin). }
    apply (Permutation_cons_inv (a := mk_range a l d)).
    rewrite <- Hperm1. symmetry. by apply delete_Permutation.
  - intros b Hb. rewrite set_bus_other by done. rewrite Hk1.
    by apply set_bus_other.
Qed.

Lemma bus_offer_sound access key rs ret tr :
  bus_offer access key rs = (ret, tr) →
  Forall (λ ev, ∃ r, r ∈ rs ∧ ev = EvOffer (dev r)
                     ∧ kvm_io_bus_sort_cmp key r = 0) tr
  ∧ (ret = 0 →
     ∃ d', last tr = Some (EvOffer d') ∧ access d' (addr key) (len key) = 0)
  ∧ (ret ≠ 0 →
     ret = - EOPNOTSUPP
     ∧ Forall (λ ev, ∀ d', ev = EvOffer d' →
                           access d' (addr key) (len key) ≠ 0) tr).
Proof.
  revert ret tr. induction rs as [|r rs IH]; intros ret tr; cbn.
  { intros [= <- <-]. split; [constructor|]. split; [done|]. by split. }
  destruct (Z.eqb_spec (kvm_io_bus_sort_cmp key r) 0) as [Hcmp|Hcmp].
  2:{ intros [= <- <-]. split; [constructor|]. split; [done|]. by split. }
  destruct (Z.eqb_spec (access (dev r) (addr key) (len key)) 0) as [Hacc|Hacc].
  { intros [= <- <-]. split.
    - constructor; [|constructor]. exists r. split; [apply list_elem_of_here|done].
    - split; [|done]. intros _. by exists (dev r). }
  destruct (bus_offer access key rs) as [ret' tr'] eqn:Hrest.
  intros [= <- <-]. destruct (IH _ _ eq_refl) as (Hall & Hzero & Hfail).
  split; [|split].
  - constructor.
    + exists r. split; [apply list_elem_of_here|done].
    + eapply Forall_impl; [exact Hall|]. intros ev (r' & Hr' & Hev & Hc).
      exists r'. split; [by apply list_elem_of_further|done].
  - intros Hret. destruct (Hzero Hret) as (d' & Hlast & Hd').
    exists d'. split; [|done]. destruct tr'; [done|]. exact Hlast.
  - intros Hret. destruct (Hfail Hret) as [-> Hdecl]. split; [done|].
    constructor; [|done]. by intros d' [= <-].
Qed.

Lemma sort_cmp_within key r :
  kvm_io_bus_sort_cmp key r = 0 ↔ access_within (addr key) (len key) r.
Proof.
  unfold kvm_io_bus_sort_cmp, access_within.
  destruct (Z.ltb_spec (addr key) (addr r));
    destruct (Z.ltb_spec (u64 (addr r + len r)) (u64 (addr key + len key)));
    split; intros; lia.
Qed.

(** X6.  Dispatch never offers an access to a device whose registered range
    does not contain it, whatever the order of the table.  When it returns 0,
    the device offered last handled the access; otherwise it returns
    -EOPNOTSUPP and every device that was offered the access declined. *)
Theorem dispatch_offers_within_range (access : Z → Z → Z → Z) (k : kvm)
    (bus_idx : kvm_bus) (a l : Z) :
  let res := kvm_io_bus_dispatch access k bus_idx a l in
  Forall (λ ev, ∃ r, r ∈ range (buses k bus_idx) ∧ ev = EvOffer (dev r)
                     ∧ access_within a l r) res.2
  ∧ (res.1 = 0 → ∃ d', last res.2 = Some (EvOffer d') ∧ access d' a l = 0)
  ∧ (res.1 ≠ 0 →
     res.1 = - EOPNOTSUPP
     ∧ Forall (λ ev, ∀ d', ev = EvOffer d' → access d' a l ≠ 0) res.2).
Proof.
  intros res. subst res. unfold kvm_io_bus_dispatch.
  destruct (_ <? 0).
  { cbn. split; [constructor|]. split; [done|]. by split. }
  destruct (bus_offer _ _ _) as [ret tr] eqn:Hrun.
  destruct (bus_offer_sound _ _ _ _ _ Hrun) as (Hall & Hzero & Hfail).
  cbn [fst snd addr len] in *. split; [|done].
  eapply Forall_impl; [exact Hall|]. intros ev (r & Hr & Hev & Hc).
  exists r. split; [|split; [done|]].
  - apply list_elem_of_lookup in Hr as [n Hn]. rewrite lookup_drop in Hn.
    by eapply list_elem_of_lookup_2.
  - by apply (sort_cmp_within (mk_range a l 0)).
Qed.

End IoBusTables.

(** ** The slot table across requests *)
Section TableShape.
Context `{Platform}.

(** The table a set-region request leaves active: the one it found, or the
    transitional one of a failed DELETE or MOVE, or the one it found with
    the slot of the request replaced. *)
Lemma publish_region_table e k mem old new c tr0 r k' tr :
  publish_region e k mem old new c tr0 = (r, k', tr) →
  (r ≠ 0
   ∧ (kvm_memslots_of k' = kvm_memslots_of k
      ∨ kvm_memslots_of k' = invalidated (kvm_memslots_of k) (mem_slot mem)))
  ∨ (r = 0
     ∧ ∃ g, kvm_memslots_of k'
            = update_memslots (kvm_memslots_of k)
                (Some (if bool_decide (c = KVM_MR_DELETE)
                       then set_arch (set_dirty_bitmap new None) 0 else new)) g).
Proof.
  intros Hrun.
  unfold publish_region, out_slots, out_free, install_new_memslots,
    kvm_free_physmem_slot, kvm_destroy_dirty_bitmap in Hrun.
  repeat case_match; simplify_eq; cbn [kvm_memslots_of set_kmem set_memslots];
    first [ left; split;
            [ first [ by apply nonzero_true | discriminate ]
            | first [ by left | by right ] ]
          | right; split; [done|]; eexists; reflexivity ].
Qed.

Lemma prepare_new_slot_table e k mem old new0 np c r k' tr :
  prepare_new_slot e k mem old new0 np c = (r, k', tr) →
  (r ≠ 0
   ∧ (kvm_memslots_of k' = kvm_memslots_of k
      ∨ kvm_memslots_of k' = invalidated (kvm_memslots_of k) (mem_slot mem)))
  ∨ (r = 0
     ∧ ∃ g new, base_gfn new = base_gfn new0 ∧ npages new = npages new0
                ∧ flags new = flags new0 ∧ id new = id new0
                ∧ kvm_memslots_of k'
                  = update_memslots (kvm_memslots_of k) (Some new) g).
Proof.
  intros Hrun. unfold prepare_new_slot in Hrun.
  set (new1 := if nonzero (Z.land (flags new0) KVM_MEM_LOG_DIRTY_PAGES)
               then new0 else set_dirty_bitmap new0 None) in Hrun.
  assert (base_gfn new1 = base_gfn new0 ∧ npages new1 = npages new0
          ∧ flags new1 = flags new0 ∧ id new1 = id new0) as Hnew1.
  { subst new1.
    by destruct (nonzero (Z.land (flags new0) KVM_MEM_LOG_DIRTY_PAGES)). }
  clearbody new1.
  set (created := if bool_decide (c = KVM_MR_CREATE) then _ else _) in Hrun.
  assert (base_gfn created.2 = base_gfn new0 ∧ npages created.2 = npages new0
          ∧ flags created.2 = flags new0 ∧ id created.2 = id new0) as Hcreated.
  { subst created. case_bool_decide; [|done].
    by destruct (kvm_arch_create_memslot e _ np). }
  destruct created as [failed new2]. cbn [snd] in Hcreated.
  assert (∀ k0 new tr0,
            kvm_memslots_of k0 = kvm_memslots_of k →
            base_gfn new = base_gfn new0 ∧ npages new = npages new0
            ∧ flags new = flags new0 ∧ id new = id new0 →
            publish_region e k0 mem old new c tr0 = (r, k', tr) →
            (r ≠ 0
             ∧ (kvm_memslots_of k' = kvm_memslots_of k
                ∨ kvm_memslots_of k'
                  = invalidated (kvm_memslots_of k) (mem_slot mem)))
            ∨ (r = 0
               ∧ ∃ g new, base_gfn new = base_gfn new0 ∧ npages new = npages new0
                          ∧ flags new = flags new0 ∧ id new = id new0
                          ∧ kvm_memslots_of k'
                            = update_memslots (kvm_memslots_of k) (Some new) g))
    as Hpub.
  { intros k0 new tr0 Hk0 Hgeo Hp.
    apply publish_region_table in Hp. rewrite Hk0 in Hp.
    destruct Hp as [?|(Hr & g & Hg)]; [by left|]. right. split; [done|].
    exists g, (if bool_decide (c = KVM_MR_DELETE)
               then set_arch (set_dirty_bitmap new None) 0 else new).
    destruct Hgeo as (? & ? & ? & ?). by case_bool_decide. }
  destruct failed.
  { left. rewrite (out_free_memslots _ _ _ _ _ _ _ _ Hrun).
    unfold out_free in Hrun. destruct (kvm_free_physmem_slot _ _ _).
    simplify_eq. split; [done|by left]. }
  destruct (nonzero (Z.land (flags new2) KVM_MEM_LOG_DIRTY_PAGES)
            && bool_decide (dirty_bitmap new2 = None)).
  - unfold kvm_create_dirty_bitmap in Hrun.
    destruct (kvzalloc_fails e).
    { left. rewrite (out_free_memslots _ _ _ _ _ _ _ _ Hrun).
      unfold out_free in Hrun. destruct (kvm_free_physmem_slot _ _ _).
      simplify_eq. split; [done|by left]. }
    by eapply Hpub in Hrun.
  - by eapply Hpub in Hrun.
Qed.

(** What the classification says of the page count and base frame of the
    request, compared with the slot that is there. *)
Lemma classify_geometry m old new b n c :
  classify m old new b n = Change c →
  match c with
  | KVM_MR_CREATE => n ≠ 0 ∧ npages old = 0
  | KVM_MR_MOVE => n ≠ 0 ∧ n = npages old
  | KVM_MR_FLAGS_ONLY => n = npages old ∧ b = base_gfn old
  | KVM_MR_DELETE => n = 0
  end.
Proof.
  unfold classify, nonzero.
  destruct (Z.eqb_spec n 0), (Z.eqb_spec (npages old) 0); cbn;
    try (intros [= <-]; done).
  destruct (Z.eqb_spec (mem_userspace_addr m) (userspace_addr old)); cbn; [|done].
  destruct (Z.eqb_spec n (npages old)); cbn; [|done].
  destruct (Z.land _ _ =? 0); cbn; [|done].
  destruct (Z.eqb_spec b (base_gfn old)); cbn; [|by intros [= <-]].
  destruct (flags new =? flags old); cbn; [done|]. by intros [= <-].
Qed.

Lemma classify_nothing m old new b n :
  classify m old new b n = NothingToChange →
  n ≠ 0 ∧ n = npages old ∧ b = base_gfn old ∧ flags new = flags old.
Proof.
  unfold classify, nonzero.
  destruct (Z.eqb_spec n 0), (Z.eqb_spec (npages old) 0); cbn; try done.
  destruct (Z.eqb_spec (mem_userspace_addr m) (userspace_addr old)); cbn; [|done].
  destruct (Z.eqb_spec n (npages old)); cbn; [|done].
  destruct (Z.land _ _ =? 0); cbn; [|done].
  destruct (Z.eqb_spec b (base_gfn old)); cbn; [|done].
  by destruct (Z.eqb_spec (flags new) (flags old)).
Qed.

Lemma set_region_table e k mem r k' tr :
  __kvm_set_memory_region e k mem = (r, k', tr) →
  let old := id_to_memslot (kvm_memslots_of k) (mem_slot mem) in
  (r ≠ 0 ∧ kvm_memslots_of k' = kvm_memslots_of k)
  ∨ (r ≠ 0 ∧ sanity_checks e mem = 0
     ∧ kvm_memslots_of k' = invalidated (kvm_memslots_of k) (mem_slot mem))
  ∨ (r = 0 ∧ sanity_checks e mem = 0
     ∧ kvm_memslots_of k' = kvm_memslots_of k
     ∧ req_npages mem ≠ 0 ∧ req_npages mem = npages old
     ∧ req_base_gfn mem = base_gfn old ∧ req_flags mem = flags old)
  ∨ (r = 0 ∧ sanity_checks e mem = 0
     ∧ ∃ c g new,
         base_gfn new = req_base_gfn mem ∧ npages new = req_npages mem
         ∧ flags new = req_flags mem ∧ id new = mem_slot mem
         ∧ match c with
           | KVM_MR_CREATE => req_npages mem ≠ 0 ∧ npages old = 0
           | KVM_MR_MOVE => req_npages mem ≠ 0 ∧ req_npages mem = npages old
           | KVM_MR_FLAGS_ONLY =>
               req_npages mem = npages old ∧ req_base_gfn mem = base_gfn old
           | KVM_MR_DELETE => req_npages mem = 0
           end
         ∧ (c = KVM_MR_CREATE ∨ c = KVM_MR_MOVE →
            region_in_use (kvm_memslots_of k)
              (set_mem_flags mem (req_flags mem))
              (req_base_gfn mem) (req_npages mem) = false)
         ∧ kvm_memslots_of k'
           = update_memslots (kvm_memslots_of k) (Some new) g).
Proof.
  intros Hrun old.
  destruct (decide (sanity_checks e mem = 0)) as [Hok|Hbad].
  2:{ unfold __kvm_set_memory_region in Hrun.
      rewrite (proj2 (nonzero_true _) Hbad) in Hrun. simplify_eq. by left. }
  rewrite set_region_after_sanity in Hrun by done. cbn zeta in Hrun.
  fold old in Hrun.
  destruct (classify _ _ _ _ _) as [c| |] eqn:Hc.
  - apply classify_geometry in Hc.
    destruct (bool_decide (c = KVM_MR_CREATE ∨ c = KVM_MR_MOVE)
              && region_in_use _ _ _ _) eqn:Huse; [simplify_eq; by left|].
    apply prepare_new_slot_table in Hrun.
    destruct Hrun as [[Hr [?|?]]|(Hr & g & new & Hb & Hn & Hf & Hi & Htable)];
      [by left|right; by left|].
    do 3 right. split; [done|]. split; [done|].
    exists c, g, new. cbn in Hb, Hn, Hf, Hi. split_and!; try done.
    intros Hcm. apply andb_false_iff in Huse as [Hdec|Huse]; [|done].
    by apply bool_decide_eq_false in Hdec.
  - apply classify_nothing in Hc as (Hn & Hnp & Hb & Hf). cbn in Hf.
    simplify_eq. right. right. left. by split_and!.
  - simplify_eq. by left.
Qed.

End TableShape.

(** The table invariants: kept by the replacement of a slot. *)
Section TableInvariants.
Context `{Platform}.

Lemma frames_intersect_sym s t :
  frames_intersect (base_gfn s) (npages s) t
  ↔ frames_intersect (base_gfn t) (npages t) s.
Proof. unfold frames_intersect. lia. Qed.

Lemma frames_intersect_empty b s : ¬ frames_intersect b 0 s.
Proof. unfold frames_intersect. lia. Qed.

(** The invariant of the id index looks at the ids of the slots only. *)
Lemma ids_consistent_same_ids g g' ms ms' idx :
  id <$> ms' = id <$> ms →
  ids_consistent (mk_memslots g ms idx) →
  ids_consistent (mk_memslots g' ms' idx).
Proof.
  intros Hids (Hlen & Hlenm & Hfwd & Hbwd). unfold ids_consistent in *.
  cbn [memslots id_to_index] in *.
  split; [done|]. split.
  { by rewrite <- (length_fmap id ms'), Hids, length_fmap. }
  split.
  - intros i s Hs.
    assert ((id <$> ms) !! i = Some (id s)) as Hi.
    { by rewrite <- Hids, list_lookup_fmap, Hs. }
    rewrite list_lookup_fmap in Hi.
    destruct (ms !! i) as [s0|] eqn:Hs0; [|done]. cbn in Hi. simplify_eq.
    rewrite <- Hi. by apply Hfwd.
  - intros j v Hv. destruct (Hbwd j v Hv) as (Hpos & s0 & Hs0 & Hj).
    split; [done|].
    assert ((id <$> ms') !! Z.to_nat v = Some (id s0)) as Hi.
    { by rewrite Hids, list_lookup_fmap, Hs0. }
    rewrite list_lookup_fmap in Hi.
    destruct (ms' !! Z.to_nat v) as [s|] eqn:Hs; [|done]. cbn in Hi.
    exists s. split; [done|]. congruence.
Qed.

Lemma ids_consistent_index slots j :
  ids_consistent slots → 0 ≤ j < KVM_MEM_SLOTS_NUM →
  ∃ s, memslots slots !! id_to_memslot_index slots j = Some s ∧ id s = j
       ∧ id_to_memslot slots j = s.
Proof.
  intros (Hlen & Hlenm & Hfwd & Hbwd) Hj.
  destruct (lookup_lt_is_Some_2 (id_to_index slots) (Z.to_nat j)) as [v Hv];
    [lia|].
  destruct (Hbwd _ _ Hv) as (Hpos & s & Hs & Hid).
  unfold id_to_memslot, id_to_memslot_index. rewrite Hv. cbn.
  exists s. split; [done|]. split; [lia|].
  by apply list_lookup_total_correct.
Qed.

Lemma ids_consistent_position slots i s :
  ids_consistent slots → memslots slots !! i = Some s →
  0 ≤ id s < KVM_MEM_SLOTS_NUM ∧ id_to_memslot_index slots (id s) = i
  ∧ id_to_memslot slots (id s) = s.
Proof.
  intros (Hlen & Hlenm & Hfwd & Hbwd) Hs.
  destruct (Hfwd _ _ Hs) as [Hpos Hidx].
  pose proof (lookup_lt_Some _ _ _ Hidx) as Hlt.
  unfold id_to_memslot, id_to_memslot_index. rewrite Hidx. cbn.
  rewrite Nat2Z.id. split; [lia|]. split; [done|].
  by apply list_lookup_total_correct.
Qed.

Lemma insert_same_id slots new :
  ids_consistent slots → 0 ≤ id new < KVM_MEM_SLOTS_NUM →
  id <$> <[id_to_memslot_index slots (id new) := new]> (memslots slots)
  = id <$> memslots slots.
Proof.
  intros Hc Hid. destruct (ids_consistent_index _ _ Hc Hid) as (s & Hs & Hids & _).
  rewrite list_fmap_insert. apply list_insert_id.
  by rewrite list_lookup_fmap, Hs, <- Hids.
Qed.

(** The second loop of sort_memslots. *)
Lemma rebuild_index (ms : list kvm_memory_slot) (idx : list Z) n :
  (∀ i i' s s', ms !! i = Some s → ms !! i' = Some s' → id s = id s' → i = i') →
  (∀ i s, ms !! i = Some s → 0 ≤ id s ∧ (Z.to_nat (id s) < length idx)%nat) →
  (n ≤ length ms)%nat →
  let idx' := foldl (λ tbl i, <[Z.to_nat (id (ms !!! i)) := Z.of_nat i]> tbl)
                    idx (seq 0 n) in
  length idx' = length idx
  ∧ (∀ i s, (i < n)%nat → ms !! i = Some s →
            idx' !! Z.to_nat (id s) = Some (Z.of_nat i))
  ∧ (∀ j, (∀ i s, (i < n)%nat → ms !! i = Some s → Z.to_nat (id s) ≠ j) →
          idx' !! j = idx !! j).
Proof.
  intros Hinj Hrange. induction n as [|n IH]; intros Hn; cbn zeta.
  { cbn. split; [done|]. split; [intros; lia|done]. }
  rewrite seq_S, foldl_app. cbn [foldl plus].
  cbn zeta in IH. destruct IH as (Hlen & Hin & Hout); [lia|].
  set (idx' := foldl _ idx (seq 0 n)) in *.
  destruct (lookup_lt_is_Some_2 ms n) as [sn Hsn]; [lia|].
  rewrite (list_lookup_total_correct _ _ _ Hsn).
  split; [by rewrite length_insert|]. split.
  - intros i s Hi Hs. destruct (decide (i = n)) as [->|Hne].
    + simplify_eq. apply list_lookup_insert_eq. rewrite Hlen. by apply (Hrange n).
    + rewrite list_lookup_insert_ne; [apply Hin; [lia|done]|].
      intros Heq. apply Hne. apply (Hinj _ _ _ _ Hs Hsn).
      destruct (Hrange _ _ Hs), (Hrange _ _ Hsn). lia.
  - intros j Hj.
    rewrite list_lookup_insert_ne; [|by apply (Hj n); [lia|]].
    apply Hout. intros i s Hi. apply Hj. lia.
Qed.

Lemma ids_consistent_injective slots i i' s s' :
  ids_consistent slots →
  memslots slots !! i = Some s → memslots slots !! i' = Some s' →
  id s = id s' → i = i'.
Proof.
  intros (_ & _ & Hfwd & _) Hs Hs' Hid.
  destruct (Hfwd _ _ Hs) as [_ Hi]. destruct (Hfwd _ _ Hs') as [_ Hi'].
  rewrite Hid in Hi. simplify_eq. lia.
Qed.

Lemma ids_consistent_NoDup slots :
  ids_consistent slots → NoDup (id <$> memslots slots).
Proof.
  intros Hc. apply NoDup_alt. intros i j x Hi Hj.
  rewrite list_lookup_fmap in Hi, Hj.
  destruct (memslots slots !! i) as [s|] eqn:Hs; [|done].
  destruct (memslots slots !! j) as [s'|] eqn:Hs'; [|done].
  cbn in Hi, Hj. simplify_eq. by eapply ids_consistent_injective.
Qed.

Section Sorting.
Context `{!SortPermutes}.

Lemma sort_memslots_ids_consistent slots :
  ids_consistent slots → ids_consistent (sort_memslots slots).
Proof.
  intros Hc. pose proof Hc as (Hlen & Hlenm & Hfwd & Hbwd).
  unfold sort_memslots.
  set (ms' := sort cmp_memslot (memslots slots)).
  assert (ms' ≡ₚ memslots slots) as Hperm by apply sort_perm.
  assert (length ms' = Z.to_nat KVM_MEM_SLOTS_NUM) as Hlen' by by rewrite Hperm.
  assert (∀ i i' s s', ms' !! i = Some s → ms' !! i' = Some s' →
                       id s = id s' → i = i') as Hinj.
  { intros i i' s s' Hs Hs' Hid.
    assert (NoDup (id <$> ms')) as Hnd.
    { rewrite Hperm. by apply ids_consistent_NoDup. }
    eapply (NoDup_lookup _ i i' (id s) Hnd);
      rewrite list_lookup_fmap; [by rewrite Hs|by rewrite Hs', Hid]. }
  assert (∀ i s, ms' !! i = Some s →
                 0 ≤ id s ∧ (Z.to_nat (id s) < length (id_to_index slots))%nat)
    as Hrange.
  { intros i s Hs. apply list_elem_of_lookup_2 in Hs. rewrite Hperm in Hs.
    apply list_elem_of_lookup in Hs as [i0 Hs0].
    destruct (Hfwd _ _ Hs0) as [Hpos Hidx]. split; [done|].
    by eapply lookup_lt_Some. }
  destruct (rebuild_index ms' (id_to_index slots) (Z.to_nat KVM_MEM_SLOTS_NUM)
              Hinj Hrange ltac:(lia)) as (Hl & Hin & Hout).
  unfold ids_consistent. cbn [memslots id_to_index].
  split; [by rewrite Hl|]. split; [done|]. split.
  - intros i s Hs. split; [by apply (Hrange i)|].
    apply Hin; [|done]. apply lookup_lt_Some in Hs. lia.
  - intros j v Hv.
    assert (j < length (id_to_index slots))%nat as Hj.
    { rewrite <- Hl. by eapply lookup_lt_Some. }
    destruct (lookup_lt_is_Some_2 _ _ Hj) as [v0 Hv0].
    destruct (Hbwd _ _ Hv0) as (_ & s0 & Hs0 & Hid0).
    apply list_elem_of_lookup_2 in Hs0. rewrite <- Hperm in Hs0.
    apply list_elem_of_lookup in Hs0 as [i' Hi'].
    pose proof (Hin i' s0 ltac:(apply lookup_lt_Some in Hi'; lia) Hi') as Hnew.
    rewrite Hid0, Nat2Z.id in Hnew. simplify_eq.
    split; [lia|]. exists s0. by rewrite Nat2Z.id.
Qed.

Lemma update_memslots_perm slots new g :
  memslots (update_memslots slots (Some new) g)
  ≡ₚ <[id_to_memslot_index slots (id new) := new]> (memslots slots).
Proof.
  unfold update_memslots, sort_memslots. cbn.
  case_decide; cbn; [apply sort_perm|done].
Qed.

Lemma update_memslots_ids_consistent slots new g :
  ids_consistent slots → 0 ≤ id new < KVM_MEM_SLOTS_NUM →
  ids_consistent (update_memslots slots (Some new) g).
Proof.
  intros Hc Hid.
  assert (ids_consistent
            (mk_memslots (generation slots)
               (<[id_to_memslot_index slots (id new) := new]> (memslots slots))
               (id_to_index slots))) as Hins.
  { apply (ids_consistent_same_ids (generation slots) _ (memslots slots));
      [by apply insert_same_id|]. by destruct slots. }
  assert (∀ slots', ids_consistent slots' →
            ids_consistent (mk_memslots (u64 (g + 1)) (memslots slots')
                                        (id_to_index slots'))) as Hgen.
  { intros [g' ms' idx'] Hc'. by apply (ids_consistent_same_ids g' _ ms' ms'). }
  unfold update_memslots. cbn zeta. apply Hgen.
  case_decide; [by apply sort_memslots_ids_consistent|done].
Qed.

(** The slots of the table after a replacement: the new slot, and the
    slots of other ids. *)
Lemma update_memslots_elem slots new g t :
  ids_consistent slots → 0 ≤ id new < KVM_MEM_SLOTS_NUM →
  t ∈ memslots (update_memslots slots (Some new) g)
  ↔ t = new ∨ (t ∈ memslots slots ∧ id t ≠ id new).
Proof.
  intros Hc Hid. rewrite update_memslots_perm.
  destruct (ids_consistent_index _ _ Hc Hid) as (s0 & Hs0 & Hids0 & _).
  set (p := id_to_memslot_index slots (id new)) in *.
  pose proof (lookup_lt_Some _ _ _ Hs0) as Hp.
  split.
  - intros Hin. apply list_elem_of_lookup in Hin as [i Hi].
    destruct (decide (i = p)) as [->|Hne].
    + rewrite list_lookup_insert_eq in Hi by done. left. congruence.
    + rewrite list_lookup_insert_ne in Hi by done. right.
      split; [by eapply list_elem_of_lookup_2|]. intros Heq. apply Hne.
      eapply ids_consistent_injective; [done..|congruence].
  - intros [->|[Hin Hne]].
    + eapply list_elem_of_lookup_2. by apply list_lookup_insert_eq.
    + apply list_elem_of_lookup in Hin as [i Hi].
      eapply (list_elem_of_lookup_2 _ i). rewrite list_lookup_insert_ne; [done|].
      intros <-. by simplify_eq.
Qed.

Lemma update_memslots_no_overlap slots new g :
  ids_consistent slots → no_overlap slots → 0 ≤ id new < KVM_MEM_SLOTS_NUM →
  (id new < KVM_USER_MEM_SLOTS →
   ∀ t, t ∈ memslots slots → id t ≠ id new → id t < KVM_USER_MEM_SLOTS →
        ¬ frames_intersect (base_gfn new) (npages new) t) →
  no_overlap (update_memslots slots (Some new) g).
Proof.
  intros Hc Hno Hid Hnew s t Hs Ht Hne Hus Hut.
  apply update_memslots_elem in Hs as [->|[Hs Hsn]]; [| |done..].
  - apply update_memslots_elem in Ht as [->|[Ht Htn]];
      [by destruct Hne| |done..].
    by apply Hnew.
  - apply update_memslots_elem in Ht as [->|[Ht Htn]]; [|by apply Hno|done..].
    rewrite frames_intersect_sym. by apply Hnew.
Qed.

(** A lookup by id after a replacement: the new slot under its id, the slot
    that was there under every other id. *)
Lemma update_memslots_lookup slots new g :
  ids_consistent slots → 0 ≤ id new < KVM_MEM_SLOTS_NUM →
  id_to_memslot (update_memslots slots (Some new) g) (id new) = new
  ∧ ∀ j, 0 ≤ j < KVM_MEM_SLOTS_NUM → j ≠ id new →
         id_to_memslot (update_memslots slots (Some new) g) j
         = id_to_memslot slots j.
Proof.
  intros Hc Hid.
  pose proof (update_memslots_ids_consistent _ _ g Hc Hid) as Hc'.
  assert (∀ t, t ∈ memslots (update_memslots slots (Some new) g) →
               id_to_memslot (update_memslots slots (Some new) g) (id t) = t)
    as Hfind.
  { intros t Ht. apply list_elem_of_lookup in Ht as [i Hi].
    by destruct (ids_consistent_position _ _ _ Hc' Hi) as (_ & _ & ?). }
  split.
  - apply Hfind. apply update_memslots_elem; [done..|by left].
  - intros j Hj Hne.
    destruct (ids_consistent_index _ _ Hc Hj) as (s & Hs & Hids & ->).
    rewrite <- Hids. apply Hfind. apply update_memslots_elem; [done..|].
    right. split; [by eapply list_elem_of_lookup_2|congruence].
Qed.

End Sorting.

Lemma insert_set_flags_ids (ms : list kvm_memory_slot) n f :
  id <$> <[n := set_flags (ms !!! n) f]> ms = id <$> ms.
Proof.
  destruct (decide (n < length ms)%nat) as [Hlt|Hge].
  - destruct (lookup_lt_is_Some_2 _ _ Hlt) as [s Hs].
    rewrite list_fmap_insert. apply list_insert_id.
    by rewrite list_lookup_fmap, Hs, (list_lookup_total_correct _ _ _ Hs).
  - by rewrite list_insert_ge by lia.
Qed.

Lemma invalidated_ids_consistent slots i :
  ids_consistent slots → ids_consistent (invalidated slots i).
Proof.
  intros Hc. unfold invalidated.
  apply (ids_consistent_same_ids (generation slots) _ (memslots slots));
    [apply insert_set_flags_ids|by destruct slots].
Qed.

Lemma invalidated_no_overlap slots i :
  no_overlap slots → no_overlap (invalidated slots i).
Proof.
  intros Hno.
  assert (∀ t, t ∈ memslots (invalidated slots i) →
               ∃ t0, t0 ∈ memslots slots ∧ id t0 = id t
                     ∧ base_gfn t0 = base_gfn t ∧ npages t0 = npages t) as Htwin.
  { intros t Ht. unfold invalidated in Ht. cbn [memslots] in Ht.
    apply list_elem_of_lookup in Ht as [q Hq].
    set (n := id_to_memslot_index slots i) in *.
    destruct (decide (q = n)) as [->|Hne].
    - pose proof (lookup_lt_Some _ _ _ Hq) as Hlt. rewrite length_insert in Hlt.
      rewrite list_lookup_insert_eq in Hq by done. simplify_eq.
      destruct (lookup_lt_is_Some_2 _ _ Hlt) as [s Hs].
      rewrite (list_lookup_total_correct _ _ _ Hs).
      exists s. split; [by eapply list_elem_of_lookup_2|done].
    - rewrite list_lookup_insert_ne in Hq by done.
      exists t. split; [by eapply list_elem_of_lookup_2|done]. }
  intros s t Hs Ht Hne Hus Hut.
  destruct (Htwin _ Hs) as (s0 & Hs0 & Hsi & Hsb & Hsn).
  destruct (Htwin _ Ht) as (t0 & Ht0 & Hti & Htb & Htn).
  pose proof (Hno s0 t0 Hs0 Ht0) as Hold.
  unfold frames_intersect in *. rewrite Hsb, Hsn, Htb, Htn, Hsi, Hti in Hold.
  by apply Hold.
Qed.

(** The loop of lines 824-831 found no slot in the way. *)
Lemma region_in_use_false slots m b n :
  memslots_wf slots → 0 ≤ b → 0 < n → b + n < 2 ^ 64 →
  region_in_use slots m b n = false →
  ∀ t, t ∈ memslots slots → id t ≠ mem_slot m → id t < KVM_USER_MEM_SLOTS →
       ¬ frames_intersect b n t.
Proof.
  intros (Hlen & Hrange & Hsorted) Hb Hn Hbn Huse t Ht Hid Hu Hx.
  rewrite Forall_forall in Hrange. pose proof (Hrange t Ht) as Htr.
  assert (0 < npages t) as Hpos.
  { destruct Htr as (? & ? & ?). unfold frames_intersect in Hx. lia. }
  assert (region_in_use slots m b n = true) as Htrue; [|congruence].
  unfold region_in_use, kvm_for_each_memslot.
  rewrite take_ge by lia. apply existsb_exists. exists t. split.
  - apply list_elem_of_In, elem_of_present_prefix; try done; [|lia].
    by apply Forall_forall.
  - destruct (Z.leb_spec KVM_USER_MEM_SLOTS (id t)); [lia|].
    destruct (Z.eqb_spec (id t) (mem_slot m)); [done|]. cbn.
    by apply overlaps_spec.
Qed.

Lemma kvm_create_vm_ids_consistent :
  ids_consistent (kvm_memslots_of kvm_create_vm).
Proof.
  unfold ids_consistent, kvm_create_vm, kvm_init_memslots.
  cbn [kvm_memslots_of memslots id_to_index].
  rewrite !length_fmap, length_seq. split; [done|]. split; [done|].
  assert (∀ i x, (Z.of_nat <$> seq 0 (Z.to_nat KVM_MEM_SLOTS_NUM)) !! i = Some x
                 ↔ x = Z.of_nat i ∧ (i < Z.to_nat KVM_MEM_SLOTS_NUM)%nat) as Hids.
  { intros i x. rewrite list_lookup_fmap, fmap_Some. split.
    - intros (n & Hn & ->). apply lookup_seq in Hn as [-> ?]. done.
    - intros [-> Hi]. exists i. split; [|done]. by apply lookup_seq. }
  split.
  - intros i s Hs. rewrite list_lookup_fmap, fmap_Some in Hs.
    destruct Hs as (x & Hx & ->). cbn [id]. apply Hids in Hx as [-> Hi].
    split; [lia|]. rewrite Nat2Z.id. by apply Hids.
  - intros j v Hv. apply Hids in Hv as [-> Hj]. split; [lia|].
    rewrite Nat2Z.id. exists (mk_slot 0 0 None 0 0 0 (Z.of_nat j)).
    split; [|done]. rewrite list_lookup_fmap, fmap_Some.
    exists (Z.of_nat j). split; [|done]. by apply Hids.
Qed.

Lemma kvm_create_vm_no_overlap : no_overlap (kvm_memslots_of kvm_create_vm).
Proof.
  intros s t Hs _ _ _ _. unfold kvm_create_vm, kvm_init_memslots in Hs.
  cbn [kvm_memslots_of memslots] in Hs.
  apply list_elem_of_fmap in Hs as (x & -> & _). apply frames_intersect_empty.
Qed.

End TableInvariants.

Section TableAcrossRequests.
Context `{Platform} `{!SortPermutes}.

Lemma request_slot_range e mem :
  request_typed mem → sanity_checks e mem = 0 →
  0 ≤ mem_slot mem < KVM_MEM_SLOTS_NUM.
Proof.
  intros [_ Hpos] Hok. apply sanity_checks_ok in Hok as (_ & _ & Hlt & _). lia.
Qed.

Lemma set_region_ids_no_overlap e k mem :
  request_typed mem →
  memslots_wf (kvm_memslots_of k) →
  ids_consistent (kvm_memslots_of k) → no_overlap (kvm_memslots_of k) →
  ids_consistent (kvm_memslots_of (__kvm_set_memory_region e k mem).1.2)
  ∧ no_overlap (kvm_memslots_of (__kvm_set_memory_region e k mem).1.2).
Proof.
  intros Htyped Hwf Hc Hno.
  destruct (__kvm_set_memory_region e k mem) as [[r k'] tr] eqn:Hrun.
  cbn [fst snd]. apply set_region_table in Hrun. cbn zeta in Hrun.
  destruct Hrun as [[_ ->]|[(_ & _ & ->)|[(_ & _ & -> & _)
                   |(_ & Hok & c & g & new & Hb & Hn & Hf & Hi & Hgeo & Huse & ->)]]];
    [done| |done|].
  { split; [by apply invalidated_ids_consistent|by apply invalidated_no_overlap]. }
  pose proof (request_slot_range e mem Htyped Hok) as Hslot.
  pose proof (req_range e mem (proj1 Htyped) Hok) as (Hb0 & Hn0 & Hbn).
  split; [apply update_memslots_ids_consistent; [done|by rewrite Hi]|].
  apply update_memslots_no_overlap; [done|done|by rewrite Hi|].
  rewrite Hb, Hn, Hi. intros Hu t Ht Hid Hut.
  assert (c = KVM_MR_CREATE ∨ c = KVM_MR_MOVE →
          ¬ frames_intersect (req_base_gfn mem) (req_npages mem) t) as Hcm.
  { intros Hc'.
    assert (0 < req_npages mem) as Hpos
      by (destruct Hc' as [-> | ->]; cbn in Hgeo; lia).
    by apply (region_in_use_false (kvm_memslots_of k)
                (set_mem_flags mem (req_flags mem))); try apply Huse. }
  destruct c; [by apply Hcm; left| |by apply Hcm; right|].
  - rewrite Hgeo. apply frames_intersect_empty.
  - destruct Hgeo as [-> ->].
    destruct (ids_consistent_index _ _ Hc Hslot) as (old & Hold & Hoid & ->).
    apply Hno; [by eapply list_elem_of_lookup_2|done|congruence|lia|done].
Qed.

(** X7.  The slot table across requests.  In every virtual machine reached
    from a new one by set-region requests, whatever they return and whatever
    the hooks and the allocator do, and by marking pages dirty: the table
    has all its entries, with frame ranges inside the frame space and larger
    slots first; the id index and the slot array are inverse to each other;
    no two slots of user space have a guest frame in common; and no slot
    without the log flag has a dirty bitmap. *)
Theorem reachable_table_inv `{!SortSorts} (k : kvm) :
  reachable k → table_inv (kvm_memslots_of k).
Proof.
  induction 1 as [|e k mem Hk IH Htyped|k gfn Hk IH].
  - split; [apply kvm_create_vm_wf|].
    split; [apply kvm_create_vm_ids_consistent|].
    split; [apply kvm_create_vm_no_overlap|apply kvm_create_vm_no_bitmap].
  - destruct IH as (Hwf & Hc & Hno & Hlog).
    destruct (set_region_ids_no_overlap e k mem Htyped Hwf Hc Hno) as [Hc' Hno'].
    split; [by apply set_region_memslots_wf; [apply Htyped|]|].
    split; [done|]. split; [done|]. by apply set_region_log_or_no_bitmap.
  - by rewrite mark_page_dirty_memslots.
Qed.

(** X8.  A set-region request that returns 0 leaves the requested slot in
    the table: looked up by its id, the slot has the base frame, the page
    count and the flags of the request (without the log flag when the
    request deletes the slot). *)
Theorem set_region_installs_slot (e : environment) (k k' : kvm)
    (mem : kvm_userspace_memory_region) (tr : list event) :
  let slot := id_to_memslot (kvm_memslots_of k') (mem_slot mem) in
  request_typed mem →
  ids_consistent (kvm_memslots_of k) →
  __kvm_set_memory_region e k mem = (0, k', tr) →
  id slot = mem_slot mem ∧ base_gfn slot = req_base_gfn mem
  ∧ npages slot = req_npages mem ∧ flags slot = req_flags mem.
Proof.
  intros slot Htyped Hc Hrun. subst slot.
  apply set_region_table in Hrun. cbn zeta in Hrun.
  destruct Hrun as [[Hr _]|[(Hr & _)|[(_ & Hok & -> & _ & Hn & Hb & Hf)
                   |(_ & Hok & c & g & new & Hb & Hn & Hf & Hi & _ & _ & ->)]]];
    [done|done| |].
  - pose proof (request_slot_range e mem Htyped Hok) as Hslot.
    destruct (ids_consistent_index _ _ Hc Hslot) as (old & _ & Hoid & Hold).
    rewrite Hold in *. done.
  - pose proof (request_slot_range e mem Htyped Hok) as Hslot.
    rewrite <- Hi.
    rewrite (proj1 (update_memslots_lookup _ new g Hc ltac:(by rewrite Hi))).
    by rewrite Hi.
Qed.

(** X9.  A set-region request touches no slot but the one it names: under
    every other id the table holds the slot it held, whatever the request
    returns. *)
Theorem set_region_other_slots (e : environment) (k : kvm)
    (mem : kvm_userspace_memory_region) (j : Z) :
  request_typed mem →
  ids_consistent (kvm_memslots_of k) →
  0 ≤ j < KVM_MEM_SLOTS_NUM → j ≠ mem_slot mem →
  id_to_memslot (kvm_memslots_of (__kvm_set_memory_region e k mem).1.2) j
  = id_to_memslot (kvm_memslots_of k) j.
Proof.
  intros Htyped Hc Hj Hne.
  destruct (__kvm_set_memory_region e k mem) as [[r k'] tr] eqn:Hrun.
  cbn [fst snd]. apply set_region_table in Hrun. cbn zeta in Hrun.
  destruct Hrun as [[_ ->]|[(_ & Hok & ->)|[(_ & _ & -> & _)
                   |(_ & Hok & c & g & new & _ & _ & _ & Hi & _ & _ & ->)]]];
    [done| |done|].
  - pose proof (request_slot_range e mem Htyped Hok) as Hslot.
    destruct (ids_consistent_index _ _ Hc Hj) as (s & Hs & Hsid & _).
    destruct (ids_consistent_index _ _ Hc Hslot) as (s' & Hs' & Hsid' & _).
    unfold id_to_memslot, invalidated.
    cbn [memslots]. unfold id_to_memslot_index at 1. cbn [id_to_index].
    fold (id_to_memslot_index (kvm_memslots_of k) j).
    apply list_lookup_total_insert_ne. intros Heq. rewrite Heq in Hs'.
    by simplify_eq.
  - pose proof (request_slot_range e mem Htyped Hok) as Hslot.
    apply (update_memslots_lookup _ new g Hc); [by rewrite Hi|done|congruence].
Qed.

End TableAcrossRequests.

(** ** Requests that are refused at the door *)
Section Refusals.
Context `{Platform}.

Lemma set_region_insane e k mem :
  sanity_checks e mem ≠ 0 →
  __kvm_set_memory_region e k mem = (sanity_checks e mem, k, []).
Proof.
  intros Hbad. unfold __kvm_set_memory_region.
  by rewrite (proj2 (nonzero_true _) Hbad).
Qed.

Lemma check_flags_cases mem :
  check_memory_region_flags mem = 0 ∨ check_memory_region_flags mem = - EINVAL.
Proof. unfold check_memory_region_flags. case_match; auto. Qed.

Lemma sanity_checks_cases e mem :
  sanity_checks e mem = 0 ∨ sanity_checks e mem = - EINVAL.
Proof.
  unfold sanity_checks.
  destruct (check_flags_cases mem) as [-> | ->]; [|by right].
  cbn [nonzero Z.eqb negb]. repeat case_match; auto.
Qed.

Lemma land_page_mask x : Z.land x (PAGE_SIZE - 1) = x mod PAGE_SIZE.
Proof.
  pose proof PAGE_SHIFT_range. rewrite PAGE_SIZE_eq.
  rewrite <- Z.land_ones by lia. by rewrite Z.ones_equiv.
Qed.

(** X11.  A request with a flag bit that the build does not know is refused
    with -EINVAL before anything is looked at: any bit other than the log
    flag and, where KVM_CAP_READONLY_MEM is defined, the read-only flag.
    Nothing changes and no hook is called; the same holds on the ioctl
    path. *)
Theorem set_region_rejects_unknown_flags (e : environment) (k : kvm)
    (mem : kvm_userspace_memory_region) (b : Z) :
  0 < b < 32 →
  Z.testbit (mem_flags mem) b = true →
  (KVM_CAP_READONLY_MEM = true → b ≠ 1) →
  __kvm_set_memory_region e k mem = (- EINVAL, k, [])
  ∧ kvm_vm_ioctl_set_memory_region e k mem = (- EINVAL, k, []).
Proof.
  intros Hb Hbit Hro.
  assert (check_memory_region_flags mem = - EINVAL) as Hflags.
  { unfold check_memory_region_flags.
    set (valid_flags := if KVM_CAP_READONLY_MEM then _ else _).
    assert (Z.testbit valid_flags b = false) as Hvalid.
    { subst valid_flags. unfold KVM_MEM_LOG_DIRTY_PAGES, KVM_MEM_READONLY.
      change 1 with (2 ^ 0). change 2 with (2 ^ 1).
      destruct KVM_CAP_READONLY_MEM.
      - rewrite Z.lor_spec, !Z.pow2_bits_eqb by lia.
        specialize (Hro eq_refl).
        destruct (Z.eqb_spec 0 b), (Z.eqb_spec 1 b); lia || done.
      - rewrite Z.pow2_bits_eqb by lia. destruct (Z.eqb_spec 0 b); lia || done. }
    assert (Z.testbit (Z.land (mem_flags mem) (u32 (Z.lnot valid_flags))) b
            = true) as Hland.
    { rewrite Z.land_spec, Hbit. unfold u32, wrap.
      rewrite Z.mod_pow2_bits_low by lia.
      rewrite Z.lnot_spec by lia. by rewrite Hvalid. }
    destruct (nonzero _) eqn:Hnz; [done|].
    apply nonzero_false in Hnz. rewrite Hnz, Z.bits_0 in Hland. done. }
  assert (sanity_checks e mem = - EINVAL) as Hsane.
  { unfold sanity_checks. by rewrite Hflags. }
  assert (__kvm_set_memory_region e k mem = (- EINVAL, k, [])) as Hset.
  { rewrite set_region_insane; rewrite Hsane; done. }
  split; [done|]. unfold kvm_vm_ioctl_set_memory_region. by case_match.
Qed.

(** X12.  A request whose size or guest address is not a multiple of the
    page size, whose slot id is not below KVM_MEM_SLOTS_NUM, whose guest
    range runs past the end of the 64-bit address space, or (for a slot of
    user space) whose host address is not page aligned or not accessible,
    is refused with -EINVAL; nothing changes and no hook is called. *)
Theorem set_region_rejects_bad_geometry (e : environment) (k : kvm)
    (mem : kvm_userspace_memory_region) :
  region_typed mem →
  mem_memory_size mem mod PAGE_SIZE ≠ 0
  ∨ mem_guest_phys_addr mem mod PAGE_SIZE ≠ 0
  ∨ KVM_MEM_SLOTS_NUM ≤ mem_slot mem
  ∨ 2 ^ 64 ≤ mem_guest_phys_addr mem + mem_memory_size mem
  ∨ (mem_slot mem < KVM_USER_MEM_SLOTS
     ∧ (mem_userspace_addr mem mod PAGE_SIZE ≠ 0
        ∨ access_ok e (ulong (mem_userspace_addr mem))
                      (ulong (mem_memory_size mem)) = false)) →
  __kvm_set_memory_region e k mem = (- EINVAL, k, []).
Proof.
  intros [Hg Hs] Hbad.
  assert (sanity_checks e mem ≠ 0) as Hsane.
  { unfold sanity_checks. rewrite !land_page_mask.
    destruct (check_flags_cases mem) as [-> | ->]; [|done].
    cbn [nonzero Z.eqb negb].
    destruct (nonzero (mem_memory_size mem mod PAGE_SIZE)) eqn:Hsz; [done|].
    apply nonzero_false in Hsz.
    destruct (nonzero (mem_guest_phys_addr mem mod PAGE_SIZE)) eqn:Hga; [done|].
    apply nonzero_false in Hga.
    destruct ((mem_slot mem <? KVM_USER_MEM_SLOTS) && _) eqn:Huser; [done|].
    destruct (Z.leb_spec KVM_MEM_SLOTS_NUM (mem_slot mem)); [done|].
    destruct (Z.ltb_spec (u64 (mem_guest_phys_addr mem + mem_memory_size mem))
                         (mem_guest_phys_addr mem)) as [Hwrap|Hnowrap]; [done|].
    exfalso.
    destruct Hbad as [?|[?|[?|[Hpast|[Hu Hhost]]]]]; [done|done|lia| |].
    - revert Hnowrap. unfold u64, wrap.
      replace (mem_guest_phys_addr mem + mem_memory_size mem)
        with ((mem_guest_phys_addr mem + mem_memory_size mem - 2 ^ 64)
              + 1 * 2 ^ 64) by lia.
      rewrite Z.mod_add by lia. rewrite Z.mod_small; lia.
    - apply andb_false_iff in Huser as [Hlt|Hok].
      + apply Z.ltb_ge in Hlt. lia.
      + apply orb_false_iff in Hok as [Hal Hacc].
        apply nonzero_false in Hal. apply negb_false_iff in Hacc.
        destruct Hhost; congruence. }
  rewrite set_region_insane by done.
  by destruct (sanity_checks_cases e mem) as [?| ->].
Qed.

End Refusals.

(** ** Translation in atomic context, on read-only slots and asynchronously *)
Section TranslationModes.
Context `{Platform}.

Lemma hva_to_pfn_atomic m hva write_fault writable :
  ∃ pfn writable' tr,
    hva_to_pfn m hva true None write_fault writable
    = Done (pfn, None, writable', tr)
    ∧ Forall pins_without_sleeping tr
    ∧ (pfn = KVM_PFN_ERR_FAULT ∧ writable' = writable
       ∨ __get_user_pages_fast m hva = (1, pfn)
         ∧ tr = [EvGetUserPagesFastAtomic hva]
         ∧ writable' = (λ _, true) <$> writable).
Proof.
  unfold hva_to_pfn, hva_to_pfn_fast. cbn [andb orb negb bool_decide].
  rewrite bool_decide_eq_false_2 by (by intros ?). cbn [andb orb negb].
  destruct (negb (write_fault || bool_decide (writable ≠ None))).
  { eexists _, _, _. split; [done|]. split; [constructor|by left]. }
  destruct (__get_user_pages_fast m hva) as [n page] eqn:Hpin.
  destruct (Z.eqb_spec n 1) as [->|Hn].
  - eexists _, _, _. split; [done|]. split; [by repeat constructor|].
    right. by destruct writable.
  - eexists _, _, _. split; [done|]. split; [by repeat constructor|by left].
Qed.

(** X13.  Translation in atomic context (gfn_to_pfn_atomic, and hva_to_pfn
    with [atomic] set) never reaches BUG_ON and makes no call that can
    sleep: at most one call of __get_user_pages_fast.  Its result is the
    frame that call pinned, or KVM_PFN_ERR_FAULT, or an error of the slot
    lookup; it is never KVM_PFN_ERR_HWPOISON, and [*writable] is changed
    only to true, when a page was pinned. *)
Theorem atomic_translation_never_sleeps (m : host_mm) (k : kvm) (gfn hva : Z)
    (write_fault : bool) (writable : option bool) :
  (∃ pfn writable' tr,
     hva_to_pfn m hva true None write_fault writable
     = Done (pfn, None, writable', tr)
     ∧ Forall pins_without_sleeping tr
     ∧ (pfn = KVM_PFN_ERR_FAULT ∧ writable' = writable
        ∨ __get_user_pages_fast m hva = (1, pfn)
          ∧ tr = [EvGetUserPagesFastAtomic hva]
          ∧ writable' = (λ _, true) <$> writable))
  ∧ ∃ pfn tr,
      gfn_to_pfn_atomic m k gfn = Done (pfn, None, None, tr)
      ∧ Forall pins_without_sleeping tr
      ∧ (pfn ∈ [KVM_PFN_ERR_FAULT; KVM_PFN_ERR_RO_FAULT; KVM_PFN_NOSLOT]
         ∨ ∃ hva', __get_user_pages_fast m hva' = (1, pfn)).
Proof.
  split; [apply hva_to_pfn_atomic|].
  unfold gfn_to_pfn_atomic, __gfn_to_pfn, __gfn_to_pfn_memslot.
  set (hva' := (__gfn_to_hva_many (gfn_to_memslot k gfn) gfn None true).1).
  destruct (hva' =? KVM_HVA_ERR_RO_BAD).
  { eexists _, _. split; [done|]. split; [constructor|]. left. set_solver. }
  destruct (kvm_is_error_hva hva').
  { eexists _, _. split; [done|]. split; [constructor|]. left. set_solver. }
  destruct (hva_to_pfn_atomic m hva' true None)
    as (pfn & w' & tr & -> & Htr & [[-> ->]|(Hpin & -> & ->)]).
  - eexists _, _. split; [done|]. split; [done|]. left. set_solver.
  - eexists _, _. split; [done|]. split; [done|]. right. by exists hva'.
Qed.



(** X15.  An asynchronous translation reports [*async = true], page not
    resident and fetched later, only together with KVM_PFN_ERR_FAULT and only
    after get_user_page_nowait was tried: the caller is never handed both a
    frame and the request to retry.  [*async] is cleared on entry, whatever
    the caller left in it. *)
Theorem async_translation_retry (m : host_mm) (k : kvm) (gfn : Z)
    (async0 write_fault : bool) (writable : option bool)
    (pfn : Z) (writable' : option bool) (tr : list event) :
  gfn_to_pfn_async m k gfn (Some async0) write_fault writable
  = Done (pfn, Some true, writable', tr) →
  pfn = KVM_PFN_ERR_FAULT
  ∧ ∃ hva, EvGetUserPageNowait hva write_fault ∈ tr
           ∧ (get_user_page_nowait m hva write_fault).1 ≠ 1.
Proof.
  unfold gfn_to_pfn_async, __gfn_to_pfn, __gfn_to_pfn_memslot.
  set (hva := (__gfn_to_hva_many (gfn_to_memslot k gfn) gfn None write_fault).1).
  assert (∀ w w', hva_to_pfn m hva false (Some false) write_fault w
               = Done (pfn, Some true, w', tr) →
               pfn = KVM_PFN_ERR_FAULT
               ∧ ∃ hva, EvGetUserPageNowait hva write_fault ∈ tr
                        ∧ (get_user_page_nowait m hva write_fault).1 ≠ 1)
    as Hhva.
  { intros w w'. unfold hva_to_pfn, hva_to_pfn_fast, hva_to_pfn_slow.
    cbn [andb orb negb].
    destruct (get_user_page_nowait m hva write_fault) as [n page] eqn:Hpin.
    intros Hrun.
    repeat case_match; simplify_eq;
      (split; [done|]; exists hva; rewrite Hpin; cbn [fst];
       split; [set_solver|]; by apply Z.eqb_neq). }
  destruct (hva =? KVM_HVA_ERR_RO_BAD); [by intros [=]|].
  destruct (kvm_is_error_hva hva); [by intros [=]|].
  destruct writable as [w|], (gfn_to_memslot k gfn) as [s|]; try apply Hhva.
  destruct (memslot_is_readonly s); [|apply Hhva].
  destruct (hva_to_pfn _ _ _ _ _ _) as [[[[pfn0 a0] w0] tr0]|] eqn:Hpin;
    [|by intros [=]].
  intros [= -> -> <- ->]. by eapply Hhva.
Qed.

End TranslationModes.

(** ** The sequence number and the count across callbacks *)
Section NotifierFacts.
Context `{Platform}.

Lemma slong_small x :
  - 2 ^ (BITS_PER_LONG - 1) ≤ x < 2 ^ (BITS_PER_LONG - 1) → slong x = x.
Proof.
  intros Hx. unfold slong. pose proof BITS_PER_LONG_range.
  assert (2 ^ BITS_PER_LONG = 2 * 2 ^ (BITS_PER_LONG - 1)) as Hpow.
  { rewrite <- Z.pow_succ_r by lia. f_equal. lia. }
  rewrite Z.mod_small; lia.
Qed.

Lemma long_max_pos : 0 < 2 ^ (BITS_PER_LONG - 1).
Proof. pose proof BITS_PER_LONG_range. apply Z.pow_pos_nonneg; lia. Qed.

Lemma ulong_add_mod x y : ulong (ulong x + y) = ulong (x + y).
Proof.
  unfold ulong, wrap. pose proof BITS_PER_LONG_range.
  by rewrite Zplus_mod_idemp_l.
Qed.

(** What a run of callbacks that does not hit BUG_ON leaves. *)
Lemma run_notifiers_counts ops k k' :
  0 ≤ mmu_notifier_count k →
  mmu_notifier_count k + Z.of_nat (length ops) < 2 ^ (BITS_PER_LONG - 1) →
  0 ≤ mmu_notifier_seq k < 2 ^ BITS_PER_LONG →
  run_notifiers k ops = Done k' →
  let starts := Z.of_nat (length (filter is_range_start ops)) in
  let ends := Z.of_nat (length (filter is_range_end ops)) in
  mmu_notifier_count k' = mmu_notifier_count k + starts - ends
  ∧ 0 ≤ mmu_notifier_count k'
  ∧ mmu_notifier_seq k'
    = ulong (mmu_notifier_seq k + (Z.of_nat (length ops) - starts))
  ∧ kvm_memslots_of k' = kvm_memslots_of k ∧ kmem k' = kmem k.
Proof.
  pose proof long_max_pos as Hmax.
  revert k. induction ops as [|op ops IH]; intros k Hc Hlen Hseq Hrun; cbn zeta.
  { cbn in *. simplify_eq. rewrite !Z.add_0_r, ulong_small by done.
    split; [lia|]. done. }
  cbn [length] in Hlen. cbn [run_notifiers] in Hrun.
  destruct (run_notifier k op) as [k1|] eqn:Hop; [|done].
  assert (mmu_notifier_count k1
          = mmu_notifier_count k
            + (if is_range_start op then 1 else 0)
            - (if is_range_end op then 1 else 0)
          ∧ 0 ≤ mmu_notifier_count k1
          ∧ mmu_notifier_seq k1
            = ulong (mmu_notifier_seq k + (if is_range_start op then 0 else 1))
          ∧ kvm_memslots_of k1 = kvm_memslots_of k ∧ kmem k1 = kmem k)
    as (Hc1 & Hpos1 & Hseq1 & Hms1 & Hkm1).
  { destruct op; cbn in Hop.
    - simplify_eq. cbn. split; [lia|done].
    - simplify_eq. cbn. split; [lia|done].
    - simplify_eq. cbn. rewrite slong_small by lia.
      rewrite Z.add_0_r, ulong_small by done. split; [lia|]. split; [lia|done].
    - rewrite slong_small in Hop by lia.
      destruct (Z.ltb_spec (mmu_notifier_count k - 1) 0); simplify_eq.
      cbn. split; [lia|done]. }
  apply IH in Hrun as (Hc' & Hpos' & Hseq' & Hms' & Hkm');
    [| done | destruct (is_range_start op), (is_range_end op); lia
     | rewrite Hseq1; apply ulong_range ].
  rewrite !filter_cons.
  split; [|split; [done|split; [|split; congruence]]].
  - rewrite Hc', Hc1.
    destruct op; cbn; repeat case_decide; cbn [length]; try done; lia.
  - rewrite Hseq', Hseq1, ulong_add_mod. f_equal. cbn [length].
    destruct op; cbn; repeat case_decide; cbn [length]; try done; lia.
Qed.

(** X16.  No invalidation goes unnoticed.  A translator that read the
    sequence number while the count was not negative, and then finds that
    any callbacks of the host memory manager have run since (single-page
    invalidations, changes of a pte, starts and ends of range
    invalidations, in any order and number short of wrapping the counters),
    is told to retry by the check of count and sequence number: either an
    invalidation is still under way, or the sequence number has moved. *)
Theorem invalidation_forces_retry (k k' : kvm) (ops : list notifier_op) :
  0 ≤ mmu_notifier_count k →
  0 ≤ mmu_notifier_seq k < 2 ^ BITS_PER_LONG →
  ops ≠ [] →
  mmu_notifier_count k + Z.of_nat (length ops) < 2 ^ (BITS_PER_LONG - 1) →
  run_notifiers k ops = Done k' →
  mmu_notifier_retry k' (mmu_notifier_seq k) = true.
Proof.
  intros Hc Hseq Hne Hlen Hrun.
  pose proof (run_notifiers_counts ops k k' Hc Hlen Hseq Hrun)
    as (Hc' & Hpos' & Hseq' & _).
  cbn zeta in Hc', Hseq'.
  set (starts := Z.of_nat (length (filter is_range_start ops))) in *.
  set (ends := Z.of_nat (length (filter is_range_end ops))) in *.
  assert (0 ≤ starts ≤ Z.of_nat (length ops)) as Hstarts.
  { subst starts. pose proof (length_filter is_range_start ops). lia. }
  unfold mmu_notifier_retry.
  destruct (nonzero (mmu_notifier_count k')) eqn:Hnz; [done|].
  apply nonzero_false in Hnz.
  destruct (Z.eqb_spec (mmu_notifier_seq k') (mmu_notifier_seq k))
    as [Heq|?]; [|done].
  exfalso.
  assert (0 < Z.of_nat (length ops)) as Hn by (destruct ops; [done|cbn; lia]).
  (* Some callback was not a range start: the sequence number has moved. *)
  assert (ends ≤ Z.of_nat (length ops) - starts) as Hends.
  { subst starts ends. clear. induction ops as [|op ops IH]; [done|].
    rewrite !filter_cons. cbn [length].
    destruct op; cbn; repeat case_decide; cbn [length]; try done; lia. }
  assert (0 < Z.of_nat (length ops) - starts) as Hbump by lia.
  revert Heq. rewrite Hseq'. unfold ulong, wrap.
  pose proof BITS_PER_LONG_range.
  assert (2 ^ BITS_PER_LONG = 2 * 2 ^ (BITS_PER_LONG - 1)) as Hpow.
  { rewrite <- Z.pow_succ_r by lia. f_equal. lia. }
  pose proof long_max_pos.
  destruct (decide (mmu_notifier_seq k + (Z.of_nat (length ops) - starts)
                    < 2 ^ BITS_PER_LONG)).
  - rewrite Z.mod_small; lia.
  - replace (mmu_notifier_seq k + (Z.of_nat (length ops) - starts))
      with ((mmu_notifier_seq k + (Z.of_nat (length ops) - starts)
             - 2 ^ BITS_PER_LONG) + 1 * 2 ^ BITS_PER_LONG) by lia.
    rewrite Z.mod_add by lia. rewrite Z.mod_small; lia.
Qed.

(** X17.  The count is the number of range invalidations under way.  After
    any run of callbacks that does not hit BUG_ON, the count is the count
    of before plus the starts minus the ends and is not negative, the
    sequence number has advanced by one for every callback that is not a
    range start, and the slot table and the dirty bitmaps are untouched.
    In particular a start followed by its end restores the count. *)
Theorem notifier_count_balance (k k' : kvm) (ops : list notifier_op) :
  let starts := Z.of_nat (length (filter is_range_start ops)) in
  let ends := Z.of_nat (length (filter is_range_end ops)) in
  0 ≤ mmu_notifier_count k →
  0 ≤ mmu_notifier_seq k < 2 ^ BITS_PER_LONG →
  mmu_notifier_count k + Z.of_nat (length ops) < 2 ^ (BITS_PER_LONG - 1) →
  run_notifiers k ops = Done k' →
  mmu_notifier_count k' = mmu_notifier_count k + starts - ends
  ∧ 0 ≤ mmu_notifier_count k'
  ∧ mmu_notifier_seq k'
    = ulong (mmu_notifier_seq k + (Z.of_nat (length ops) - starts))
  ∧ (starts = ends → mmu_notifier_count k' = mmu_notifier_count k)
  ∧ kvm_memslots_of k' = kvm_memslots_of k ∧ kmem k' = kmem k.
Proof.
  intros starts ends Hc Hseq Hlen Hrun.
  pose proof (run_notifiers_counts ops k k' Hc Hlen Hseq Hrun)
    as (Hc' & Hpos' & Hseq' & Hms & Hkm).
  cbn zeta in Hc', Hseq'. fold starts ends in Hc', Hseq'.
  split; [done|]. split; [done|]. split; [done|]. split; [lia|done].
Qed.

End NotifierFacts.

(** ** Writes to guest memory *)
Section GuestWrites.
Context `{Platform}.

Lemma pages_spanned_nonneg offset len0 :
  0 ≤ offset → 0 ≤ len0 → 0 ≤ pages_spanned offset len0.
Proof.
  intros. unfold pages_spanned. pose proof PAGE_SIZE_range.
  case_match; [done|]. apply Z.div_pos; lia.
Qed.

Lemma pages_spanned_last offset len0 :
  0 ≤ offset → 0 < len0 → offset + len0 ≤ PAGE_SIZE →
  pages_spanned offset len0 = 1.
Proof.
  intros. unfold pages_spanned. pose proof PAGE_SIZE_range.
  destruct (Z.eqb_spec len0 0); [lia|].
  symmetry. apply (Z.div_unique _ _ 1 (offset + len0 - 1)); lia.
Qed.

Lemma pages_spanned_next offset len0 :
  0 ≤ offset < PAGE_SIZE → PAGE_SIZE - offset < len0 →
  pages_spanned offset len0
  = 1 + pages_spanned 0 (len0 - (PAGE_SIZE - offset)).
Proof.
  intros. unfold pages_spanned. pose proof PAGE_SIZE_range.
  destruct (Z.eqb_spec len0 0); [lia|].
  destruct (Z.eqb_spec (len0 - (PAGE_SIZE - offset)) 0); [lia|].
  replace (offset + len0 + PAGE_SIZE - 1)
    with ((0 + (len0 - (PAGE_SIZE - offset)) + PAGE_SIZE - 1) + 1 * PAGE_SIZE)
    by lia.
  rewrite Z.div_add by lia. lia.
Qed.

Lemma mark_pages_memslots gfns k :
  kvm_memslots_of (foldl mark_page_dirty k gfns) = kvm_memslots_of k.
Proof.
  revert k. induction gfns as [|g l IH]; intros k; cbn; [done|].
  by rewrite IH, mark_page_dirty_memslots.
Qed.

Lemma gfn_to_hva_memslots k1 k2 gfn :
  kvm_memslots_of k1 = kvm_memslots_of k2 → gfn_to_hva k1 gfn = gfn_to_hva k2 gfn.
Proof. intros Heq. unfold gfn_to_hva, gfn_to_memslot. by rewrite Heq. Qed.

Lemma page_copied_next m k k1 gfn offset len0 i :
  kvm_memslots_of k1 = kvm_memslots_of k → 0 ≤ i →
  page_copied m k gfn offset len0 (1 + i)
  ↔ page_copied m k1 (gfn + 1) 0 (len0 - (PAGE_SIZE - offset)) i.
Proof.
  intros Heq Hi. unfold page_copied.
  rewrite (gfn_to_hva_memslots k1 k) by done.
  replace (gfn + 1 + i) with (gfn + (1 + i)) by lia.
  assert (segment offset len0 (1 + i)
          = segment 0 (len0 - (PAGE_SIZE - offset)) i) as ->; [|done].
  unfold segment. destruct (Z.eqb_spec (1 + i) 0); [lia|].
  destruct (Z.eqb_spec i 0) as [->|?]; f_equal; f_equal; lia.
Qed.

Lemma kvm_write_guest_page_copied m k gfn offset len0 seg :
  segment offset len0 0 = (offset, seg) →
  kvm_write_guest_page m k gfn offset seg = (0, mark_page_dirty k gfn)
  ∧ page_copied m k gfn offset len0 0
  ∨ kvm_write_guest_page m k gfn offset seg = (- EFAULT, k)
    ∧ ¬ page_copied m k gfn offset len0 0.
Proof.
  intros Hseg. unfold kvm_write_guest_page, page_copied.
  rewrite Hseg, Z.add_0_r. cbn [fst snd].
  destruct (kvm_is_error_hva (gfn_to_hva k gfn));
    [right; split; [done|by intros [? _]]|].
  destruct (nonzero _) eqn:Hnz;
    [apply nonzero_true in Hnz|apply nonzero_false in Hnz];
    [right|left]; (split; [done|]); [by intros [_ ?]|done].
Qed.

Lemma kvm_write_guest_loop_copies fuel m k gfn offset len0 r k' :
  0 ≤ offset < PAGE_SIZE → 0 ≤ len0 < 2 ^ BITS_PER_LONG →
  0 ≤ gfn → gfn + pages_spanned offset len0 < 2 ^ 64 →
  kvm_write_guest_loop fuel m k gfn offset len0 = Some (r, k') →
  ∃ n, 0 ≤ n ≤ pages_spanned offset len0
       ∧ k' = foldl mark_page_dirty k (seqZ gfn n)
       ∧ (r = 0 ∧ n = pages_spanned offset len0
          ∨ r = - EFAULT ∧ n < pages_spanned offset len0)
       ∧ (∀ i, 0 ≤ i < n → page_copied m k gfn offset len0 i)
       ∧ (n < pages_spanned offset len0 → ¬ page_copied m k gfn offset len0 n).
Proof.
  pose proof PAGE_SIZE_range as HPS.
  revert k gfn offset len0.
  induction fuel as [|fuel IH]; intros k gfn offset len0 Hoff Hlen Hgfn Hend;
    cbn [kvm_write_guest_loop]; unfold next_segment;
    destruct (Z.ltb_spec (PAGE_SIZE - offset) len0) as [Hmore|Hlast].
  - destruct (Z.eqb_spec (PAGE_SIZE - offset) 0); [exfalso; lia|done].
  - destruct (Z.eqb_spec len0 0) as [->|?]; [|done].
    intros [= <- <-]. exists 0. unfold pages_spanned. cbn.
    split; [lia|]. split; [done|]. split; [auto|]. split; intros; lia.
  - destruct (Z.eqb_spec (PAGE_SIZE - offset) 0) as [?|_]; [exfalso; lia|].
    rewrite (pages_spanned_next offset len0) in * by lia.
    assert (0 ≤ pages_spanned 0 (len0 - (PAGE_SIZE - offset))) as Hrest
      by (apply pages_spanned_nonneg; lia).
    destruct (kvm_write_guest_page_copied m k gfn offset len0
                (PAGE_SIZE - offset)) as [[-> Hc]|[-> Hc]].
    { unfold segment. cbn. f_equal. lia. }
    + cbn [Z.ltb Z.compare]. rewrite u64_small, ulong_small by lia.
      intros Hrun. apply IH in Hrun as (n & Hn & -> & Hr & Hall & Hnot);
        [|lia..].
      exists (1 + n). split; [lia|]. split; [|split; [|split]].
      * rewrite (seqZ_cons gfn (1 + n)) by lia. cbn [foldl].
        by replace (Z.succ gfn) with (gfn + 1) by lia;
           replace (Z.pred (1 + n)) with n by lia.
      * destruct Hr as [[-> ->]|[-> ?]]; [left|right]; split; (done || lia).
      * intros i Hi. destruct (decide (i = 0)) as [->|Hne]; [done|].
        replace i with (1 + (i - 1)) by lia.
        apply (page_copied_next m k (mark_page_dirty k gfn));
          [apply mark_page_dirty_memslots|lia|]. apply Hall. lia.
      * intros Hlt Hcopied. apply Hnot; [lia|].
        apply (page_copied_next m k (mark_page_dirty k gfn)) in Hcopied;
          [done|apply mark_page_dirty_memslots|lia].
    + rewrite (proj2 (Z.ltb_lt _ _)) by (unfold EFAULT; lia).
      intros [= <- <-]. exists 0. split; [lia|]. split; [done|].
      split; [right; lia|]. split; [intros; lia|done].
  - destruct (Z.eqb_spec len0 0) as [->|Hpos].
    { intros [= <- <-]. exists 0. unfold pages_spanned. cbn.
      split; [lia|]. split; [done|]. split; [auto|]. split; intros; lia. }
    rewrite (pages_spanned_last offset len0) in * by lia.
    destruct (kvm_write_guest_page_copied m k gfn offset len0 len0)
      as [[-> Hc]|[-> Hc]].
    { unfold segment. cbn. f_equal. lia. }
    + cbn [Z.ltb Z.compare]. rewrite Z.sub_diag.
      assert (ulong 0 = 0) as Hz
        by (apply ulong_small; pose proof (ulong_range 0); lia).
      rewrite Hz. intros Hrun.
      assert (r = 0 ∧ k' = mark_page_dirty k gfn) as [-> ->].
      { destruct fuel; cbn in Hrun; unfold next_segment in Hrun;
          (destruct (Z.ltb_spec (PAGE_SIZE - 0) 0); [lia|]);
          cbn in Hrun; by simplify_eq. }
      exists 1. split; [lia|]. split; [done|]. split; [by left|].
      split; [|intros; lia].
      intros i Hi. by replace i with 0 by lia.
    + rewrite (proj2 (Z.ltb_lt _ _)) by (unfold EFAULT; lia).
      intros [= <- <-]. exists 0. split; [lia|]. split; [done|].
      split; [right; lia|]. split; [intros; lia|done].
Qed.

(** X18.  A write of [len0] bytes at guest address [gpa] returns, and goes
    page by page from the first one.  A page counts as written when its
    frame has a host address and __copy_to_user of the bytes that fall in
    the page, to that address, returned 0.  When the write returns 0, every
    page the bytes lie in has been written and marked dirty.  When it fails
    it returns -EFAULT at the first page that could not be written: the
    pages before it stay written and marked dirty, nothing being rolled
    back, and no later page is touched.  A write of no bytes touches
    nothing.  The slot table is never changed. *)
Theorem kvm_write_guest_marks_pages (m : host_mm) (k : kvm) (gpa len0 : Z) :
  let gfn := Z.shiftr gpa PAGE_SHIFT in
  let offset := offset_in_page gpa in
  let pages := pages_spanned offset len0 in
  0 ≤ gpa → 0 ≤ len0 < 2 ^ BITS_PER_LONG → gpa + len0 < 2 ^ 64 →
  ∃ r k' n,
    kvm_write_guest m k gpa len0 = Some (r, k')
    ∧ 0 ≤ n ≤ pages
    ∧ (∀ i, 0 ≤ i < n → page_copied m k gfn offset len0 i)
    ∧ (n < pages → ¬ page_copied m k gfn offset len0 n)
    ∧ k' = foldl mark_page_dirty k (seqZ gfn n)
    ∧ (r = 0 ∧ n = pages ∨ r = - EFAULT ∧ n < pages)
    ∧ kvm_memslots_of k' = kvm_memslots_of k.
Proof.
  intros gfn offset pages Hgpa Hlen Hend.
  pose proof (offset_in_page_range gpa) as Hoff.
  pose proof PAGE_SIZE_range as HPS. pose proof PAGE_SHIFT_range as HSH.
  destruct (kvm_write_guest_returns m k gpa len0 Hlen) as [[r k'] Hrun].
  exists r, k'. unfold kvm_write_guest in Hrun.
  assert (0 ≤ gfn) as Hgfn.
  { subst gfn. rewrite Z.shiftr_div_pow2 by lia. apply Z.div_pos; lia. }
  assert (gfn + pages < 2 ^ 64) as Hpages.
  { subst gfn pages offset. unfold pages_spanned.
    destruct (Z.eqb_spec len0 0) as [->|Hne].
    - rewrite Z.shiftr_div_pow2 by lia.
      assert (gpa / 2 ^ PAGE_SHIFT ≤ gpa); [|lia].
      apply Z.div_le_upper_bound; nia.
    - assert (gpa = PAGE_SIZE * Z.shiftr gpa PAGE_SHIFT + offset_in_page gpa)
        as Hsplit.
      { unfold offset_in_page. rewrite land_page_mask, PAGE_SIZE_eq.
        rewrite Z.shiftr_div_pow2 by lia. apply Z.div_mod. lia. }
      assert (Z.shiftr gpa PAGE_SHIFT
              + (offset_in_page gpa + len0 + PAGE_SIZE - 1) / PAGE_SIZE
              = (gpa + len0 + PAGE_SIZE - 1) / PAGE_SIZE) as ->.
      { rewrite Hsplit at 3.
        replace (PAGE_SIZE * Z.shiftr gpa PAGE_SHIFT + offset_in_page gpa
                 + len0 + PAGE_SIZE - 1)
          with (offset_in_page gpa + len0 + PAGE_SIZE - 1
                + Z.shiftr gpa PAGE_SHIFT * PAGE_SIZE) by lia.
        rewrite Z.div_add by lia. lia. }
      assert ((gpa + len0 + PAGE_SIZE - 1) / PAGE_SIZE ≤ gpa + len0); [|lia].
      apply Z.div_le_upper_bound; nia. }
  destruct (kvm_write_guest_loop_copies _ m k gfn offset len0 r k'
              Hoff Hlen Hgfn Hpages Hrun) as (n & Hn & -> & Hr & Hall & Hnot).
  exists n. split; [done|]. split; [done|]. split; [done|]. split; [done|].
  split; [done|]. split; [done|]. apply mark_pages_memslots.
Qed.

Lemma cache_init_walk_result fuel k ghc start_gfn end_gfn r ghc' :
  cache_init_walk fuel k ghc start_gfn end_gfn = Some (r, ghc') →
  ghc_generation ghc' = ghc_generation ghc ∧ ghc_gpa ghc' = ghc_gpa ghc
  ∧ ghc_len ghc' = ghc_len ghc
  ∧ (r = 0 ∧ ghc_memslot ghc' = None
     ∨ r = - EFAULT ∧ kvm_is_error_hva (ghc_hva ghc') = true).
Proof.
  revert ghc start_gfn.
  induction fuel as [|fuel IH]; intros ghc start_gfn; cbn [cache_init_walk];
    destruct (end_gfn <? start_gfn); try done.
  - intros [= <- <-]. cbn. auto 10.
  - intros [= <- <-]. cbn. auto 10.
  - destruct (gfn_to_hva_many _ _ _) as [hva avail].
    destruct (kvm_is_error_hva hva) eqn:Herr.
    + intros [= <- <-]. cbn. auto 10.
    + intros Hrun. by apply IH in Hrun.
Qed.

Lemma more_than_one_page gpa len0 :
  0 ≤ gpa → len0 < 2 ^ 64 → gpa + len0 ≤ 2 ^ 64 →
  PAGE_SIZE < offset_in_page gpa + len0 →
  1 < u64 (Z.shiftr (u64 (gpa + len0 - 1)) PAGE_SHIFT
           - Z.shiftr gpa PAGE_SHIFT + 1).
Proof.
  intros Hgpa Hlen Hend Hmany.
  pose proof (offset_in_page_range gpa) as Hoff.
  pose proof PAGE_SIZE_range as HPS. pose proof PAGE_SHIFT_range as HSH.
  assert (gpa = PAGE_SIZE * Z.shiftr gpa PAGE_SHIFT + offset_in_page gpa)
    as Hsplit.
  { unfold offset_in_page. rewrite land_page_mask, PAGE_SIZE_eq.
    rewrite Z.shiftr_div_pow2 by lia. apply Z.div_mod. lia. }
  rewrite (u64_small (gpa + len0 - 1)) by lia.
  rewrite (Z.shiftr_div_pow2 (gpa + len0 - 1)) by lia.
  rewrite <- PAGE_SIZE_eq.
  set (s := Z.shiftr gpa PAGE_SHIFT) in *.
  assert (0 ≤ s).
  { subst s. rewrite Z.shiftr_div_pow2 by lia. apply Z.div_pos; lia. }
  assert (s + 1 ≤ (gpa + len0 - 1) / PAGE_SIZE).
  { apply Z.div_le_lower_bound; [lia|]. nia. }
  assert (((gpa + len0 - 1) / PAGE_SIZE - s) * PAGE_SIZE
          ≤ offset_in_page gpa + len0 - 1) as Hspan.
  { pose proof (Z.mul_div_le (gpa + len0 - 1) PAGE_SIZE). nia. }
  assert ((gpa + len0 - 1) / PAGE_SIZE - s + 1 < 2 ^ 64).
  { destruct (decide (PAGE_SIZE = 1)) as [Hone|Hne]; nia. }
  rewrite u64_small; lia.
Qed.

(** X19.  Initialising a cached guest-address handle, for bytes that lie
    in the guest-physical address space.  The initialisation returns, with
    0 or -EFAULT.  A handle for bytes that lie in more than one page is
    never given a slot: on success it is marked for the slow path, and a
    cached write through it is the page-by-page write of kvm_write_guest at
    the handle's address.  A handle that does get a slot has all its bytes
    in one page (the offset of the first byte in its page plus the length
    is at most the page size) and holds the host address of its first
    byte.  When the initialisation fails the handle holds an error address,
    so that a cached write through it fails with -EFAULT and changes
    nothing, unless it has no slot and takes the slow path.  A cached write
    through a handle with a slot checks the address, copies to it and marks
    the handle's page dirty. *)
Theorem cache_init_paths (k : kvm) (ghc : gfn_to_hva_cache) (gpa len0 : Z) :
  let start_gfn := Z.shiftr gpa PAGE_SHIFT in
  Forall slot_in_range (memslots (kvm_memslots_of k)) →
  0 ≤ gpa → 0 ≤ len0 < 2 ^ BITS_PER_LONG → gpa + len0 ≤ 2 ^ 64 →
  ∃ r ghc',
    kvm_gfn_to_hva_cache_init k ghc gpa len0 = Some (r, ghc')
    ∧ (r = 0 ∨ r = - EFAULT)
    ∧ (PAGE_SIZE < offset_in_page gpa + len0 → r = 0 →
       ghc_memslot ghc' = None)
    ∧ (r = 0 → ghc_memslot ghc' ≠ None →
       offset_in_page gpa + len0 ≤ PAGE_SIZE
       ∧ ghc_memslot ghc' = gfn_to_memslot k start_gfn
       ∧ kvm_is_error_hva (gfn_to_hva k start_gfn) = false
       ∧ ghc_hva ghc' = ulong (gfn_to_hva k start_gfn + offset_in_page gpa))
    ∧ (r = - EFAULT → kvm_is_error_hva (ghc_hva ghc') = true)
    ∧ (∀ m len1, len1 ≤ len0 →
         kvm_write_guest_cached m k ghc' len1
         = match ghc_memslot ghc' with
           | None => (λ rk, Done (rk.1, rk.2, ghc'))
                       <$> kvm_write_guest m k gpa len1
           | Some _ =>
               Some (Done (if kvm_is_error_hva (ghc_hva ghc')
                              || nonzero (__copy_to_user m (ghc_hva ghc') len1)
                           then (- EFAULT, k, ghc')
                           else (0, mark_page_dirty k start_gfn, ghc')))
           end).
Proof.
  intros start_gfn Hrange Hgpa Hlen0 Hend.
  destruct (cache_init_returns k ghc gpa len0 Hrange Hgpa)
    as (r & ghc' & Hrun & _).
  exists r, ghc'. split; [done|].
  set (end_gfn := Z.shiftr (u64 (gpa + len0 - 1)) PAGE_SHIFT).
  pose proof long_le_64 as Hlong.
  assert (len0 < 2 ^ 64) as Hlen64 by lia.
  pose proof (more_than_one_page gpa len0 Hgpa Hlen64 Hend) as Hmore.
  fold start_gfn end_gfn in Hmore.
  assert (ghc_generation ghc' = generation (kvm_memslots_of k)
          ∧ ghc_gpa ghc' = gpa ∧ ghc_len ghc' = len0
          ∧ (r = 0 ∧ ghc_memslot ghc' = None
             ∨ r = - EFAULT ∧ kvm_is_error_hva (ghc_hva ghc') = true
             ∨ r = 0 ∧ u64 (end_gfn - start_gfn + 1) ≤ 1
               ∧ ghc_memslot ghc' = gfn_to_memslot k start_gfn
               ∧ kvm_is_error_hva (gfn_to_hva k start_gfn) = false
               ∧ ghc_hva ghc'
                 = ulong (gfn_to_hva k start_gfn + offset_in_page gpa)))
    as (Hgen & Hg & Hlen & Hcases).
  { unfold kvm_gfn_to_hva_cache_init in Hrun. cbn zeta in Hrun.
    fold start_gfn end_gfn in Hrun. fold (gfn_to_hva k start_gfn) in Hrun.
    destruct (negb (kvm_is_error_hva (gfn_to_hva k start_gfn))
              && (u64 (end_gfn - start_gfn + 1) <=? 1)) eqn:Hfast.
    - simplify_eq. cbn. apply andb_true_iff in Hfast as [Herr Hone].
      apply negb_true_iff in Herr. apply Z.leb_le in Hone.
      split; [done|]. split; [done|]. split; [done|]. right. right. done.
    - apply cache_init_walk_result in Hrun as (? & ? & ? & [?|?]).
      cbn in *. split_and!; auto. cbn in *. split_and!; auto. }
  assert (- EFAULT ≠ 0) as Hefault by done.
  split; [destruct Hcases as [[-> _]|[[-> _]|[-> _]]]; auto|].
  split.
  { intros Hmany Hr0. destruct Hcases as [[_ ?]|[[? _]|[_ [? _]]]];
      [done|congruence|]. specialize (Hmore Hmany). lia. }
  split.
  { intros -> Hslot.
    destruct Hcases as [[_ ?]|[[? _]|(_ & Hone & ? & ? & ?)]]; [done..|].
    split; [|done].
    destruct (Z.le_gt_cases (offset_in_page gpa + len0) PAGE_SIZE); [done|].
    assert (PAGE_SIZE < offset_in_page gpa + len0) as Hmany by lia.
    specialize (Hmore Hmany). lia. }
  split.
  { intros ->. destruct Hcases as [[? _]|[[_ ?]|[? _]]]; done. }
  intros m len1 Hlen1. unfold kvm_write_guest_cached.
  rewrite Hlen, Hgen, Z.eqb_refl.
  destruct (Z.ltb_spec len0 len1); [lia|]. cbn [negb mbind option_bind].
  unfold write_through_cache. rewrite Hg.
  destruct (ghc_memslot ghc') as [s|] eqn:Hslot.
  - destruct Hcases as [[_ ?]|[[-> Herr]|(-> & _ & Hs & _)]]; [done|..].
    + by rewrite Herr.
    + unfold mark_page_dirty. fold start_gfn.
      rewrite <- Hs. by repeat case_match.
  - by destruct (kvm_write_guest m k gpa len1) as [[r1 k1]|].
Qed.

End GuestWrites.

(** ** The life of a dirty bitmap *)
Section BitmapLife.
Context `{Platform}.

Lemma publish_region_success e k mem old new c tr0 k' tr :
  publish_region e k mem old new c tr0 = (0, k', tr) →
  let new' := if bool_decide (c = KVM_MR_DELETE)
              then set_arch (set_dirty_bitmap new None) 0 else new in
  ∃ g, kvm_memslots_of k' = update_memslots (kvm_memslots_of k) (Some new') g
       ∧ kmem k' = (kvm_free_physmem_slot (kmem k) old (Some new')).1
       ∧ EvArchCommit old c ∈ tr.
Proof.
  intros Hrun. cbn zeta.
  unfold publish_region, out_slots, out_free, install_new_memslots in Hrun.
  repeat case_match; simplify_eq;
    try match goal with
        | Hnz : nonzero 0 = true |- _ => discriminate Hnz
        | Hnz : nonzero ?r = true, Hr : ?r = 0 |- _ =>
            rewrite Hr in Hnz; discriminate Hnz
        end.
  all: cbn [kvm_memslots_of set_kmem set_memslots kmem fst].
  all: eexists; split; [reflexivity|].
  all: match goal with
       | Hf : kvm_free_physmem_slot _ _ _ = (_, _) |- _ =>
           cbn [kmem set_memslots set_kmem] in Hf; rewrite Hf
       end.
  all: split; [done|].
  all: rewrite ?elem_of_app, ?elem_of_cons; auto 10.
Qed.

Lemma prepare_new_slot_success e k mem old new0 np c k' tr :
  prepare_new_slot e k mem old new0 np c = (0, k', tr) →
  ∃ g new h1,
    (base_gfn new = base_gfn new0 ∧ npages new = npages new0
     ∧ flags new = flags new0 ∧ id new = id new0)
    ∧ (if nonzero (Z.land (flags new0) KVM_MEM_LOG_DIRTY_PAGES) then
         match dirty_bitmap new0 with
         | Some p => dirty_bitmap new = Some p ∧ h1 = kmem k
         | None =>
             ∃ p, kmem k !! p = None ∧ dirty_bitmap new = Some p
                  ∧ h1 = <[p := replicate (dirty_bitmap_words new0) 0]> (kmem k)
         end
       else dirty_bitmap new = None ∧ h1 = kmem k)
    ∧ let new' := if bool_decide (c = KVM_MR_DELETE)
                  then set_arch (set_dirty_bitmap new None) 0 else new in
      kvm_memslots_of k' = update_memslots (kvm_memslots_of k) (Some new') g
      ∧ kmem k' = (kvm_free_physmem_slot h1 old (Some new')).1
      ∧ EvArchCommit old c ∈ tr.
Proof.
  intros Hrun. unfold prepare_new_slot in Hrun.
  set (logging := nonzero (Z.land (flags new0) KVM_MEM_LOG_DIRTY_PAGES)) in *.
  set (new1 := if logging then new0 else set_dirty_bitmap new0 None) in Hrun.
  assert (base_gfn new1 = base_gfn new0 ∧ npages new1 = npages new0
          ∧ flags new1 = flags new0 ∧ id new1 = id new0
          ∧ dirty_bitmap new1 = if logging then dirty_bitmap new0 else None)
    as Hnew1 by (subst new1; by destruct logging).
  clearbody new1.
  set (created := if bool_decide (c = KVM_MR_CREATE) then _ else _) in Hrun.
  assert (base_gfn created.2 = base_gfn new0 ∧ npages created.2 = npages new0
          ∧ flags created.2 = flags new0 ∧ id created.2 = id new0
          ∧ dirty_bitmap created.2 = if logging then dirty_bitmap new0 else None)
    as Hcreated.
  { subst created. case_bool_decide; [|done].
    by destruct (kvm_arch_create_memslot e _ np). }
  destruct created as [failed new2]. cbn [snd] in Hcreated.
  destruct Hcreated as (Hb & Hn & Hf & Hi & Hd).
  destruct failed.
  { unfold out_free in Hrun. destruct (kvm_free_physmem_slot _ _ _).
    by simplify_eq. }
  rewrite Hf in Hrun. fold logging in Hrun.
  destruct logging eqn:Hlog; cbn [andb] in Hrun.
  - destruct (dirty_bitmap new0) as [p0|] eqn:Hd0.
    + rewrite bool_decide_eq_false_2 in Hrun by (by rewrite Hd).
      apply publish_region_success in Hrun as (g & Htable & Hheap & Hev).
      exists g, new2, (kmem k). by split_and!.
    + rewrite bool_decide_eq_true_2 in Hrun by done.
      unfold kvm_create_dirty_bitmap in Hrun.
      destruct (kvzalloc_fails e).
      { unfold out_free in Hrun. destruct (kvm_free_physmem_slot _ _ _).
        by simplify_eq. }
      apply publish_region_success in Hrun as (g & Htable & Hheap & Hev).
      cbn [kvm_memslots_of set_kmem kmem] in Htable, Hheap.
      eexists g, _, _. split; [|split; [|split_and!; [exact Htable|exact Hheap|done]]].
      * by cbn.
      * exists (fresh (dom (kmem k))). split.
        { apply not_elem_of_dom. apply is_fresh. }
        split; [done|]. f_equal. f_equal.
        unfold dirty_bitmap_words, kvm_dirty_bitmap_bytes. by rewrite Hn.
  - apply publish_region_success in Hrun as (g & Htable & Hheap & Hev).
    exists g, new2, (kmem k). by split_and!.
Qed.

(** What a request that returned 0 and changed the slot leaves: the table
    with the slot replaced, and the bitmap of the slot kept, made or
    freed. *)
Lemma set_region_change `{!SortPermutes} e k k' mem tr :
  let old := id_to_memslot (kvm_memslots_of k) (mem_slot mem) in
  request_typed mem →
  ids_consistent (kvm_memslots_of k) →
  __kvm_set_memory_region e k mem = (0, k', tr) →
  tr ≠ [] →
  ∃ new g,
    kvm_memslots_of k' = update_memslots (kvm_memslots_of k) (Some new) g
    ∧ id_to_memslot (kvm_memslots_of k') (mem_slot mem) = new
    ∧ id new = mem_slot mem ∧ npages new = req_npages mem
    ∧ if nonzero (Z.land (req_flags mem) KVM_MEM_LOG_DIRTY_PAGES) then
        req_npages mem ≠ 0
        ∧ match dirty_bitmap old with
          | Some p => dirty_bitmap new = Some p ∧ kmem k' = kmem k
          | None =>
              ∃ p, kmem k !! p = None ∧ dirty_bitmap new = Some p
                   ∧ kmem k'
                     = <[p := replicate (dirty_bitmap_words new) 0]> (kmem k)
          end
      else
        dirty_bitmap new = None
        ∧ kmem k' = match dirty_bitmap old with
                    | Some p => delete p (kmem k)
                    | None => kmem k
                    end.
Proof.
  intros old Htyped Hc Hrun Htr.
  destruct (decide (sanity_checks e mem = 0)) as [Hok|Hbad].
  2:{ rewrite set_region_insane in Hrun by done. by simplify_eq. }
  pose proof (request_slot_range e mem Htyped Hok) as Hslot.
  rewrite set_region_after_sanity in Hrun by done. cbn zeta in Hrun.
  fold old in Hrun.
  destruct (classify _ _ _ _ _) as [c| |] eqn:Hcls; [|by simplify_eq..].
  apply classify_geometry in Hcls.
  destruct (bool_decide _ && region_in_use _ _ _ _); [by simplify_eq|].
  apply prepare_new_slot_success in Hrun
    as (g & new & h1 & (Hb & Hn & Hf & Hi) & Hbitmap & Htable & Hheap & _).
  cbn [base_gfn npages flags id dirty_bitmap set_flags set_npages set_base_gfn
       set_id] in Hb, Hn, Hf, Hi, Hbitmap.
  set (new' := if bool_decide (c = KVM_MR_DELETE)
               then set_arch (set_dirty_bitmap new None) 0 else new) in *.
  assert (id new' = mem_slot mem) as Hi' by (subst new'; by case_bool_decide).
  assert (npages new' = req_npages mem) as Hnp
    by (subst new'; by case_bool_decide).
  exists new', g. split; [done|]. split.
  { rewrite Htable, <- Hi'. apply update_memslots_lookup; [done|by rewrite Hi']. }
  split; [done|]. split; [done|].
  assert (dirty_bitmap_words new'
          = dirty_bitmap_words
              (set_flags (set_npages (set_base_gfn (set_id old (mem_slot mem))
                                        (req_base_gfn mem)) (req_npages mem))
                         (req_flags mem))) as Hwords.
  { unfold dirty_bitmap_words, kvm_dirty_bitmap_bytes. by rewrite Hnp. }
  rewrite Hheap. unfold kvm_free_physmem_slot, kvm_destroy_dirty_bitmap.
  destruct (nonzero (Z.land (req_flags mem) KVM_MEM_LOG_DIRTY_PAGES)) eqn:Hlog.
  - (* the request asks for the log: it has pages, so it is no DELETE *)
    assert (req_npages mem ≠ 0) as Hpages.
    { intros Hz. revert Hlog. unfold req_flags. rewrite Hz. cbn [Z.eqb].
      rewrite <- Z.land_assoc.
      change (Z.land (u32 (Z.lnot KVM_MEM_LOG_DIRTY_PAGES))
                     KVM_MEM_LOG_DIRTY_PAGES) with 0.
      by rewrite Z.land_0_r. }
    assert (c ≠ KVM_MR_DELETE) as Hnd by (by intros ->).
    assert (new' = new) as Hnew'
      by (subst new'; by rewrite bool_decide_eq_false_2).
    rewrite Hnew' in *. split; [done|].
    destruct (dirty_bitmap old) as [p|] eqn:Hold.
    + destruct Hbitmap as [Hdn ->]. rewrite Hdn.
      split; [done|]. by case_decide.
    + destruct Hbitmap as (p & Hfresh & Hdn & ->). rewrite Hdn.
      exists p. split; [done|]. split; [done|].
      case_decide; [|done]. cbn. by rewrite Hwords.
  - destruct Hbitmap as [Hdn ->].
    assert (dirty_bitmap new' = None) as Hdn'
      by (subst new'; by case_bool_decide).
    rewrite Hdn'. split; [done|].
    destruct (dirty_bitmap old) as [p|]; by case_decide.
Qed.

(** X20.  The life of a dirty bitmap.  After a set-region request that
    returned 0 and changed the slot: when the request asks for the dirty log
    and the slot had a bitmap, the slot keeps that bitmap with its contents
    (also when the slot is moved); when it asks for the log and the slot had
    none, the slot gets a bitmap at a fresh address, all zeroes, twice the
    words the log needs; when it does not ask for the log (a request that
    deletes the slot never does), the slot has no bitmap afterwards and the
    one it had is freed.  No other bitmap is touched. *)
Theorem set_region_dirty_bitmap `{!SortPermutes} (e : environment) (k k' : kvm)
    (mem : kvm_userspace_memory_region) (tr : list event) :
  let old := id_to_memslot (kvm_memslots_of k) (mem_slot mem) in
  let slot := id_to_memslot (kvm_memslots_of k') (mem_slot mem) in
  request_typed mem →
  ids_consistent (kvm_memslots_of k) →
  __kvm_set_memory_region e k mem = (0, k', tr) →
  tr ≠ [] →
  if nonzero (Z.land (req_flags mem) KVM_MEM_LOG_DIRTY_PAGES) then
    match dirty_bitmap old with
    | Some p => dirty_bitmap slot = Some p ∧ kmem k' = kmem k
    | None =>
        ∃ p, kmem k !! p = None ∧ dirty_bitmap slot = Some p
             ∧ kmem k' = <[p := replicate (dirty_bitmap_words slot) 0]> (kmem k)
    end
  else
    dirty_bitmap slot = None
    ∧ kmem k' = match dirty_bitmap old with
                | Some p => delete p (kmem k)
                | None => kmem k
                end.
Proof.
  intros old slot Htyped Hc Hrun Htr.
  destruct (set_region_change e k k' mem tr Htyped Hc Hrun Htr)
    as (new & g & _ & Hslot & _ & _ & Hbitmap).
  fold old in Hbitmap. fold slot in Hslot. rewrite Hslot.
  destruct (nonzero (Z.land (req_flags mem) KVM_MEM_LOG_DIRTY_PAGES));
    [|done].
  by destruct Hbitmap as [_ Hbitmap].
Qed.

(** X21.  Requests for the dirty log that are refused.  On a table whose id
    index is consistent and in which no slot without the log flag has a
    bitmap (every table the slot code produces), kvm_get_dirty_log returns
    -EINVAL for the id of a private slot and -ENOENT for a slot that does
    not log, a slot that does not exist included; it returns 0 when
    copy_to_user succeeds on a slot that logs, and -EFAULT when it fails
    there.  Whatever it returns, the virtual machine is as before: the log
    is not cleared.  When it fails, the caller's [is_dirty] is not
    written. *)
Theorem dirty_log_refused (copy_fails : bool) (k : kvm) (log_slot is_dirty : Z) :
  let slot := id_to_memslot (kvm_memslots_of k) log_slot in
  let res := kvm_get_dirty_log copy_fails k log_slot is_dirty in
  ids_consistent (kvm_memslots_of k) →
  no_log_no_bitmap (kvm_memslots_of k) →
  0 ≤ log_slot →
  (KVM_USER_MEM_SLOTS ≤ log_slot → res = (- EINVAL, k, None, is_dirty))
  ∧ (log_slot < KVM_USER_MEM_SLOTS →
     Z.land (flags slot) KVM_MEM_LOG_DIRTY_PAGES = 0 →
     res = (- ENOENT, k, None, is_dirty))
  ∧ (log_slot < KVM_USER_MEM_SLOTS → dirty_bitmap slot ≠ None →
     res.1.1.1 = if copy_fails then - EFAULT else 0)
  ∧ res.1.1.2 = k
  ∧ (res.1.1.1 ≠ 0 → res.2 = is_dirty).
Proof.
  intros slot res Hc Hlog Hpos. subst res. unfold kvm_get_dirty_log.
  destruct (Z.leb_spec KVM_USER_MEM_SLOTS log_slot) as [Hpriv|Huser].
  { split; [done|]. split; [lia|]. split; [lia|]. by split_and!. }
  split; [lia|]. fold slot.
  assert (Z.land (flags slot) KVM_MEM_LOG_DIRTY_PAGES = 0 →
          dirty_bitmap slot = None) as Hnone.
  { destruct (ids_consistent_index _ log_slot Hc) as (s & Hs & _ & Hslot).
    { pose proof KVM_PRIVATE_MEM_SLOTS_nonneg. unfold KVM_MEM_SLOTS_NUM. lia. }
    fold slot in Hslot. rewrite Hslot.
    unfold no_log_no_bitmap in Hlog. rewrite Forall_lookup in Hlog.
    by apply (Hlog _ _ Hs). }
  split.
  { intros _ Hflag. by rewrite (Hnone Hflag). }
  destruct (dirty_bitmap slot) as [p|]; [|by split_and!].
  destruct copy_fails; cbn [fst snd]; by split_and!.
Qed.

End BitmapLife.

(** ** Who owns the dirty bitmaps *)
Section BitmapsAtRest.
Context `{Platform}.

Lemma bitmaps_owned_new : bitmaps_owned kvm_create_vm.
Proof.
  unfold bitmaps_owned, kvm_create_vm, kvm_init_memslots.
  cbn [kvm_memslots_of memslots kmem]. split_and!.
  - by intros s p (x & -> & _)%list_elem_of_fmap.
  - intros p Hp. set_solver.
  - by intros s t p (x & -> & _)%list_elem_of_fmap.
Qed.

Lemma bitmaps_owned_mark_page_dirty k gfn :
  bitmaps_owned k → bitmaps_owned (mark_page_dirty k gfn).
Proof.
  intros Hk. unfold bitmaps_owned. rewrite mark_page_dirty_memslots.
  assert (dom (kmem (mark_page_dirty k gfn)) = dom (kmem k)) as ->; [|done].
  unfold mark_page_dirty, mark_page_dirty_in_slot.
  repeat case_match; try done. cbn. apply dom_alter_L.
Qed.

End BitmapsAtRest.

Section BitmapOwners.
Context `{Platform} `{!SortPermutes}.

Lemma set_region_failure_heap e k mem r k' tr :
  __kvm_set_memory_region e k mem = (r, k', tr) → r ≠ 0 → kmem k' = kmem k.
Proof.
  intros Hrun Hr.
  destruct (decide (sanity_checks e mem = 0)) as [Hok|Hbad].
  - rewrite set_region_after_sanity in Hrun by done. cbn zeta in Hrun.
    repeat case_match; simplify_eq; try done.
    eapply prepare_new_slot_failure in Hrun; [|done|done].
    by destruct Hrun as [[-> _]|(_ & -> & _)].
  - rewrite set_region_insane in Hrun by done. by simplify_eq.
Qed.

Lemma invalidated_bitmaps slots i t :
  t ∈ memslots (invalidated slots i) →
  ∃ t0, t0 ∈ memslots slots ∧ id t0 = id t ∧ npages t0 = npages t
        ∧ dirty_bitmap t0 = dirty_bitmap t.
Proof.
  intros Ht. unfold invalidated in Ht. cbn [memslots] in Ht.
  apply list_elem_of_lookup in Ht as [q Hq].
  set (n := id_to_memslot_index slots i) in *.
  destruct (decide (q = n)) as [->|Hne].
  - pose proof (lookup_lt_Some _ _ _ Hq) as Hlt. rewrite length_insert in Hlt.
    rewrite list_lookup_insert_eq in Hq by done. simplify_eq.
    destruct (lookup_lt_is_Some_2 _ _ Hlt) as [s Hs].
    rewrite (list_lookup_total_correct _ _ _ Hs).
    exists s. split; [by eapply list_elem_of_lookup_2|done].
  - rewrite list_lookup_insert_ne in Hq by done.
    exists t. split; [by eapply list_elem_of_lookup_2|done].
Qed.

Lemma invalidated_bitmaps_back slots i t0 :
  t0 ∈ memslots slots →
  ∃ t, t ∈ memslots (invalidated slots i) ∧ id t0 = id t
       ∧ npages t0 = npages t ∧ dirty_bitmap t0 = dirty_bitmap t.
Proof.
  intros Ht. unfold invalidated. cbn [memslots].
  apply list_elem_of_lookup in Ht as [q Hq].
  set (n := id_to_memslot_index slots i) in *.
  destruct (decide (q = n)) as [->|Hne].
  - eexists. split.
    + eapply list_elem_of_lookup_2. apply list_lookup_insert_eq.
      by eapply lookup_lt_Some.
    + by rewrite (list_lookup_total_correct _ _ _ Hq).
  - exists t0. split; [|done].
    eapply (list_elem_of_lookup_2 _ q). by rewrite list_lookup_insert_ne.
Qed.

Lemma bitmaps_owned_invalidated k i :
  bitmaps_owned k →
  bitmaps_owned (set_memslots k (invalidated (kvm_memslots_of k) i)).
Proof.
  intros (Hin & Hown & Hshare). unfold bitmaps_owned.
  cbn [kvm_memslots_of set_memslots kmem]. split_and!.
  - intros s p Hs Hp. apply invalidated_bitmaps in Hs as (s0 & Hs0 & _ & Hn & Hd).
    rewrite <- Hn. apply Hin; [done|congruence].
  - intros p Hp. destruct (Hown p Hp) as (s0 & Hs0 & Hd).
    destruct (invalidated_bitmaps_back _ i _ Hs0) as (s & Hs & _ & _ & Hd').
    exists s. split; [done|congruence].
  - intros s t p Hs Ht Hps Hpt.
    apply invalidated_bitmaps in Hs as (s0 & Hs0 & <- & _ & Hds).
    apply invalidated_bitmaps in Ht as (t0 & Ht0 & <- & _ & Hdt).
    apply (Hshare s0 t0 p); congruence.
Qed.

Lemma set_region_silent e k mem k' :
  __kvm_set_memory_region e k mem = (0, k', []) → k' = k.
Proof.
  intros Hrun.
  destruct (decide (sanity_checks e mem = 0)) as [Hok|Hbad].
  2:{ rewrite set_region_insane in Hrun by done. by simplify_eq. }
  rewrite set_region_after_sanity in Hrun by done. cbn zeta in Hrun.
  destruct (classify _ _ _ _ _) as [c| |]; [|by simplify_eq..].
  destruct (bool_decide _ && region_in_use _ _ _ _); [by simplify_eq|].
  apply prepare_new_slot_trace in Hrun as [_ Hcommit].
  specialize (Hcommit eq_refl). by apply elem_of_nil in Hcommit.
Qed.

Lemma bitmaps_owned_set_region e k mem :
  request_typed mem →
  ids_consistent (kvm_memslots_of k) →
  bitmaps_owned k →
  bitmaps_owned (__kvm_set_memory_region e k mem).1.2.
Proof.
  intros Htyped Hc Hk.
  destruct (__kvm_set_memory_region e k mem) as [[r k'] tr] eqn:Hrun.
  cbn [fst snd].
  destruct (decide (r = 0)) as [->|Hr].
  2:{ pose proof (set_region_failure_heap _ _ _ _ _ _ Hrun Hr) as Hheap.
      apply set_region_table in Hrun. cbn zeta in Hrun.
      destruct Hrun as [[_ Ht]|[(_ & _ & Ht)|[(? & _)|(? & _)]]]; [| |done..].
      - destruct k, k'. cbn in *. by subst.
      - apply (bitmaps_owned_invalidated _ (mem_slot mem)) in Hk.
        destruct k, k'. cbn in *. by subst. }
  destruct (decide (tr = [])) as [->|Htr].
  { by rewrite (set_region_silent _ _ _ _ Hrun). }
  assert (0 ≤ mem_slot mem < KVM_MEM_SLOTS_NUM) as Hslot.
  { apply (request_slot_range e); [done|].
    destruct (decide (sanity_checks e mem = 0)) as [?|Hbad]; [done|].
    rewrite set_region_insane in Hrun by done. by simplify_eq. }
  destruct (set_region_change e k k' mem tr Htyped Hc Hrun Htr)
    as (new & g & Htable & _ & Hid & Hnp & Hbitmap).
  destruct (ids_consistent_index _ _ Hc Hslot) as (old & Hold & Hoid & Holdeq).
  rewrite Holdeq in Hbitmap.
  apply list_elem_of_lookup_2 in Hold.
  assert (∀ t, t ∈ memslots (kvm_memslots_of k') ↔
               t = new ∨ (t ∈ memslots (kvm_memslots_of k)
                          ∧ id t ≠ mem_slot mem)) as Hmem.
  { intros t. rewrite Htable, <- Hid.
    apply update_memslots_elem; [done|by rewrite Hid]. }
  assert (∀ s0, s0 ∈ memslots (kvm_memslots_of k) → id s0 = mem_slot mem →
                s0 = old) as Huniq.
  { intros s0 Hs0 Hs0id. apply list_elem_of_lookup in Hs0 as [i Hi].
    destruct (ids_consistent_position _ _ _ Hc Hi) as (_ & _ & <-).
    by rewrite Hs0id. }
  clear Holdeq.
  destruct Hk as (Hin & Hown & Hshare). unfold bitmaps_owned.
  destruct (nonzero (Z.land (req_flags mem) KVM_MEM_LOG_DIRTY_PAGES)).
  - destruct Hbitmap as [Hpages Hbitmap].
    destruct (dirty_bitmap old) as [p|] eqn:Hdold.
    + destruct Hbitmap as [Hdnew Hheap]. rewrite Hheap. split_and!.
      * intros s q [->|[Hs Hsid]]%Hmem Hq; [|by apply Hin].
        split; [congruence|]. simplify_eq. by apply (Hin old).
      * intros q Hq. destruct (Hown q Hq) as (s0 & Hs0 & Hd0).
        destruct (decide (id s0 = mem_slot mem)) as [Heq|Hne].
        -- rewrite (Huniq _ Hs0 Heq) in Hd0. exists new.
           split; [apply Hmem; by left|congruence].
        -- exists s0. split; [apply Hmem; by right|done].
      * intros s t q [->|[Hs Hsid]]%Hmem [->|[Ht Htid]]%Hmem Hqs Hqt;
          [done| | |by eapply Hshare].
        -- rewrite Hid, <- Hoid. symmetry. eapply Hshare; [done..|congruence].
        -- rewrite Hid, <- Hoid. eapply Hshare; [done..|congruence].
    + destruct Hbitmap as (p & Hfresh & Hdnew & Hheap). rewrite Hheap.
      apply not_elem_of_dom in Hfresh. split_and!.
      * intros s q [->|[Hs Hsid]]%Hmem Hq.
        -- split; [congruence|]. simplify_eq. set_solver.
        -- destruct (Hin s q Hs Hq). split; [done|set_solver].
      * intros q Hq. rewrite dom_insert in Hq.
        apply elem_of_union in Hq as [Hq|Hq].
        -- apply elem_of_singleton in Hq as ->. exists new.
           split; [apply Hmem; by left|done].
        -- destruct (Hown q Hq) as (s0 & Hs0 & Hd0).
           exists s0. split; [|done]. apply Hmem. right. split; [done|].
           intros Heq. rewrite (Huniq _ Hs0 Heq) in Hd0. congruence.
      * intros s t q [->|[Hs Hsid]]%Hmem [->|[Ht Htid]]%Hmem Hqs Hqt;
          [done| | |by eapply Hshare].
        -- exfalso. simplify_eq. by destruct (Hin t p Ht Hqt).
        -- exfalso. simplify_eq. by destruct (Hin s p Hs Hqs).
  - destruct Hbitmap as [Hdnew Hheap]. rewrite Hheap. split_and!.
    + intros s q [->|[Hs Hsid]]%Hmem Hq; [congruence|].
      destruct (Hin s q Hs Hq) as [Hn Hd]. split; [done|].
      destruct (dirty_bitmap old) as [p|] eqn:Hdold; [|done].
      rewrite dom_delete. apply elem_of_difference. split; [done|].
      intros ->%elem_of_singleton. apply Hsid. rewrite <- Hoid.
      by eapply Hshare.
    + intros q Hq.
      assert (q ∈ dom (kmem k) ∧ dirty_bitmap old ≠ Some q) as [Hq' Hne].
      { destruct (dirty_bitmap old) as [p|]; [|done].
        rewrite dom_delete in Hq. apply elem_of_difference in Hq as [? Hnp'].
        split; [done|]. intros [= ->]. set_solver. }
      destruct (Hown q Hq') as (s0 & Hs0 & Hd0).
      exists s0. split; [|done]. apply Hmem. right. split; [done|].
      intros Heq. rewrite (Huniq _ Hs0 Heq) in Hd0. congruence.
    + intros s t q [->|[Hs Hsid]]%Hmem [->|[Ht Htid]]%Hmem Hqs Hqt;
        [done|congruence|congruence|by eapply Hshare].
Qed.

(** X22.  Who owns the dirty bitmaps.  In every virtual machine reached
    from a new one by set-region requests, whatever they return, and by
    marking pages dirty: every bitmap a slot points to is allocated and the
    slot has pages; every allocated bitmap is the bitmap of a slot, none is
    leaked by a request that fails or replaces a slot; and no two slots
    share a bitmap. *)
Theorem reachable_bitmaps_owned `{!SortSorts} (k : kvm) :
  reachable k → bitmaps_owned k.
Proof.
  intros Hreach.
  assert (memslots_wf (kvm_memslots_of k)
          ∧ ids_consistent (kvm_memslots_of k)
          ∧ no_overlap (kvm_memslots_of k) ∧ bitmaps_owned k) as (_ & _ & _ & ?);
    [|done].
  induction Hreach as [|e k mem Hk IH Htyped|k gfn Hk IH].
  - split; [apply kvm_create_vm_wf|].
    split; [apply kvm_create_vm_ids_consistent|].
    split; [apply kvm_create_vm_no_overlap|apply bitmaps_owned_new].
  - destruct IH as (Hwf & Hc & Hno & Hown).
    destruct (set_region_ids_no_overlap e k mem Htyped Hwf Hc Hno) as [Hc' Hno'].
    split; [by apply set_region_memslots_wf; [apply Htyped|]|].
    split; [done|]. split; [done|]. by apply bitmaps_owned_set_region.
  - rewrite mark_page_dirty_memslots. destruct IH as (? & ? & ? & ?).
    split_and!; try done. by apply bitmaps_owned_mark_page_dirty.
Qed.

End BitmapOwners.

(** ** Tearing the slots down *)
Section FreeingSlots.
Context `{Platform}.

Lemma present_prefix_lookup l i s :
  present_prefix l !! i = Some s → l !! i = Some s.
Proof.
  revert i. induction l as [|h t IH]; intros i; cbn; [done|].
  destruct (npages h =? 0); [done|].
  destruct i as [|i]; cbn; [done|apply IH].
Qed.

Lemma NoDup_omap {A B} (f : A → option B) (l : list A) :
  (∀ i j a b y, l !! i = Some a → l !! j = Some b →
                f a = Some y → f b = Some y → i = j) →
  NoDup (omap f l).
Proof.
  induction l as [|a l IH]; intros Hinj; cbn; [apply NoDup_nil_2|].
  assert (NoDup (omap f l)) as Hl.
  { apply IH. intros i j x b y Hi Hj Hx Hb.
    by injection (Hinj (S i) (S j) x b y Hi Hj Hx Hb). }
  destruct (f a) as [y|] eqn:Hy; [|done].
  apply NoDup_cons. split; [|done].
  intros (b & Hb & Hfb)%list_elem_of_omap.
  apply list_elem_of_lookup in Hb as [j Hj].
  by specialize (Hinj 0%nat (S j) a b y eq_refl Hj Hy Hfb).
Qed.

Lemma free_memslots_spec h l :
  dom (free_memslots h l).1 = dom h ∖ list_to_set (omap dirty_bitmap l)
  ∧ freed (free_memslots h l).2 = omap dirty_bitmap l.
Proof.
  revert h. induction l as [|s l IH]; intros h.
  { cbn. split; [set_solver|done]. }
  cbn [free_memslots omap list_omap].
  unfold kvm_free_physmem_slot, kvm_destroy_dirty_bitmap.
  destruct (dirty_bitmap s) as [p|].
  - specialize (IH (delete p h)).
    destruct (free_memslots (delete p h) l) as [h2 tr]. cbn [fst snd] in *.
    destruct IH as [-> Hfreed]. unfold freed in *. cbn. rewrite Hfreed.
    split; [|done]. rewrite dom_delete_L. set_solver.
  - specialize (IH h).
    destruct (free_memslots h l) as [h2 tr]. cbn [fst snd] in *.
    destruct IH as [-> Hfreed]. unfold freed in *. cbn. by rewrite Hfreed.
Qed.

(** X23.  Tearing the slots down.  On a table that is sorted, whose index
    agrees with it and whose bitmaps are owned, kvm_free_physmem frees every
    allocated dirty bitmap, each exactly once, and nothing is left
    allocated: the walk stops at the first slot without pages, and no slot
    behind it holds a bitmap.  The table itself is freed last. *)
Theorem free_physmem_frees_all (k : kvm) :
  memslots_wf (kvm_memslots_of k) →
  ids_consistent (kvm_memslots_of k) →
  bitmaps_owned k →
  (kvm_free_physmem k).1 = ∅
  ∧ NoDup (freed (kvm_free_physmem k).2)
  ∧ (∀ p, p ∈ freed (kvm_free_physmem k).2 ↔ p ∈ dom (kmem k))
  ∧ last (kvm_free_physmem k).2 = Some (EvKfreeTable (kvm_memslots_of k)).
Proof.
  intros (Hlen & Hrange & Hsorted) Hc (Hin & Hown & Hshare).
  unfold kvm_free_physmem, kvm_for_each_memslot.
  rewrite take_ge by lia.
  set (l := present_prefix (memslots (kvm_memslots_of k))).
  destruct (free_memslots_spec (kmem k) l) as [Hdom Hfreed].
  destruct (free_memslots (kmem k) l) as [h tr]. cbn [fst snd] in *.
  assert (∀ p, p ∈ omap dirty_bitmap l ↔ p ∈ dom (kmem k)) as Hall.
  { intros p. rewrite list_elem_of_omap. split.
    - intros (s & [Hs _]%present_prefix_elem & Hp). by apply (Hin s).
    - intros (s & Hs & Hp)%Hown. exists s. split; [|done].
      apply elem_of_present_prefix; try done. by apply (Hin s p). }
  assert (freed (tr ++ [EvKfreeTable (kvm_memslots_of k)])
          = omap dirty_bitmap l) as Hfreed'.
  { unfold freed in *. rewrite omap_app, Hfreed. cbn. apply app_nil_r. }
  rewrite Hfreed'. split_and!.
  - apply dom_empty_inv_L. rewrite Hdom. apply set_eq. intros p.
    rewrite elem_of_difference, elem_of_list_to_set, Hall. set_solver.
  - apply NoDup_omap. intros i j s t p Hi%present_prefix_lookup
      Hj%present_prefix_lookup Hs Ht.
    pose proof (Hshare s t p (list_elem_of_lookup_2 _ _ _ Hi)
                  (list_elem_of_lookup_2 _ _ _ Hj) Hs Ht) as Hid.
    destruct (ids_consistent_position _ _ _ Hc Hi) as (_ & <- & _).
    destruct (ids_consistent_position _ _ _ Hc Hj) as (_ & <- & _).
    by rewrite Hid.
  - done.
  - apply last_snoc.
Qed.

End FreeingSlots.

(** ** Pinning a run of pages *)
Section PageRunFacts.
Context `{Platform}.

Lemma gfn_to_memslot_holds k gfn s :
  Forall slot_in_range (memslots (kvm_memslots_of k)) →
  gfn_to_memslot k gfn = Some s →
  slot_in_range s ∧ npages s ≠ 0
  ∧ base_gfn s ≤ gfn < base_gfn s + npages s.
Proof.
  intros Hrange Hs. unfold gfn_to_memslot, __gfn_to_memslot in Hs.
  unfold kvm_for_each_memslot in Hs. apply find_some in Hs as [Hin Hs].
  apply list_elem_of_In, present_prefix_elem in Hin as [Hin Hnp].
  apply elem_of_take in Hin as (i & Hi & _).
  apply list_elem_of_lookup_2 in Hi.
  rewrite Forall_forall in Hrange. pose proof (Hrange s Hi) as Hsr.
  split; [done|]. split; [done|].
  destruct Hsr as (? & ? & ?). rewrite u64_small in Hs by lia.
  apply andb_prop in Hs as [?%Z.leb_le ?%Z.ltb_lt]. lia.
Qed.

(** X24.  Pinning a run of pages.  With slots inside the frame space and a
    count that is not negative, gfn_to_page_many_atomic calls
    __get_user_pages_fast only for a run of frames that lies in one valid,
    writable slot: the frame it starts at is in the slot and the run does
    not pass the slot's last frame.  Without such a slot it returns -1, for
    a run that passes the end of the slot it returns 0, and in both cases
    it pins nothing. *)
Theorem page_run_within_slot (gup : Z → Z → Z) (k : kvm) (gfn nr_pages : Z) :
  Forall slot_in_range (memslots (kvm_memslots_of k)) →
  0 ≤ nr_pages < 2 ^ 31 →
  let r := (gfn_to_page_many_atomic gup k gfn nr_pages).1 in
  let call := (gfn_to_page_many_atomic gup k gfn nr_pages).2 in
  match call with
  | None => r = -1 ∨ r = 0
  | Some (addr, n) =>
      r = gup addr n ∧ n = nr_pages
      ∧ ∃ s, gfn_to_memslot k gfn = Some s
             ∧ Z.land (flags s) KVM_MEMSLOT_INVALID = 0
             ∧ memslot_is_readonly s = false
             ∧ addr = __gfn_to_hva_memslot s gfn
             ∧ base_gfn s ≤ gfn
             ∧ gfn + nr_pages ≤ base_gfn s + npages s
  end
  ∧ (gfn_to_memslot k gfn = None → r = -1 ∧ call = None)
  ∧ (∀ s, gfn_to_memslot k gfn = Some s →
          (Z.land (flags s) KVM_MEMSLOT_INVALID ≠ 0
           ∨ memslot_is_readonly s = true
           → r = -1 ∧ call = None)
          ∧ (base_gfn s + npages s < gfn + nr_pages → call = None)).
Proof.
  intros Hrange Hn. cbn zeta.
  unfold gfn_to_page_many_atomic, gfn_to_hva_many, __gfn_to_hva_many.
  destruct (gfn_to_memslot k gfn) as [s|] eqn:Hs.
  2:{ unfold KVM_HVA_ERR_BAD, kvm_is_error_hva. rewrite Z.leb_refl. cbn.
      split; [by left|]. split; [done|]. by intros s [=]. }
  destruct (gfn_to_memslot_holds _ _ _ Hrange Hs) as ((Hb & Hp & Hsum) & Hnp & Hin).
  destruct (nonzero (Z.land (flags s) KVM_MEMSLOT_INVALID)) eqn:Hinv.
  { unfold KVM_HVA_ERR_BAD, kvm_is_error_hva. rewrite Z.leb_refl. cbn.
    split; [by left|]. split; [done|]. intros ? [= <-]. split; [done|done]. }
  apply nonzero_false in Hinv.
  destruct (memslot_is_readonly s) eqn:Hro; cbn [andb].
  { rewrite KVM_HVA_ERR_RO_BAD_is_error. cbn.
    split; [by left|]. split; [done|]. intros ? [= <-]. split; [done|done]. }
  rewrite (u64_small (gfn - base_gfn s)) by lia.
  rewrite (u64_small (npages s - _)) by lia.
  rewrite (u64_small nr_pages) by lia. cbn [from_option Datatypes.id].
  destruct (kvm_is_error_hva (__gfn_to_hva_memslot s gfn)); cbn [fst snd].
  { split; [by left|]. split; [done|]. intros ? [= <-].
    split; [done|done]. }
  destruct (Z.ltb_spec (npages s - (gfn - base_gfn s)) nr_pages); cbn [fst snd].
  { split; [by right|]. split; [done|]. intros ? [= <-].
    split; [|done]. intros [?|?]; congruence. }
  split.
  { split; [done|]. split; [done|]. exists s. split_and!; try done; lia. }
  split; [done|]. intros ? [= <-]. split.
  - intros [?|?]; congruence.
  - lia.
Qed.

End PageRunFacts.

(** * The properties on the example machines *)

#[local] Existing Instance arm_platform.

Ltac by_compute := apply (bool_decide_unpack _); vm_compute; exact I.

Lemma isort_insert_perm {A} (cmp : A → A → Z) x l :
  isort_insert cmp x l ≡ₚ x :: l.
Proof.
  induction l as [|y l IH]; cbn; [done|].
  destruct (cmp x y <=? 0); [done|]. rewrite IH. apply Permutation_swap.
Qed.

Lemma isort_perm {A} (cmp : A → A → Z) l : isort cmp l ≡ₚ l.
Proof.
  induction l as [|x l IH]; cbn; [done|].
  rewrite isort_insert_perm. by constructor.
Qed.

Lemma arm_sort_permutes : @SortPermutes arm_platform.
Proof. intros A cmp l. apply isort_perm. Qed.

(** C1 does not hold for a DELETE or MOVE that fails after its transitional
    table was published.  A DELETE of slot 1 whose prepare hook fails
    returns the hook's error, and the active table is no longer the one of
    before the call: it is the transitional table, one
    generation later, in which slot 1 is marked invalid. *)
Lemma failed_delete_leaves_transitional_table :
  ∃ tr,
    __kvm_set_memory_region env_prepare_fails vm1 req_delete1
      = (- ENOMEM, vm1_failed_delete, tr)
    ∧ Exists is_publish tr
    ∧ kvm_memslots_of vm1_failed_delete = invalidated (kvm_memslots_of vm1) 1
    ∧ generation (kvm_memslots_of vm1) = 1
    ∧ generation (kvm_memslots_of vm1_failed_delete) = 2
    ∧ flags (id_to_memslot (kvm_memslots_of vm1) 1) = KVM_MEM_LOG_DIRTY_PAGES
    ∧ flags (id_to_memslot (kvm_memslots_of vm1_failed_delete) 1)
      = Z.lor KVM_MEM_LOG_DIRTY_PAGES KVM_MEMSLOT_INVALID
    ∧ kvm_memslots_of vm1_failed_delete ≠ kvm_memslots_of vm1.
Proof.
  eexists. split; [vm_compute; reflexivity|].
  split; [by_compute|].
  repeat split; try (vm_compute; reflexivity).
  intros Heq. apply (f_equal generation) in Heq. vm_compute in Heq. discriminate Heq.
Qed.

(** C3, the claim as stated fails: in the machine left by the failed
    DELETE, a CREATE of slot 0 on frame 17 is disjoint from every other user
    slot that is not marked invalid, and the overlap check rejects it with
    -EEXIST all the same, because of the slot that is marked invalid. *)
Lemma invalid_slot_fails_overlap_check :
  sanity_checks env_ok req_create0 = 0
  ∧ create_or_move vm1_failed_delete req_create0
  ∧ Forall (λ s, other_user_slot req_create0 s →
                 Z.land (flags s) KVM_MEMSLOT_INVALID = 0 →
                 ¬ frames_intersect (req_base_gfn req_create0)
                                    (req_npages req_create0) s)
           (memslots (kvm_memslots_of vm1_failed_delete))
  ∧ region_in_use (kvm_memslots_of vm1_failed_delete) req_create0
                  (req_base_gfn req_create0) (req_npages req_create0) = true
  ∧ __kvm_set_memory_region env_ok vm1_failed_delete req_create0
    = (- EEXIST, vm1_failed_delete, []).
Proof.
  split; [vm_compute; reflexivity|].
  split; [split; [vm_compute; discriminate|left; vm_compute; reflexivity]|].
  split; [by_compute|].
  split; vm_compute; reflexivity.
Qed.

Lemma create_move_overlap_check_witness :
  __kvm_set_memory_region env_ok vm1 req_create0 = (- EEXIST, vm1, []).
Proof.
  refine (proj1 (create_move_overlap_check env_ok vm1 req_create0 _ _ _ _) _).
  - unfold region_typed. cbn. lia.
  - vm_compute. reflexivity.
  - unfold memslots_wf. by_compute.
  - split; [vm_compute; discriminate|left; vm_compute; reflexivity].
  - exists (id_to_memslot (kvm_memslots_of vm1) 1).
    split; [vm_compute; apply list_elem_of_here|]. split; by_compute.
Defined.

(** C4, the claim as stated fails: a request that only grows slot 1 from
    three pages to four, with the host-virtual base it has, is rejected
    with -EINVAL. *)
Lemma resize_alone_is_rejected :
  sanity_checks env_ok req_resize1 = 0
  ∧ npages (id_to_memslot (kvm_memslots_of vm1) 1) = 3
  ∧ req_npages req_resize1 = 4
  ∧ mem_userspace_addr req_resize1
    = userspace_addr (id_to_memslot (kvm_memslots_of vm1) 1)
  ∧ __kvm_set_memory_region env_ok vm1 req_resize1 = (- EINVAL, vm1, []).
Proof. repeat split; vm_compute; reflexivity. Qed.

Lemma set_region_classification_witness :
  let res := __kvm_set_memory_region env_ok vm1 req_move1 in
  res = carried_out_as KVM_MR_MOVE env_ok vm1 req_move1
  ∧ classified_as KVM_MR_MOVE (id_to_memslot (kvm_memslots_of vm1) 1) res
  ∧ res ≠ (- EINVAL, vm1, []) ∧ res ≠ (0, vm1, []).
Proof.
  pose proof (set_region_classification env_ok vm1 req_move1) as Hcls.
  cbn zeta in Hcls.
  destruct Hcls as (_ & _ & Hmove & _); [vm_compute; reflexivity|].
  apply Hmove.
  - vm_compute. discriminate.
  - vm_compute. discriminate.
  - intros [Hd|[Hd|Hd]]; apply Hd; vm_compute; reflexivity.
  - vm_compute. discriminate.
Defined.


Lemma invalidate_range_end_seq_then_count_witness :
  mmu_notifier_seq
    (replay (set_mmu_notifier_count vm1 1)
       (take 4 (kvm_mmu_notifier_invalidate_range_end
                  (set_mmu_notifier_count vm1 1) 0 4096).1)) = 1.
Proof.
  pose proof (invalidate_range_end_seq_then_count
                (set_mmu_notifier_count vm1 1) 0 4096) as Hend.
  cbn zeta in Hend.
  destruct (kvm_mmu_notifier_invalidate_range_end (set_mmu_notifier_count vm1 1)
              0 4096) as [tr out] eqn:Hrun.
  destruct Hend as (Htr & Hseen & _). cbn [fst].
  apply (Hseen 4%nat). rewrite Htr. cbn.
  do 3 apply list_elem_of_further. apply list_elem_of_here.
Defined.

Lemma hva_to_pfn_fast_gate_witness :
  (true = true →
   (true = true ∨ (None : option bool) ≠ None)
   ∧ (false = true ∨ Some false ≠ None)
   ∧ __get_user_pages_fast host_ok 4096 = (1, 42)
   ∧ [EvGetUserPagesFastAtomic 4096] = [EvGetUserPagesFastAtomic 4096]
   ∧ Some true = (λ _, true) <$> Some false)
  ∧ (¬ ((true = true ∨ (None : option bool) ≠ None)
        ∧ (false = true ∨ Some false ≠ None)) →
     true = false ∧ [EvGetUserPagesFastAtomic 4096] = [])
  ∧ (true = false → Some true = Some false ∧ 42 = 0).
Proof.
  apply (hva_to_pfn_fast_gate host_ok 4096 true None false (Some false) 0).
  vm_compute. reflexivity.
Defined.

Lemma readonly_write_fault_distinct_from_noslot_witness :
  @__gfn_to_pfn lp64_platform host_ok vm_readonly 16 false None true None
  = Done (KVM_PFN_ERR_RO_FAULT, None, None, []).
Proof.
  refine (proj1 (@readonly_write_fault_distinct_from_noslot lp64_platform
                   host_ok vm_readonly 16 false None None)
                (id_to_memslot (kvm_memslots_of vm_readonly) 0)
                _ _ _).
  - vm_compute. reflexivity.
  - vm_compute. reflexivity.
  - vm_compute. discriminate.
Defined.

Lemma generation_step_and_cache_revalidation_witness :
  (let g := generation (kvm_memslots_of vm1) in
   let res := __kvm_set_memory_region env_ok vm1 req_move1 in
   (published res.2 = [] ∨ published res.2 = [g + 1]
    ∨ published res.2 = [g + 1; g + 2])
   ∧ generation (kvm_memslots_of res.1.2)
     = g + Z.of_nat (length (published res.2)))
  ∧ ∃ r0 ghc' r k',
      kvm_gfn_to_hva_cache_init vm1 ghc_stale (ghc_gpa ghc_stale)
                                (ghc_len ghc_stale)
        = Some (r0, ghc')
      ∧ ghc_generation ghc' = generation (kvm_memslots_of vm1)
      ∧ ghc_gpa ghc' = ghc_gpa ghc_stale ∧ ghc_len ghc' = ghc_len ghc_stale
      ∧ kvm_write_guest_cached host_ok vm1 ghc_stale 8
        = Some (Done (r, k', ghc'))
      ∧ kvm_write_guest_cached host_ok vm1 ghc' 8 = Some (Done (r, k', ghc')).
Proof.
  destruct generation_step_and_cache_revalidation as (_ & _ & Hpub & Hcache).
  split.
  - apply (Hpub 1%nat vm1 env_ok req_move1).
    + apply (reached_in_set_region 0 env_ok kvm_create_vm req_create1).
      apply reached_in_new.
    + vm_compute. reflexivity.
  - apply (Hcache host_ok vm1 ghc_stale 8).
    + by_compute.
    + vm_compute. discriminate.
    + vm_compute. split; discriminate.
    + vm_compute. reflexivity.
    + vm_compute. discriminate.
Defined.

Lemma dirty_log_exact_witness :
  ∃ log,
    kvm_get_dirty_log false (foldl mark_page_dirty vm1 [16; 18]) 1 0
      = (0, foldl mark_page_dirty vm1 [16; 18], Some log, 1)
    ∧ (∀ j, 0 ≤ j → bitmap_bit j log = true ↔ 16 + j ∈ [16; 18])
    ∧ bitmap_weight log = 2%nat.
Proof.
  refine (proj1 dirty_log_exact vm1 (id_to_memslot (kvm_memslots_of vm1) 1)
            1%positive [16; 18] 1 0 _ _ _ _ _ _ _ _).
  - by_compute.
  - vm_compute. reflexivity.
  - vm_compute. reflexivity.
  - reflexivity.
  - vm_compute. reflexivity.
  - vm_compute. reflexivity.
  - intros g Hg.
    apply elem_of_cons in Hg as [->|Hg]; [vm_compute; reflexivity|].
    apply elem_of_cons in Hg as [->|Hg]; [vm_compute; reflexivity|].
    by apply elem_of_nil in Hg.
  - by_compute.
Defined.

(** C5, the claim as stated fails: with a range that contains two others,
    an access at address 25 compares equal to the first range of the table
    and to the third; binary search lands on the third, the second does not
    compare equal, and the first range, whose device would have handled the
    access, is never offered it: dispatch returns -EOPNOTSUPP. *)
Lemma nested_range_is_skipped :
  range (buses vm_nested_bus KVM_MMIO_BUS)
    = [mk_range 0 100 1; mk_range 10 2 2; mk_range 20 10 3]
  ∧ kvm_io_bus_sort_cmp (mk_range 25 1 0) (mk_range 0 100 1) = 0
  ∧ kvm_io_bus_write devs_first_only vm_nested_bus KVM_MMIO_BUS 25 1
    = (- EOPNOTSUPP, [EvOffer 3])
  ∧ spec_dispatch (kvm_iodevice_write devs_first_only) vm_nested_bus
                  KVM_MMIO_BUS 25 1
    = (0, [EvOffer 1]).
Proof. repeat split; vm_compute; reflexivity. Qed.

Lemma dispatch_on_partitioned_bus_witness :
  kvm_io_bus_dispatch (kvm_iodevice_read devs_decline) vm_layered_bus
                      KVM_MMIO_BUS 0x100C 4
  = spec_dispatch (kvm_iodevice_read devs_decline) vm_layered_bus
                  KVM_MMIO_BUS 0x100C 4
  ∧ kvm_io_bus_dispatch (kvm_iodevice_read devs_decline) vm_layered_bus
                        KVM_MMIO_BUS 0x100C 4
    = (- EOPNOTSUPP, [EvOffer 1; EvOffer 2]).
Proof.
  destruct (dispatch_on_partitioned_bus (kvm_iodevice_read devs_decline)
              vm_layered_bus KVM_MMIO_BUS 0x100C 4 0 2) as (Hspec & _ & Hrun).
  - split; [vm_compute; lia|].
    split; [intros n r _ Hn; lia|].
    split; [|intros n r Hr Hn; apply lookup_lt_Some in Hr; vm_compute in Hr; lia].
    intros n r Hr _.
    destruct n as [|[|n]]; vm_compute in Hr; simplify_eq; reflexivity.
  - split; [exact Hspec|]. rewrite Hrun. vm_compute. reflexivity.
Defined.

Lemma register_dev_adds_one_range_witness :
  dev_count (buses (kvm_io_bus_register_dev false vm_layered_bus KVM_MMIO_BUS
                      0x2000 8 3).2 KVM_MMIO_BUS) = 3.
Proof.
  destruct (@register_dev_adds_one_range arm_platform arm_sort_permutes false
              vm_layered_bus KVM_MMIO_BUS 0x2000 8 3) as (_ & Hadd & _).
  destruct Hadd as (_ & Hcount & _); [vm_compute; reflexivity|].
  rewrite Hcount. vm_compute. reflexivity.
Defined.

Lemma unregister_dev_removes_first_witness :
  range (buses (kvm_io_bus_unregister_dev false vm_nested_bus KVM_MMIO_BUS 2).2
               KVM_MMIO_BUS)
  = [mk_range 0 100 1; mk_range 20 10 3].
Proof.
  destruct (unregister_dev_removes_first vm_nested_bus KVM_MMIO_BUS 2)
    as (i & r & Hr & Hd & Hbefore & _ & Hrange & _).
  - by_compute.
  - rewrite Hrange. destruct i as [|[|[|i]]]; vm_compute in Hr; simplify_eq;
      vm_compute in Hd; try discriminate Hd. vm_compute. reflexivity.
Defined.

Lemma unregister_dev_keeps_order_witness :
  strictly_ordered
    (range (buses (kvm_io_bus_unregister_dev false vm_layered_bus
                     KVM_MMIO_BUS 1).2 KVM_MMIO_BUS)).
Proof.
  apply (unregister_dev_keeps_order false vm_layered_bus KVM_MMIO_BUS 1).
  unfold strictly_ordered. by_compute.
Defined.

Lemma register_unregister_round_trip_witness :
  (kvm_io_bus_unregister_dev false
     (kvm_io_bus_register_dev false vm_layered_bus KVM_MMIO_BUS 0x2000 8 3).2
     KVM_MMIO_BUS 3).1 = 0.
Proof.
  apply (@register_unregister_round_trip arm_platform arm_sort_permutes
           vm_layered_bus KVM_MMIO_BUS 0x2000 8 3).
  - vm_compute. reflexivity.
  - by_compute.
Defined.

Lemma isort_insert_sorted x l :
  StronglySorted (λ a b, cmp_memslot a b ≤ 0) l →
  StronglySorted (λ a b, cmp_memslot a b ≤ 0) (isort_insert cmp_memslot x l).
Proof.
  induction 1 as [|y l Hl IH Hy]; cbn; [repeat constructor|].
  destruct (Z.leb_spec (cmp_memslot x y) 0) as [Hle|Hgt].
  - constructor; [by constructor|]. constructor; [done|].
    eapply Forall_impl; [exact Hy|]. cbn. intros z Hz.
    revert Hle Hz. unfold cmp_memslot. repeat case_match; lia.
  - constructor; [done|]. rewrite isort_insert_perm. constructor; [|done].
    revert Hgt. unfold cmp_memslot. repeat case_match; lia.
Qed.

Lemma arm_sort_sorts : @SortSorts arm_platform.
Proof.
  intros l. change (sort cmp_memslot l) with (isort cmp_memslot l).
  induction l as [|x l IH]; cbn; [constructor|]. by apply isort_insert_sorted.
Qed.

Lemma req_create1_typed : request_typed req_create1.
Proof. split; [unfold region_typed|]; cbn; lia. Qed.

Lemma vm1_ids_consistent : ids_consistent (kvm_memslots_of vm1).
Proof.
  apply (@set_region_ids_no_overlap arm_platform arm_sort_permutes env_ok
           kvm_create_vm req_create1).
  - apply req_create1_typed.
  - apply (@kvm_create_vm_wf arm_platform).
  - apply kvm_create_vm_ids_consistent.
  - apply kvm_create_vm_no_overlap.
Qed.

Lemma reachable_table_inv_witness : table_inv (kvm_memslots_of vm1).
Proof.
  apply (@reachable_table_inv arm_platform arm_sort_permutes arm_sort_sorts vm1).
  apply (reachable_set_region env_ok kvm_create_vm req_create1).
  - apply reachable_new.
  - split; [unfold region_typed|]; cbn; lia.
Defined.

Lemma set_region_installs_slot_witness :
  id (id_to_memslot (kvm_memslots_of vm1) 1) = 1
  ∧ base_gfn (id_to_memslot (kvm_memslots_of vm1) 1) = 16
  ∧ npages (id_to_memslot (kvm_memslots_of vm1) 1) = 3
  ∧ flags (id_to_memslot (kvm_memslots_of vm1) 1) = KVM_MEM_LOG_DIRTY_PAGES.
Proof.
  apply (@set_region_installs_slot arm_platform arm_sort_permutes env_ok
           kvm_create_vm vm1 req_create1
           (__kvm_set_memory_region env_ok kvm_create_vm req_create1).2).
  - split; [unfold region_typed|]; cbn; lia.
  - apply kvm_create_vm_ids_consistent.
  - vm_compute. reflexivity.
Defined.

Lemma set_region_other_slots_witness :
  id_to_memslot
    (kvm_memslots_of (__kvm_set_memory_region env_ok vm1 req_move1).1.2) 0
  = id_to_memslot (kvm_memslots_of vm1) 0.
Proof.
  apply (@set_region_other_slots arm_platform arm_sort_permutes env_ok vm1
           req_move1 0).
  - split; [unfold region_typed|]; cbn; lia.
  - apply vm1_ids_consistent.
  - vm_compute. split; [discriminate|reflexivity].
  - vm_compute. discriminate.
Defined.

Lemma set_region_failure_witness :
  vm1_failed_delete = vm1
  ∧ Forall (λ ev, ¬ is_publish ev)
           (__kvm_set_memory_region env_prepare_fails vm1 req_delete1).2
  ∨ vm1_failed_delete
    = set_memslots vm1 (invalidated (kvm_memslots_of vm1) (mem_slot req_delete1))
    ∧ Exists is_publish
             (__kvm_set_memory_region env_prepare_fails vm1 req_delete1).2.
Proof.
  apply (set_region_failure env_prepare_fails vm1 req_delete1 (- ENOMEM)).
  - vm_compute. reflexivity.
  - vm_compute. discriminate.
Defined.

Lemma set_region_rejects_unknown_flags_witness :
  __kvm_set_memory_region env_ok vm1 req_readonly = (- EINVAL, vm1, []).
Proof.
  apply (set_region_rejects_unknown_flags env_ok vm1 req_readonly 1).
  - lia.
  - vm_compute. reflexivity.
  - vm_compute. discriminate.
Defined.

Lemma set_region_rejects_bad_geometry_witness :
  __kvm_set_memory_region env_ok vm1 (mk_region 2 0 0x20000 0x1800 0x60000000)
  = (- EINVAL, vm1, []).
Proof.
  apply set_region_rejects_bad_geometry.
  - unfold region_typed. cbn. lia.
  - left. vm_compute. discriminate.
Defined.


Lemma async_translation_retry_witness :
  KVM_PFN_ERR_FAULT = KVM_PFN_ERR_FAULT
  ∧ ∃ hva, EvGetUserPageNowait hva true
             ∈ [EvGetUserPagesFastAtomic 0x40000000;
                EvGetUserPageNowait 0x40000000 true]
           ∧ (get_user_page_nowait host_not_resident hva true).1 ≠ 1.
Proof.
  apply (async_translation_retry host_not_resident vm1 16 true true None
           KVM_PFN_ERR_FAULT None
           [EvGetUserPagesFastAtomic 0x40000000;
            EvGetUserPageNowait 0x40000000 true]).
  vm_compute. reflexivity.
Defined.

Lemma invalidation_forces_retry_witness :
  mmu_notifier_retry
    (set_mmu_notifier_seq vm1 1) (mmu_notifier_seq vm1) = true.
Proof.
  apply (invalidation_forces_retry vm1 (set_mmu_notifier_seq vm1 1)
           [OpRangeStart 1 0 0 4096; OpRangeEnd 0 4096]).
  - vm_compute. discriminate.
  - vm_compute. split; [discriminate|reflexivity].
  - discriminate.
  - vm_compute. reflexivity.
  - vm_compute. reflexivity.
Defined.

Lemma notifier_count_balance_witness :
  mmu_notifier_count (set_mmu_notifier_seq vm1 2) = mmu_notifier_count vm1.
Proof.
  destruct (notifier_count_balance vm1 (set_mmu_notifier_seq vm1 2)
              [OpRangeStart 1 0 0 4096; OpInvalidatePage 0 0 8192;
               OpRangeEnd 0 4096]) as (_ & _ & _ & Hbal & _).
  - vm_compute. discriminate.
  - vm_compute. split; [discriminate|reflexivity].
  - vm_compute. reflexivity.
  - vm_compute. reflexivity.
  - apply Hbal. vm_compute. reflexivity.
Defined.

Lemma kvm_write_guest_marks_pages_witness :
  ∃ r k' n,
    kvm_write_guest host_ok vm1 0x10ff8 16 = Some (r, k')
    ∧ 0 ≤ n ≤ pages_spanned (offset_in_page 0x10ff8) 16
    ∧ (∀ i, 0 ≤ i < n →
            page_copied host_ok vm1 (Z.shiftr 0x10ff8 PAGE_SHIFT)
                        (offset_in_page 0x10ff8) 16 i)
    ∧ (n < pages_spanned (offset_in_page 0x10ff8) 16 →
       ¬ page_copied host_ok vm1 (Z.shiftr 0x10ff8 PAGE_SHIFT)
                     (offset_in_page 0x10ff8) 16 n)
    ∧ k' = foldl mark_page_dirty vm1 (seqZ (Z.shiftr 0x10ff8 PAGE_SHIFT) n)
    ∧ (r = 0 ∧ n = pages_spanned (offset_in_page 0x10ff8) 16
       ∨ r = - EFAULT ∧ n < pages_spanned (offset_in_page 0x10ff8) 16)
    ∧ kvm_memslots_of k' = kvm_memslots_of vm1.
Proof.
  apply (kvm_write_guest_marks_pages host_ok vm1 0x10ff8 16).
  - lia.
  - vm_compute. split; [discriminate|reflexivity].
  - lia.
Defined.

Lemma cache_init_paths_witness :
  ∃ r ghc',
    kvm_gfn_to_hva_cache_init vm1 ghc_stale 0x10ff8 16 = Some (r, ghc')
    ∧ (r = 0 ∨ r = - EFAULT)
    ∧ (PAGE_SIZE < offset_in_page 0x10ff8 + 16 → r = 0 →
       ghc_memslot ghc' = None)
    ∧ (r = 0 → ghc_memslot ghc' ≠ None →
       offset_in_page 0x10ff8 + 16 ≤ PAGE_SIZE
       ∧ ghc_memslot ghc' = gfn_to_memslot vm1 (Z.shiftr 0x10ff8 PAGE_SHIFT)
       ∧ kvm_is_error_hva (gfn_to_hva vm1 (Z.shiftr 0x10ff8 PAGE_SHIFT)) = false
       ∧ ghc_hva ghc'
         = ulong (gfn_to_hva vm1 (Z.shiftr 0x10ff8 PAGE_SHIFT)
                  + offset_in_page 0x10ff8))
    ∧ (r = - EFAULT → kvm_is_error_hva (ghc_hva ghc') = true)
    ∧ (∀ m len1, len1 ≤ 16 →
         kvm_write_guest_cached m vm1 ghc' len1
         = match ghc_memslot ghc' with
           | None => (λ rk, Done (rk.1, rk.2, ghc'))
                       <$> kvm_write_guest m vm1 0x10ff8 len1
           | Some _ =>
               Some (Done (if kvm_is_error_hva (ghc_hva ghc')
                              || nonzero (__copy_to_user m (ghc_hva ghc') len1)
                           then (- EFAULT, vm1, ghc')
                           else (0, mark_page_dirty vm1
                                      (Z.shiftr 0x10ff8 PAGE_SHIFT), ghc')))
           end).
Proof.
  apply (cache_init_paths vm1 ghc_stale 0x10ff8 16).
  - by_compute.
  - lia.
  - vm_compute. split; [discriminate|reflexivity].
  - lia.
Defined.

Lemma vm1_no_log_no_bitmap : no_log_no_bitmap (kvm_memslots_of vm1).
Proof.
  apply (@set_region_log_or_no_bitmap arm_platform arm_sort_permutes env_ok
           kvm_create_vm req_create1).
  apply kvm_create_vm_no_bitmap.
Qed.

Lemma set_region_dirty_bitmap_witness :
  ∃ p, kmem kvm_create_vm !! p = None
       ∧ dirty_bitmap (id_to_memslot (kvm_memslots_of vm1) 1) = Some p
       ∧ kmem vm1
         = <[p := replicate
                    (dirty_bitmap_words (id_to_memslot (kvm_memslots_of vm1) 1))
                    0]> (kmem kvm_create_vm).
Proof.
  refine (@set_region_dirty_bitmap arm_platform arm_sort_permutes env_ok
            kvm_create_vm vm1 req_create1
            (__kvm_set_memory_region env_ok kvm_create_vm req_create1).2
            _ _ _ _).
  - split; [unfold region_typed|]; cbn; lia.
  - apply kvm_create_vm_ids_consistent.
  - vm_compute. reflexivity.
  - vm_compute. discriminate.
Defined.

Lemma dirty_log_refused_witness :
  kvm_get_dirty_log false vm1 0 7 = (- ENOENT, vm1, None, 7).
Proof.
  destruct (dirty_log_refused false vm1 0 7) as (_ & Hnolog & _).
  - apply vm1_ids_consistent.
  - apply vm1_no_log_no_bitmap.
  - lia.
  - apply Hnolog; vm_compute; reflexivity.
Defined.

Lemma vm1_wf : memslots_wf (kvm_memslots_of vm1).
Proof.
  apply (@set_region_memslots_wf arm_platform arm_sort_permutes arm_sort_sorts
           env_ok kvm_create_vm req_create1).
  - apply req_create1_typed.
  - apply (@kvm_create_vm_wf arm_platform).
Qed.

Lemma vm1_bitmaps_owned : bitmaps_owned vm1.
Proof.
  apply (@bitmaps_owned_set_region arm_platform arm_sort_permutes env_ok
           kvm_create_vm req_create1).
  - apply req_create1_typed.
  - apply kvm_create_vm_ids_consistent.
  - apply bitmaps_owned_new.
Qed.

Lemma reachable_bitmaps_owned_witness :
  bitmaps_owned (mark_page_dirty vm1 17).
Proof.
  apply (@reachable_bitmaps_owned arm_platform arm_sort_permutes
           arm_sort_sorts).
  apply reachable_mark_page_dirty.
  apply (reachable_set_region env_ok kvm_create_vm req_create1).
  - apply reachable_new.
  - split; [unfold region_typed|]; cbn; lia.
Defined.

Lemma free_physmem_frees_all_witness :
  (kvm_free_physmem vm1).1 = ∅
  ∧ NoDup (freed (kvm_free_physmem vm1).2)
  ∧ (∀ p, p ∈ freed (kvm_free_physmem vm1).2 ↔ p ∈ dom (kmem vm1))
  ∧ last (kvm_free_physmem vm1).2 = Some (EvKfreeTable (kvm_memslots_of vm1)).
Proof.
  apply (@free_physmem_frees_all arm_platform vm1).
  - apply vm1_wf.
  - apply vm1_ids_consistent.
  - apply vm1_bitmaps_owned.
Defined.

Lemma page_run_within_slot_witness :
  let r := (gfn_to_page_many_atomic (λ _ n, n) vm1 17 2).1 in
  let call := (gfn_to_page_many_atomic (λ _ n, n) vm1 17 2).2 in
  match call with
  | None => r = -1 ∨ r = 0
  | Some (addr, n) =>
      r = n ∧ n = 2
      ∧ ∃ s, gfn_to_memslot vm1 17 = Some s
             ∧ Z.land (flags s) KVM_MEMSLOT_INVALID = 0
             ∧ memslot_is_readonly s = false
             ∧ addr = __gfn_to_hva_memslot s 17
             ∧ base_gfn s ≤ 17
             ∧ 17 + 2 ≤ base_gfn s + npages s
  end
  ∧ (gfn_to_memslot vm1 17 = None → r = -1 ∧ call = None)
  ∧ (∀ s, gfn_to_memslot vm1 17 = Some s →
          (Z.land (flags s) KVM_MEMSLOT_INVALID ≠ 0
           ∨ memslot_is_readonly s = true
           → r = -1 ∧ call = None)
          ∧ (base_gfn s + npages s < 17 + 2 → call = None)).
Proof.
  apply (@page_run_within_slot arm_platform (λ _ n, n) vm1 17 2).
  - apply vm1_wf.
  - lia.
Defined.
